(** * Blackjack room server (server.js): a shallow embedding and its properties

    The development follows the layout of [server.js]:
    - the card module ([createDeck], [dealCard], [calculateScore]);
    - the player and room records;
    - the process state: the room registry [rooms], the room objects, the
      armed timers of the event loop and the log of what was emitted;
    - the socket handlers and the timer callbacks, then the event loop;
    - the specification's wording and sample inputs;
    - the properties, one module per part of the server.

    Conventions.
    - The numbers that the server computes with (chips, bets, scores,
      countdowns, times in ms) are integers and are modelled by [Z];
      JavaScript agrees with [Z] on them up to 2^53.
    - Strings are sequences of bytes. [parseInt] knows the ASCII white
      space only.
    - An uncaught exception (a [TypeError] raised inside a handler or a
      timer callback) ends the Node process; handlers therefore return an
      [option], with [None] for the uncaught exception.
    - [rooms] is a plain object: a room id is taken not to be the name of a
      property of [Object.prototype].
    - What comes from outside the server is an input of each event: the
      permutation that [createDeck] returns, the content of [socket.rooms],
      and the adapter's view of who is connected. *)

From Stdlib Require Import ZArith List String Ascii Lia Permutation.
From stdpp Require Import base option list gmap strings.
Import ListNotations.

Local Open Scope string_scope.
Local Open Scope Z_scope.
Local Open Scope list_scope.

(* ===================================================================== *)
(** ** Cards *)
(* ===================================================================== *)

(** [suits] and [values] of [createDeck], in the order of the source. *)
Inductive Suit := Hearts | Diamonds | Clubs | Spades.

Inductive Value :=
  VA | V2 | V3 | V4 | V5 | V6 | V7 | V8 | V9 | V10 | VJ | VQ | VK.

Record card := Card { suit : Suit; value : Value }.

#[global] Instance Suit_eq_dec : EqDecision Suit.
Proof. solve_decision. Defined.
#[global] Instance Value_eq_dec : EqDecision Value.
Proof. solve_decision. Defined.
#[global] Instance card_eq_dec : EqDecision card.
Proof. solve_decision. Defined.

Definition suits : list Suit := [Hearts; Diamonds; Clubs; Spades].
Definition values : list Value :=
  [VA; V2; V3; V4; V5; V6; V7; V8; V9; V10; VJ; VQ; VK].

(** The string the source stores in [card.value]. *)
Definition valueName (v : Value) : string :=
  match v with
  | VA => "A" | V2 => "2" | V3 => "3" | V4 => "4" | V5 => "5" | V6 => "6"
  | V7 => "7" | V8 => "8" | V9 => "9" | V10 => "10"
  | VJ => "J" | VQ => "Q" | VK => "K"
  end.

(** *** parseInt *)

(** [parseInt(s, 10)] on a string of ASCII characters: leading white space
    is skipped, one sign is read, then the longest prefix of decimal digits;
    [None] is NaN (no digit). *)
Definition isWhiteSpace (a : ascii) : bool :=
  let n := nat_of_ascii a in
  ((9 <=? n)%nat && (n <=? 13)%nat) || (n =? 32)%nat.

Definition digitOf (a : ascii) : option Z :=
  let n := nat_of_ascii a in
  if ((48 <=? n)%nat && (n <=? 57)%nat)%bool then Some (Z.of_nat n - 48) else None.

Fixpoint skipWhiteSpace (s : string) : string :=
  match s with
  | String a s' => if isWhiteSpace a then skipWhiteSpace s' else s
  | EmptyString => s
  end.

Fixpoint parseDigits (s : string) (acc : option Z) : option Z :=
  match s with
  | String a s' =>
      match digitOf a with
      | Some d => parseDigits s' (Some (10 * default 0 acc + d))
      | None => acc
      end
  | EmptyString => acc
  end.

Definition parseInt (s : string) : option Z :=
  match skipWhiteSpace s with
  | String "-" s' => Z.opp <$> parseDigits s' None
  | String "+" s' => parseDigits s' None
  | s' => parseDigits s' None
  end.

(** *** createDeck, dealCard, calculateScore *)

(** The deck of [createDeck] before [sort(() => Math.random() - 0.5)]. *)
Definition createDeck_unshuffled : list card :=
  s ← suits; v ← values; [Card s v].

(** [deck.pop()]: the last element is removed and returned; on an empty
    array the result is [undefined] ([None]) and the array stays empty. *)
Definition dealCard (deck : list card) : option card * list card :=
  (last deck, removelast deck).

(** The value [parseInt(card.value)] of the number cards. *)
Definition pip (v : Value) : Z :=
  match v with
  | V2 => 2 | V3 => 3 | V4 => 4 | V5 => 5 | V6 => 6 | V7 => 7 | V8 => 8
  | V9 => 9 | V10 => 10
  | VA | VJ | VQ | VK => 0
  end.

(** One iteration of the [for (const card of hand)] loop on
    [(score, aceCount)]. *)
Definition scoreStep (st : Z * nat) (c : card) : Z * nat :=
  match value c with
  | VA => (st.1 + 11, S st.2)
  | VJ | VQ | VK => (st.1 + 10, st.2)
  | v => (st.1 + pip v, st.2)
  end.

(** [while (score > 21 && aceCount > 0) { score -= 10; aceCount--; }] *)
Fixpoint demoteAces (score : Z) (aceCount : nat) : Z :=
  match aceCount with
  | O => score
  | S k => if 21 <? score then demoteAces (score - 10) k else score
  end.

Definition calculateScore (hand : list card) : Z :=
  let st := fold_left scoreStep hand (0, O) in
  demoteAces st.1 st.2.

(* ===================================================================== *)
(** ** Players, dealer, rooms *)
(* ===================================================================== *)

(** [player.status]: 'waiting', 'betting', 'betted', 'playing', 'stand',
    'bust' and the label of an eliminated player ([S_out]). *)
Inductive Status :=
  S_waiting | S_betting | S_betted | S_playing | S_stand | S_bust | S_out.

(** [room.gameState]: 'waiting', 'betting', 'actionPhase', 'dealer',
    'result'. *)
Inductive GameState := G_waiting | G_betting | G_actionPhase | G_dealer | G_result.

(** [player.result]: the empty string of [startRound] and the four messages
    of [determineWinner] (lost by bust, won, lost, push). *)
Inductive ResultMsg := R_empty | R_loseBust | R_win | R_lose | R_push.

#[global] Instance Status_eq_dec : EqDecision Status.
Proof. solve_decision. Defined.
#[global] Instance GameState_eq_dec : EqDecision GameState.
Proof. solve_decision. Defined.
#[global] Instance ResultMsg_eq_dec : EqDecision ResultMsg.
Proof. solve_decision. Defined.

Module Player.
(** [result] is [None] while the property is absent (a player created by
    [createPlayer] has none until the next [startRound]). *)
Record t := mk {
  name : string;
  chips : Z;
  bet : Z;
  hand : list card;
  score : Z;
  status : Status;
  isEliminated : bool;
  result : option ResultMsg;
}.

Definition set_chips (x : Z) (p : t) : t :=
  mk (name p) x (bet p) (hand p) (score p) (status p) (isEliminated p) (result p).
Definition set_bet (x : Z) (p : t) : t :=
  mk (name p) (chips p) x (hand p) (score p) (status p) (isEliminated p) (result p).
Definition set_hand (x : list card) (p : t) : t :=
  mk (name p) (chips p) (bet p) x (score p) (status p) (isEliminated p) (result p).
Definition set_score (x : Z) (p : t) : t :=
  mk (name p) (chips p) (bet p) (hand p) x (status p) (isEliminated p) (result p).
Definition set_status (x : Status) (p : t) : t :=
  mk (name p) (chips p) (bet p) (hand p) (score p) x (isEliminated p) (result p).
Definition set_isEliminated (x : bool) (p : t) : t :=
  mk (name p) (chips p) (bet p) (hand p) (score p) (status p) x (result p).
Definition set_result (x : option ResultMsg) (p : t) : t :=
  mk (name p) (chips p) (bet p) (hand p) (score p) (status p) (isEliminated p) x.
End Player.

#[global] Instance Player_eq_dec : EqDecision Player.t.
Proof. solve_decision. Defined.

Module Dealer.
(** The [status: ''] property that [startRound] adds is never read. *)
Record t := mk { hand : list card; score : Z }.
End Dealer.

Module Timers.
(** [room.timers]: the handle stored under each key, [None] while the key
    has not been assigned. *)
Record t := mk {
  betCountdown : option nat;
  betTimeout : option nat;
  actionTimer : option nat;
  dealerTurn : option nat;
  countdownTimer : option nat;
}.
Definition empty : t := mk None None None None None.
Definition handles (x : t) : list (option nat) :=
  [betCountdown x; betTimeout x; actionTimer x; dealerTurn x; countdownTimer x].
Definition set_betCountdown (h : nat) (x : t) : t :=
  mk (Some h) (betTimeout x) (actionTimer x) (dealerTurn x) (countdownTimer x).
Definition set_betTimeout (h : nat) (x : t) : t :=
  mk (betCountdown x) (Some h) (actionTimer x) (dealerTurn x) (countdownTimer x).
Definition set_actionTimer (h : nat) (x : t) : t :=
  mk (betCountdown x) (betTimeout x) (Some h) (dealerTurn x) (countdownTimer x).
Definition set_dealerTurn (h : nat) (x : t) : t :=
  mk (betCountdown x) (betTimeout x) (actionTimer x) (Some h) (countdownTimer x).
Definition set_countdownTimer (h : nat) (x : t) : t :=
  mk (betCountdown x) (betTimeout x) (actionTimer x) (dealerTurn x) (Some h).
End Timers.

(** [room.players] is a JavaScript object keyed by socket id; [for .. in]
    and [Object.values] visit it in insertion order, so it is kept as an
    association list in that order. *)
Abbreviation playerMap := (list (string * Player.t)).

Module Room.
(** [deck] is [None] until the first [startRound] assigns it. *)
Record t := mk {
  players : playerMap;
  gameState : GameState;
  round : Z;
  deck : option (list card);
  dealer : Dealer.t;
  timers : Timers.t;
}.
Definition set_players (x : playerMap) (r : t) : t :=
  mk x (gameState r) (round r) (deck r) (dealer r) (timers r).
Definition set_gameState (x : GameState) (r : t) : t :=
  mk (players r) x (round r) (deck r) (dealer r) (timers r).
Definition set_round (x : Z) (r : t) : t :=
  mk (players r) (gameState r) x (deck r) (dealer r) (timers r).
Definition set_deck (x : option (list card)) (r : t) : t :=
  mk (players r) (gameState r) (round r) x (dealer r) (timers r).
Definition set_dealer (x : Dealer.t) (r : t) : t :=
  mk (players r) (gameState r) (round r) (deck r) x (timers r).
Definition set_timers (x : Timers.t) (r : t) : t :=
  mk (players r) (gameState r) (round r) (deck r) (dealer r) x.
End Room.

(** *** The players object *)

(** [players[id]] *)
Fixpoint getPlayer (id : string) (ps : playerMap) : option Player.t :=
  match ps with
  | [] => None
  | (k, p) :: ps' => if decide (k = id) then Some p else getPlayer id ps'
  end.

(** [players[id] = p]: an existing key keeps its place, a new key is added
    last. *)
Fixpoint setPlayer (id : string) (p : Player.t) (ps : playerMap) : playerMap :=
  match ps with
  | [] => [(id, p)]
  | (k, q) :: ps' =>
      if decide (k = id) then (k, p) :: ps' else (k, q) :: setPlayer id p ps'
  end.

(** [delete players[id]] *)
Fixpoint deletePlayer (id : string) (ps : playerMap) : playerMap :=
  match ps with
  | [] => []
  | (k, q) :: ps' =>
      if decide (k = id) then deletePlayer id ps' else (k, q) :: deletePlayer id ps'
  end.

(** A loop [for (const id in room.players)] whose body updates the player. *)
Definition forPlayers (f : Player.t → Player.t) (ps : playerMap) : playerMap :=
  (λ kv, (kv.1, f kv.2)) <$> ps.

Definition createPlayer (playerName : string) : Player.t :=
  Player.mk playerName 1000 0 [] 0 S_waiting false None.

(* ===================================================================== *)
(** ** Messages to the transport *)
(* ===================================================================== *)

(** A card as the client sees it; [HiddenCard] is the literal
    [{ suit: 'hidden', value: ' ' }]. *)
Inductive clientCard := Shown (c : card) | HiddenCard.

#[global] Instance clientCard_eq_dec : EqDecision clientCard.
Proof. solve_decision. Defined.

(** [stateForClient] of [updateGameState]. *)
Module View.
Record t := mk {
  players : playerMap;
  gameState : GameState;
  round : Z;
  dealer_hand : list clientCard;
  dealer_score : Z;
}.
End View.

(** An entry [{ id, name, chips }] of the final ranking. *)
Module Rank.
Record t := mk { id : string; name : string; chips : Z }.
End Rank.

(** The three notification texts and the three error texts. *)
Inductive Notice := N_allDone | N_dealerTurn | N_finalResult.
Inductive ErrorText := E_roomIdTaken | E_noSuchRoom | E_roomFull.

Inductive message :=
| M_gameStateUpdate (v : View.t)
| M_notification (n : Notice)
| M_betCountdown (seconds : Z)
| M_actionCountdown (seconds : Z)
| M_nextRoundCountdown (seconds : Z)
| M_errorMsg (e : ErrorText)
| M_roomJoined (roomId : string)
| M_finalRanking (top5 : list Rank.t) (rank : Z) (chips : Z).

(** [io.to(roomId).emit], [socket.emit] and [socket.join]. *)
Inductive output :=
| ToRoom (roomId : string) (m : message)
| ToSocket (socketId : string) (m : message)
| SocketJoin (socketId : string) (roomId : string).

(* ===================================================================== *)
(** ** The process state *)
(* ===================================================================== *)

Definition MAX_ROUNDS : Z := 5.
Definition BET_TIME : Z := 20.
Definition TURN_TIME : Z := 20.
Definition RESULT_TIME : Z := 8.
Definition DEALER_WAIT_TIME : Z := 2000.

(** The callbacks given to [setInterval] and [setTimeout], with the
    variables they close over: [roomId], the room object [room] (its
    address) and the local [countdown]. *)
Inductive timer :=
| T_betCountdown (roomId : string) (countdown : Z)
| T_betTimeout (roomId : string) (room : nat)
| T_actionTimer (roomId : string) (room : nat) (countdown : Z)
| T_dealerWait (roomId : string)
| T_dealerTurn (roomId : string) (room : nat)
| T_countdownTimer (roomId : string) (room : nat) (countdown : Z)
| T_finalRanking (roomId : string).

(** Room objects live in [heap] (an object is its index and is never
    freed, a timer may still hold a room that left the registry); [rooms]
    is the registry [let rooms = {}]; [pending] holds the armed timers with
    the time (ms) at which they are due; [emitted] is the log of what was
    sent, oldest first. *)
Record world := World {
  rooms : gmap string nat;
  heap : list Room.t;
  pending : gmap nat (Z * timer);
  nextTimer : nat;
  now : Z;
  emitted : list output;
}.

Definition set_rooms (x : gmap string nat) (w : world) : world :=
  World x (heap w) (pending w) (nextTimer w) (now w) (emitted w).
Definition set_heap (x : list Room.t) (w : world) : world :=
  World (rooms w) x (pending w) (nextTimer w) (now w) (emitted w).
Definition set_pending (x : gmap nat (Z * timer)) (w : world) : world :=
  World (rooms w) (heap w) x (nextTimer w) (now w) (emitted w).
Definition set_now (x : Z) (w : world) : world :=
  World (rooms w) (heap w) (pending w) (nextTimer w) x (emitted w).

Definition emit (o : output) (w : world) : world :=
  World (rooms w) (heap w) (pending w) (nextTimer w) (now w) (emitted w ++ [o]).

(** [rooms[roomId]]: the room object and its address. *)
Definition getRoom (roomId : string) (w : world) : option (nat * Room.t) :=
  a ← rooms w !! roomId; r ← heap w !! a; Some (a, r).

(** An in-place update of the room object at address [a]. *)
Definition modRoom (a : nat) (f : Room.t → Room.t) (w : world) : world :=
  set_heap (alter f a (heap w)) w.

(** [setInterval] / [setTimeout]: the new handle and the state. *)
Definition setTimer (delay : Z) (c : timer) (w : world) : nat * world :=
  (nextTimer w,
   World (rooms w) (heap w) (<[nextTimer w := (now w + delay, c)]> (pending w))
         (S (nextTimer w)) (now w) (emitted w)).

(** [clearInterval(h)] / [clearTimeout(h)]; [h] may be [undefined]. *)
Definition clearTimer (h : option nat) (w : world) : world :=
  match h with
  | Some h => set_pending (delete h (pending w)) w
  | None => w
  end.

(** What each event takes from outside the server: the deck that
    [createDeck()] returns if it is called, and for the final ranking the
    adapter's [rooms.get(roomId)] and the sockets still connected. *)
Module Env.
Record t := mk {
  createDeck : list card;
  socketsInRoom : option (list string);
  connected : list string;
}.
End Env.

(** A connected socket: its id and the content of [socket.rooms] when the
    handler runs. *)
Module Socket.
Record t := mk { id : string; rooms : list string }.
End Socket.

(* ===================================================================== *)
(** ** The server *)
(* ===================================================================== *)

(** [getRoomIdFromSocket]: the first element of [socket.rooms] that is not
    the socket's own id. *)
Definition getRoomIdFromSocket (s : Socket.t) : option string :=
  List.find (λ r, bool_decide (r ≠ Socket.id s)) (Socket.rooms s).

(** *** updateGameState *)

(** [stateForClient]. With [hideDealerCard] the dealer's hand is
    [[hand[0], hidden]] and the score is [calculateScore([hand[0]])]; on an
    empty hand [hand[0]] is [undefined] and [calculateScore] raises a
    [TypeError] ([None]). *)
Definition stateForClient (r : Room.t) : option View.t :=
  if decide (Room.gameState r = G_actionPhase) then
    c ← head (Dealer.hand (Room.dealer r));
    Some (View.mk (Room.players r) (Room.gameState r) (Room.round r)
                  [Shown c; HiddenCard] (calculateScore [c]))
  else
    Some (View.mk (Room.players r) (Room.gameState r) (Room.round r)
                  (Shown <$> Dealer.hand (Room.dealer r))
                  (Dealer.score (Room.dealer r))).

Definition updateGameState (roomId : string) (w : world) : option world :=
  match getRoom roomId w with
  | None => Some w
  | Some (_, r) =>
      v ← stateForClient r;
      Some (emit (ToRoom roomId (M_gameStateUpdate v)) w)
  end.

(** *** clearAllTimers *)

Definition clearAllTimers (roomId : string) (w : world) : world :=
  match getRoom roomId w with
  | None => w
  | Some (_, r) => foldr clearTimer w (Timers.handles (Room.timers r))
  end.

(** *** Drawing *)

(** [hand.push(dealCard(room.deck))] followed by [calculateScore(hand)], as
    every caller does: [None] is the [TypeError] raised by [undefined.pop]
    when the room has no deck, or by [calculateScore] reading [.value] of
    the [undefined] that an empty deck gives. *)
Definition draw (deck : option (list card)) : option (card * list card) :=
  d ← deck;
  match dealCard d with
  | (Some c, d') => Some (c, d')
  | (None, _) => None
  end.

(** *** dealerTurn *)

Definition dealerTurn (roomId : string) (w : world) : option world :=
  match getRoom roomId w with
  | None => Some w
  | Some (a, _) =>
      let w := modRoom a (Room.set_gameState G_dealer) w in
      w ← updateGameState roomId w;
      let '(h, w) := setTimer 1500 (T_dealerTurn roomId a) w in
      Some (modRoom a (λ r, Room.set_timers (Timers.set_dealerTurn h (Room.timers r)) r) w)
  end.

(** *** checkAndEndActionPhase *)

(** The callback of [every] in [checkAndEndActionPhase]. *)
Definition playerDone (p : Player.t) : bool :=
  if (0 <? Player.bet p) && negb (Player.isEliminated p)
  then bool_decide (Player.status p = S_stand) || bool_decide (Player.status p = S_bust)
  else true.

Definition allPlayersDone (ps : playerMap) : bool :=
  forallb (λ kv, playerDone kv.2) ps.

Definition checkAndEndActionPhase (roomId : string) (w : world) : world :=
  match getRoom roomId w with
  | None => w
  | Some (_, r) =>
      if decide (Room.gameState r = G_actionPhase) then
        if allPlayersDone (Room.players r) then
          let w := clearTimer (Timers.actionTimer (Room.timers r)) w in
          let w := emit (ToRoom roomId (M_notification N_allDone)) w in
          (setTimer DEALER_WAIT_TIME (T_dealerWait roomId) w).2
        else w
      else w
  end.

(** *** startActionPhase *)

Definition startActionPhase (roomId : string) (w : world) : option world :=
  match getRoom roomId w with
  | None => Some w
  | Some (a, _) =>
      let w := modRoom a (Room.set_gameState G_actionPhase) w in
      w ← updateGameState roomId w;
      let '(h, w) := setTimer 1000 (T_actionTimer roomId a TURN_TIME) w in
      Some (modRoom a (λ r, Room.set_timers (Timers.set_actionTimer h (Room.timers r)) r) w)
  end.

(** *** dealCards *)

(** The loop over the players in [dealCards], threading the deck. *)
Fixpoint dealPlayers (ps : playerMap) (deck : option (list card))
  : option (playerMap * option (list card)) :=
  match ps with
  | [] => Some ([], deck)
  | (id, p) :: ps' =>
      if (0 <? Player.bet p) && negb (Player.isEliminated p) then
        '(c1, d1) ← draw deck;
        '(c2, d2) ← draw (Some d1);
        let hand' := Player.hand p ++ [c1; c2] in
        let p' := Player.set_status S_playing
                    (Player.set_score (calculateScore hand')
                       (Player.set_hand hand' p)) in
        '(ps'', deck') ← dealPlayers ps' (Some d2);
        Some ((id, p') :: ps'', deck')
      else
        let p' := if Player.isEliminated p then p else Player.set_status S_stand p in
        '(ps'', deck') ← dealPlayers ps' deck;
        Some ((id, p') :: ps'', deck')
  end.

Definition dealCards (roomId : string) (w : world) : option world :=
  match getRoom roomId w with
  | None => Some w
  | Some (a, r) =>
      if decide (Room.gameState r = G_betting) then
        let w := clearAllTimers roomId w in
        '(ps, d) ← dealPlayers (Room.players r) (Room.deck r);
        '(c1, d1) ← draw d;
        '(c2, d2) ← draw (Some d1);
        let hand' := Dealer.hand (Room.dealer r) ++ [c1; c2] in
        let w := modRoom a (λ r, Room.set_dealer (Dealer.mk hand' (calculateScore hand'))
                                   (Room.set_deck (Some d2) (Room.set_players ps r))) w in
        startActionPhase roomId w
      else Some w
  end.

(** *** startRound *)

(** The body of the loop over the players in [startRound]. *)
Definition resetPlayer (p : Player.t) : Player.t :=
  Player.mk (Player.name p) (Player.chips p) 0 [] 0
            (if Player.isEliminated p then S_out else S_betting)
            (Player.isEliminated p) (Some R_empty).

Definition startRound (newDeck : list card) (roomId : string) (w : world) : option world :=
  match getRoom roomId w with
  | None => Some w
  | Some (a, _) =>
      let w := clearAllTimers roomId w in
      let w := modRoom a (λ r, Room.set_players (forPlayers resetPlayer (Room.players r))
                                 (Room.set_dealer (Dealer.mk [] 0)
                                    (Room.set_deck (Some newDeck)
                                       (Room.set_gameState G_betting r)))) w in
      let '(h1, w) := setTimer 1000 (T_betCountdown roomId BET_TIME) w in
      let w := modRoom a (λ r, Room.set_timers (Timers.set_betCountdown h1 (Room.timers r)) r) w in
      let '(h2, w) := setTimer (BET_TIME * 1000 + 500) (T_betTimeout roomId a) w in
      let w := modRoom a (λ r, Room.set_timers (Timers.set_betTimeout h2 (Room.timers r)) r) w in
      updateGameState roomId w
  end.

Definition startGame (newDeck : list card) (roomId : string) (w : world) : option world :=
  match getRoom roomId w with
  | None => None
  | Some (a, _) => startRound newDeck roomId (modRoom a (Room.set_round 1) w)
  end.

(** *** determineWinner *)

(** The body of the loop over the players in [determineWinner]. *)
Definition settle (dealerScore : Z) (p : Player.t) : Player.t :=
  if 0 <? Player.bet p then
    if decide (Player.status p = S_bust) then
      let p := Player.set_chips (Player.chips p - Player.bet p) p in
      let p := if Player.chips p <? 0 then Player.set_isEliminated true p else p in
      Player.set_result (Some R_loseBust) p
    else if (21 <? dealerScore) || (dealerScore <? Player.score p) then
      let p := Player.set_chips (Player.chips p + Player.bet p) p in
      Player.set_result (Some R_win) p
    else if Player.score p <? dealerScore then
      let p := Player.set_chips (Player.chips p - Player.bet p) p in
      let p := if Player.chips p <? 0 then Player.set_isEliminated true p else p in
      Player.set_result (Some R_lose) p
    else
      Player.set_result (Some R_push) p
  else p.

Definition determineWinner (roomId : string) (w : world) : option world :=
  match getRoom roomId w with
  | None => Some w
  | Some (a, r) =>
      let dealerScore := Dealer.score (Room.dealer r) in
      let w := modRoom a (λ r, Room.set_players (forPlayers (settle dealerScore) (Room.players r))
                                 (Room.set_gameState G_result r)) w in
      w ← updateGameState roomId w;
      if MAX_ROUNDS <=? Room.round r then
        let w := emit (ToRoom roomId (M_notification N_finalResult)) w in
        Some (setTimer 2000 (T_finalRanking roomId) w).2
      else
        let '(h, w) := setTimer 1000 (T_countdownTimer roomId a RESULT_TIME) w in
        Some (modRoom a (λ r, Room.set_timers (Timers.set_countdownTimer h (Room.timers r)) r) w)
  end.

(** *** The final ranking *)

(** [sort((a, b) => b.chips - a.chips)]: chips descending, entries with
    equal chips keep their order. *)
Fixpoint insertRank (x : Rank.t) (l : list Rank.t) : list Rank.t :=
  match l with
  | [] => [x]
  | y :: l' => if Rank.chips y <=? Rank.chips x then x :: l else y :: insertRank x l'
  end.

Definition fullRanking (ps : playerMap) : list Rank.t :=
  foldr insertRank [] ((λ kv, Rank.mk kv.1 (Player.name kv.2) (Player.chips kv.2)) <$> ps).

Definition top5Ranking (ps : playerMap) : list Rank.t := take 5 (fullRanking ps).

(** [fullRanking.findIndex(p => p.id === socketId)] *)
Fixpoint findIndex (socketId : string) (l : list Rank.t) : option nat :=
  match l with
  | [] => None
  | y :: l' => if decide (Rank.id y = socketId) then Some O else S <$> findIndex socketId l'
  end.

(** The body of [socketsInRoom.forEach]. *)
Definition sendRanking (connected : list string) (ps : playerMap) (socketId : string)
    (w : world) : world :=
  match findIndex socketId (fullRanking ps) with
  | Some i =>
      match fullRanking ps !! i with
      | Some myData =>
          if bool_decide (socketId ∈ connected) then
            emit (ToSocket socketId
                    (M_finalRanking (top5Ranking ps) (Z.of_nat i + 1) (Rank.chips myData))) w
          else w
      | None => w
      end
  | None => w
  end.

Definition finalRankingTimeout (env : Env.t) (roomId : string) (w : world) : world :=
  match getRoom roomId w with
  | None => w
  | Some (_, r) =>
      let w := match Env.socketsInRoom env with
               | Some ss =>
                   foldl (λ w s, sendRanking (Env.connected env) (Room.players r) s w) w ss
               | None => w
               end in
      set_rooms (delete roomId (rooms w)) w
  end.

(* ===================================================================== *)
(** ** Socket handlers *)
(* ===================================================================== *)

Definition on_createRoom (s : Socket.t) (roomId playerName : string) (w : world)
  : option world :=
  match getRoom roomId w with
  | Some _ => Some (emit (ToSocket (Socket.id s) (M_errorMsg E_roomIdTaken)) w)
  | None =>
      let w := emit (SocketJoin (Socket.id s) roomId) w in
      let room := Room.mk [(Socket.id s, createPlayer playerName)] G_waiting 0 None
                          (Dealer.mk [] 0) Timers.empty in
      let w := World (<[roomId := length (heap w)]> (rooms w)) (heap w ++ [room])
                     (pending w) (nextTimer w) (now w) (emitted w) in
      let w := emit (ToSocket (Socket.id s) (M_roomJoined roomId)) w in
      updateGameState roomId w
  end.

Definition on_joinRoom (s : Socket.t) (roomId playerName : string) (w : world)
  : option world :=
  match getRoom roomId w with
  | None => Some (emit (ToSocket (Socket.id s) (M_errorMsg E_noSuchRoom)) w)
  | Some (a, r) =>
      if (5 <=? length (Room.players r))%nat then
        Some (emit (ToSocket (Socket.id s) (M_errorMsg E_roomFull)) w)
      else
        let w := emit (SocketJoin (Socket.id s) roomId) w in
        let w := modRoom a (λ r, Room.set_players
                   (setPlayer (Socket.id s) (createPlayer playerName) (Room.players r)) r) w in
        let w := emit (ToSocket (Socket.id s) (M_roomJoined roomId)) w in
        updateGameState roomId w
  end.

Definition on_requestStartGame (env : Env.t) (s : Socket.t) (w : world) : option world :=
  match getRoomIdFromSocket s with
  | None => Some w
  | Some roomId =>
      match getRoom roomId w with
      | None => Some w
      | Some (_, r) =>
          if bool_decide (Room.gameState r = G_waiting) && (1 <=? length (Room.players r))%nat
          then startGame (Env.createDeck env) roomId w
          else Some w
      end
  end.

(** The callback of [every] in the [placeBet] handler. *)
Definition allPlayersBetted (ps : playerMap) : bool :=
  forallb (λ kv, bool_decide (Player.status kv.2 = S_betted) || Player.isEliminated kv.2) ps.

(** [amount] is the text of [data.amount] ([parseInt] converts its argument
    to a string first). *)
Definition on_placeBet (s : Socket.t) (roomId amount : string) (w : world)
  : option world :=
  match getRoom roomId w with
  | None => Some w
  | Some (a, r) =>
      match getPlayer (Socket.id s) (Room.players r) with
      | None => Some w
      | Some player =>
          if decide (Room.gameState r = G_betting) then
            if Player.isEliminated player then Some w
            else
              match parseInt amount with
              | Some betAmount =>
                  if 0 <? betAmount then
                    let player := Player.set_status S_betted (Player.set_bet betAmount player) in
                    let ps := setPlayer (Socket.id s) player (Room.players r) in
                    let w := modRoom a (Room.set_players ps) w in
                    if allPlayersBetted ps then
                      let w := clearTimer (Timers.betTimeout (Room.timers r)) w in
                      let w := clearTimer (Timers.betCountdown (Room.timers r)) w in
                      dealCards roomId w
                    else updateGameState roomId w
                  else Some w
              | None => Some w
              end
          else Some w
      end
  end.

(** What the [hit] handler does to the player who draws [c]. *)
Definition hitPlayer (c : card) (player : Player.t) : Player.t :=
  let hand' := Player.hand player ++ [c] in
  let player := Player.set_score (calculateScore hand') (Player.set_hand hand' player) in
  if 21 <? Player.score player then Player.set_status S_bust player else player.

Definition on_hit (s : Socket.t) (roomId : string) (w : world) : option world :=
  match getRoom roomId w with
  | None => Some w
  | Some (a, r) =>
      match getPlayer (Socket.id s) (Room.players r) with
      | None => Some w
      | Some player =>
          if bool_decide (Room.gameState r = G_actionPhase)
             && bool_decide (Player.status player = S_playing) then
            '(c, d) ← draw (Room.deck r);
            let player := hitPlayer c player in
            let w := modRoom a (λ r, Room.set_deck (Some d)
                       (Room.set_players (setPlayer (Socket.id s) player (Room.players r)) r)) w in
            w ← updateGameState roomId w;
            Some (checkAndEndActionPhase roomId w)
          else Some w
      end
  end.

Definition on_stand (s : Socket.t) (roomId : string) (w : world) : option world :=
  match getRoom roomId w with
  | None => Some w
  | Some (a, r) =>
      match getPlayer (Socket.id s) (Room.players r) with
      | None => Some w
      | Some player =>
          if bool_decide (Room.gameState r = G_actionPhase)
             && bool_decide (Player.status player = S_playing) then
            let player := Player.set_status S_stand player in
            let w := modRoom a (λ r, Room.set_players
                       (setPlayer (Socket.id s) player (Room.players r)) r) w in
            w ← updateGameState roomId w;
            Some (checkAndEndActionPhase roomId w)
          else Some w
      end
  end.

Definition on_disconnect (s : Socket.t) (w : world) : option world :=
  match getRoomIdFromSocket s with
  | None => Some w
  | Some roomId =>
      match getRoom roomId w with
      | None => Some w
      | Some (a, r) =>
          match getPlayer (Socket.id s) (Room.players r) with
          | None => Some w
          | Some _ =>
              let ps := deletePlayer (Socket.id s) (Room.players r) in
              let w := modRoom a (Room.set_players ps) w in
              if (length ps =? 0)%nat then
                let w := clearAllTimers roomId w in
                Some (set_rooms (delete roomId (rooms w)) w)
              else
                w ← updateGameState roomId w;
                Some (checkAndEndActionPhase roomId w)
          end
      end
  end.

(* ===================================================================== *)
(** ** Timer callbacks *)
(* ===================================================================== *)

(** The loop bodies of the bet deadline and of the action deadline. *)
Definition forceBet (p : Player.t) : Player.t :=
  if decide (Player.status p = S_betting)
  then Player.set_status S_betted (Player.set_bet 0 p) else p.

Definition forceStand (p : Player.t) : Player.t :=
  if decide (Player.status p = S_playing) then Player.set_status S_stand p else p.

(** An interval stays armed after its callback unless the callback cleared
    it; [rearm] records its next due time and the new value of the
    variables it closes over before the body runs. *)
Definition rearm (h : nat) (due : Z) (c : timer) (w : world) : world :=
  set_pending (<[h := (due, c)]> (pending w)) w.

(** Timer [h] fires. A timeout is disarmed when it fires. *)
Definition fireTimer (env : Env.t) (h : nat) (w : world) : option world :=
  match pending w !! h with
  | None => Some w
  | Some (due, c) =>
      match c with
      | T_betCountdown roomId countdown =>
          let w := emit (ToRoom roomId (M_betCountdown countdown)) w in
          let countdown := countdown - 1 in
          let w := rearm h (due + 1000) (T_betCountdown roomId countdown) w in
          Some (if countdown <? 0 then clearTimer (Some h) w else w)
      | T_betTimeout roomId room =>
          let w := clearTimer (Some h) w in
          match getRoom roomId w with
          | None => Some w
          | Some (_, r) =>
              if decide (Room.gameState r = G_betting) then
                let w := modRoom room (λ r, Room.set_players
                           (forPlayers forceBet (Room.players r)) r) w in
                dealCards roomId w
              else Some w
          end
      | T_actionTimer roomId room countdown =>
          let w := emit (ToRoom roomId (M_actionCountdown countdown)) w in
          let countdown := countdown - 1 in
          let w := rearm h (due + 1000) (T_actionTimer roomId room countdown) w in
          if countdown <? 0 then
            let w := clearTimer (Some h) w in
            let w := modRoom room (λ r, Room.set_players
                       (forPlayers forceStand (Room.players r)) r) w in
            w ← updateGameState roomId w;
            let w := emit (ToRoom roomId (M_notification N_dealerTurn)) w in
            Some (setTimer DEALER_WAIT_TIME (T_dealerWait roomId) w).2
          else Some w
      | T_dealerWait roomId =>
          dealerTurn roomId (clearTimer (Some h) w)
      | T_dealerTurn roomId room =>
          let w := rearm h (due + 1500) c w in
          match heap w !! room with
          | None => Some w
          | Some r =>
              if Dealer.score (Room.dealer r) <? 17 then
                '(c, d) ← draw (Room.deck r);
                let hand' := Dealer.hand (Room.dealer r) ++ [c] in
                let w := modRoom room (λ r, Room.set_dealer
                           (Dealer.mk hand' (calculateScore hand'))
                           (Room.set_deck (Some d) r)) w in
                updateGameState roomId w
              else
                let w := clearTimer (Timers.dealerTurn (Room.timers r)) w in
                determineWinner roomId w
          end
      | T_countdownTimer roomId room countdown =>
          let w := emit (ToRoom roomId (M_nextRoundCountdown countdown)) w in
          let countdown := countdown - 1 in
          let w := rearm h (due + 1000) (T_countdownTimer roomId room countdown) w in
          if countdown <? 0 then
            match heap w !! room with
            | None => Some w
            | Some r =>
                let w := clearTimer (Timers.countdownTimer (Room.timers r)) w in
                let w := modRoom room (λ r, Room.set_round (Room.round r + 1) r) w in
                startRound (Env.createDeck env) roomId w
            end
          else Some w
      | T_finalRanking roomId =>
          Some (finalRankingTimeout env roomId (clearTimer (Some h) w))
      end
  end.

(* ===================================================================== *)
(** ** The event loop *)
(* ===================================================================== *)

Inductive event :=
| Ev_createRoom (s : Socket.t) (roomId playerName : string)
| Ev_joinRoom (s : Socket.t) (roomId playerName : string)
| Ev_requestStartGame (s : Socket.t)
| Ev_placeBet (s : Socket.t) (roomId amount : string)
| Ev_hit (s : Socket.t) (roomId : string)
| Ev_stand (s : Socket.t) (roomId : string)
| Ev_disconnect (s : Socket.t)
| Ev_timer (h : nat).

(** One run-to-completion turn of the event loop. *)
Definition step (env : Env.t) (e : event) (w : world) : option world :=
  match e with
  | Ev_createRoom s roomId playerName => on_createRoom s roomId playerName w
  | Ev_joinRoom s roomId playerName => on_joinRoom s roomId playerName w
  | Ev_requestStartGame s => on_requestStartGame env s w
  | Ev_placeBet s roomId amount => on_placeBet s roomId amount w
  | Ev_hit s roomId => on_hit s roomId w
  | Ev_stand s roomId => on_stand s roomId w
  | Ev_disconnect s => on_disconnect s w
  | Ev_timer h => fireTimer env h w
  end.

(** The armed timer that is due first (the older handle on a tie). *)
Definition earlier (x y : nat * Z) : bool :=
  (x.2 <? y.2) || ((x.2 =? y.2) && (x.1 <? y.1)%nat).

Definition nextDue (w : world) : option (nat * Z) :=
  foldr (λ e acc,
           let x := (e.1, e.2.1) in
           match acc with
           | None => Some x
           | Some y => if earlier x y then Some x else Some y
           end)
        None (map_to_list (pending w)).

(** Time passes until [t]: the timers due by then fire in order, each at
    its due time. [None] is an uncaught exception, or [fuel] too small. *)
Fixpoint runTimers (fuel : nat) (env : Env.t) (t : Z) (w : world) : option world :=
  match nextDue w with
  | Some (h, due) =>
      if due <=? t then
        match fuel with
        | O => None
        | S fuel' =>
            w ← fireTimer env h (set_now (Z.max due (now w)) w);
            runTimers fuel' env t w
        end
      else Some (set_now t w)
  | None => Some (set_now t w)
  end.

(** A socket event arrives at time [t]. *)
Definition runEvent (fuel : nat) (env : Env.t) (te : Z * event) (w : world)
  : option world :=
  w ← runTimers fuel env te.1 w; step env te.2 w.

Fixpoint run (fuel : nat) (env : Env.t) (trace : list (Z * event)) (w : world)
  : option world :=
  match trace with
  | [] => Some w
  | te :: trace' => w ← runEvent fuel env te w; run fuel env trace' w
  end.

(** The state of a server that has just started. *)
Definition initial : world := World ∅ [] ∅ O 0 [].

(* ===================================================================== *)
(** ** The specification's wording, for comparison with the code *)
(* ===================================================================== *)

(** The value of a card before any demotion: face cards 10, Ace 11, the
    other cards their rank. *)
Definition initialPoints (c : card) : Z :=
  match value c with
  | VA => 11
  | VJ | VQ | VK => 10
  | V2 => 2 | V3 => 3 | V4 => 4 | V5 => 5 | V6 => 6 | V7 => 7 | V8 => 8
  | V9 => 9 | V10 => 10
  end.

Definition isAce (c : card) : bool := bool_decide (value c = VA).

Definition initialTotal (hand : list card) : Z :=
  foldr (λ c acc, initialPoints c + acc) 0 hand.

Definition aces (hand : list card) : nat := length (filter (λ c, isAce c = true) hand).

(** The points of the cards that are not aces. *)
Definition othersTotal (hand : list card) : Z :=
  initialTotal (filter (λ c, isAce c = false) hand).

(** The outcome rules of the result computation, for a player [p] that the
    computation turns into [p']. *)
Definition ruleOutcome (dealerScore : Z) (p p' : Player.t) : Prop :=
  (0 < Player.bet p →
     (Player.status p = S_bust →
        Player.chips p' = Player.chips p - Player.bet p
        ∧ Player.result p' = Some R_loseBust)
     ∧ (Player.status p ≠ S_bust →
        (21 < dealerScore ∨ dealerScore < Player.score p →
           Player.chips p' = Player.chips p + Player.bet p
           ∧ Player.result p' = Some R_win)
        ∧ (dealerScore ≤ 21 → Player.score p < dealerScore →
           Player.chips p' = Player.chips p - Player.bet p
           ∧ Player.result p' = Some R_lose)
        ∧ (dealerScore ≤ 21 → Player.score p = dealerScore →
           Player.chips p' = Player.chips p
           ∧ Player.result p' = Some R_push)))
  ∧ (Player.bet p ≤ 0 → p' = p)
  ∧ Player.name p' = Player.name p
  ∧ Player.bet p' = Player.bet p
  ∧ Player.hand p' = Player.hand p
  ∧ Player.score p' = Player.score p
  ∧ Player.status p' = Player.status p.

(** What dealing does to a player [q]: two cards and status playing with
    a bet (and not eliminated), status stand without one, nothing at all
    when eliminated. *)
Definition dealtPlayer (q q' : Player.t) : Prop :=
  (0 < Player.bet q → Player.isEliminated q = false →
     ∃ c1 c2, q' = Player.set_status S_playing
                     (Player.set_score (calculateScore (Player.hand q ++ [c1; c2]))
                        (Player.set_hand (Player.hand q ++ [c1; c2]) q)))
  ∧ (Player.bet q ≤ 0 → Player.isEliminated q = false → q' = Player.set_status S_stand q)
  ∧ (Player.isEliminated q = true → q' = q).





(** The players once an accepted bet of [n] by the player [p] of socket [s]
    has been recorded. *)
Definition recorded (s : Socket.t) (n : Z) (p : Player.t) (r : Room.t) : playerMap :=
  setPlayer (Socket.id s) (Player.set_status S_betted (Player.set_bet n p)) (Room.players r).

(** Every player that is not eliminated has status betted. *)
Definition everyoneBetted (ps : playerMap) : Prop :=
  ∀ i id q, ps !! i = Some (id, q) →
    Player.isEliminated q = false → Player.status q = S_betted.


(** [stateForClient] raises only in the action phase on an empty dealer
    hand; dealing leaves two cards there. *)
Definition projectable (r : Room.t) : Prop :=
  Room.gameState r = G_actionPhase → Dealer.hand (Room.dealer r) ≠ [].



(** What stays true of an eliminated player [p] when an event turns the
    record into [p']: still eliminated; with the bet at 0, the bet stays 0
    and the chips are kept; not playing, the player stays so and gets no
    card (the hand is kept, or emptied by the next round). *)
Definition keepsOut (p p' : Player.t) : Prop :=
  Player.isEliminated p = true →
  Player.isEliminated p' = true
  ∧ (Player.bet p = 0 → Player.bet p' = 0 ∧ Player.chips p' = Player.chips p)
  ∧ (Player.status p ≠ S_playing →
     Player.status p' ≠ S_playing
     ∧ (Player.hand p' = Player.hand p ∨ Player.hand p' = [])).

(** A player who is not eliminated has no negative chip total. *)
Definition solvent (p : Player.t) : Prop :=
  Player.isEliminated p = false → 0 ≤ Player.chips p.

Definition staysSolvent (p p' : Player.t) : Prop := solvent p → solvent p'.

(** A relation between a player's record before and after that every
    update of a record in the server respects: the loop bodies of
    [startRound], of the two deadlines, of [determineWinner] and of
    [dealCards], and the updates of the [placeBet], [stand] and [hit]
    handlers. *)
Class Respected (K : Player.t → Player.t → Prop) : Prop := {
  respected_refl p : K p p;
  respected_trans p1 p2 p3 : K p1 p2 → K p2 p3 → K p1 p3;
  respected_resetPlayer p : K p (resetPlayer p);
  respected_forceBet p : K p (forceBet p);
  respected_forceStand p : K p (forceStand p);
  respected_settle dealerScore p : K p (settle dealerScore p);
  respected_dealt p p' : dealtPlayer p p' → K p p';
  respected_bet n p :
    Player.isEliminated p = false →
    K p (Player.set_status S_betted (Player.set_bet n p));
  respected_stand p : K p (Player.set_status S_stand p);
  respected_hit c p : Player.status p = S_playing → K p (hitPlayer c p);
}.



(** The states that the server gets to from its start: events are handled
    and time passes. *)
Inductive reachable : world → Prop :=
| reachable_initial : reachable initial
| reachable_step env e w w' :
    reachable w → step env e w = Some w' → reachable w'
| reachable_time t w :
    reachable w → reachable (set_now t w).


(** The handles kept in [room.timers] were all given out already. *)
Definition handlesIssued (r : Room.t) (w : world) : Prop :=
  ∀ h, Some h ∈ Timers.handles (Room.timers r) → (h < nextTimer w)%nat.

(* ===================================================================== *)
(** ** Sample inputs *)
(* ===================================================================== *)

Module Sample.

Definition KS : card := Card Spades VK.
Definition QS : card := Card Spades VQ.
Definition H5 : card := Card Hearts V5.
Definition H6 : card := Card Hearts V6.
Definition C8 : card := Card Clubs V8.
Definition C9 : card := Card Clubs V9.

(** A shuffled deck whose last six cards are, from the top of the deck
    down: 9♣ 8♣ (first player), 5♥ 6♥ (second player), K♠ Q♠ (dealer). *)
Definition top6 : list card := [QS; KS; H6; H5; C8; C9].
Definition deck1 : list card :=
  filter (λ c, c ∉ top6) createDeck_unshuffled ++ top6.

Definition env1 : Env.t := Env.mk deck1 (Some ["A"; "B"]) ["A"; "B"].

Definition sA : Socket.t := Socket.mk "A" ["A"; "r"].
Definition sB : Socket.t := Socket.mk "B" ["B"; "r"].

(** Two players create and join room "r" and the game is started. *)
Definition trace_betting : list (Z * event) :=
  [ (0, Ev_createRoom sA "r" "alice");
    (100, Ev_joinRoom sB "r" "bob");
    (200, Ev_requestStartGame sA) ].

(** Both bet 100: the cards are dealt and the action phase starts. *)
Definition trace_action : list (Z * event) :=
  trace_betting ++
  [ (1000, Ev_placeBet sA "r" "100");
    (2000, Ev_placeBet sB "r" "100") ].

(** Both stand. *)
Definition trace_stand : list (Z * event) :=
  trace_action ++
  [ (3000, Ev_stand sA "r");
    (4000, Ev_stand sB "r") ].

(** ... and the second player leaves half a second later. *)
Definition trace_leave : list (Z * event) :=
  trace_stand ++ [ (4500, Ev_disconnect sB) ].

Definition after (trace : list (Z * event)) : world :=
  default initial (run 100 env1 trace initial).

(** The state at time [t] when nothing more arrives after [trace]. *)
Definition afterUntil (trace : list (Z * event)) (t : Z) : world :=
  default initial (w ← run 100 env1 trace initial; runTimers 100 env1 t w).

Definition w_betting : world := after trace_betting.
Definition w_oneBet : world :=
  default initial (on_placeBet sA "r" "100" w_betting).
Definition w_action : world := after trace_action.
Definition w_allStand : world := after trace_stand.
Definition w_dealer : world := afterUntil trace_stand 6000.
Definition w_result : world := afterUntil trace_stand 7500.

(** The first player bets 2000 of the 1000 chips and loses. *)
Definition trace_out : list (Z * event) :=
  trace_betting ++
  [ (1000, Ev_placeBet sA "r" "2000");
    (2000, Ev_placeBet sB "r" "100");
    (3000, Ev_stand sA "r");
    (4000, Ev_stand sB "r") ].



(** Just before the countdown to the second round ends, and the state that
    its last tick leaves. *)
Definition w_endOfRound1 : world := afterUntil trace_out 16499.
Definition w_startOfRound2 : world :=
  default initial (step env1 (Ev_timer 5%nat) w_endOfRound1).

(** The room object of room "r". *)
Definition roomOf (w : world) : Room.t :=
  default (Room.mk [] G_waiting 0 None (Dealer.mk [] 0) Timers.empty)
          (snd <$> getRoom "r" w).

(** A room in the action phase whose dealer holds K♠ then 5♥. *)
Definition room_K5 : Room.t :=
  Room.mk [("A", Player.mk "alice" 1000 100 [C9; C8] 17 S_playing false (Some R_empty))]
          G_actionPhase 1 (Some []) (Dealer.mk [KS; H5] 15) Timers.empty.


End Sample.

(* ===================================================================== *)
(** ** Further notions used by the properties of the code *)
(* ===================================================================== *)

From Stdlib Require Import Sorted.

(** The total of a hand with every ace counted 1. *)
Definition hardTotal (hand : list card) : Z := othersTotal hand + Z.of_nat (aces hand).

(** The room object that the [createRoom] handler builds. *)
Definition newRoom (socketId playerName : string) : Room.t :=
  Room.mk [(socketId, createPlayer playerName)] G_waiting 0 None (Dealer.mk [] 0)
          Timers.empty.

(** The room as [startRound] leaves it, when [h] and [S h] are the handles
    that its interval and its timeout get. *)
Definition roundStart (newDeck : list card) (h : nat) (r : Room.t) : Room.t :=
  Room.mk (forPlayers resetPlayer (Room.players r)) G_betting (Room.round r)
          (Some newDeck) (Dealer.mk [] 0)
          (Timers.set_betTimeout (S h) (Timers.set_betCountdown h (Room.timers r))).


(** Timer [h] fires [k] times in a row. *)
Fixpoint fireTimes (env : Env.t) (h : nat) (k : nat) (w : world) : option world :=
  match k with
  | O => Some w
  | S k' => w ← fireTimer env h w; fireTimes env h k' w
  end.

(** The numbers [n], [n - 1], ..., [0]. *)
Fixpoint countdownFrom (n : nat) : list Z :=
  Z.of_nat n :: match n with O => [] | S m => countdownFrom m end.

(** Further sample states. *)
Module Cases.

(** The action phase of the sample, with a bet deadline that is still
    armed. *)
Definition w_staleDeadline : world :=
  set_pending (<[1%nat := (20700, T_betTimeout "r" O)]> (pending Sample.w_action))
              Sample.w_action.

(** The result of the sample's first round with the timeout of a final
    ranking armed, and the same with the room taken out of the registry. *)
Definition w_ranking : world :=
  set_pending (<[7%nat := (9000, T_finalRanking "r")]> (pending Sample.w_result))
              Sample.w_result.

Definition w_rankingGone : world := set_rooms ∅ w_ranking.

End Cases.

(** *** The updates of a room object *)

(** The kinds of change that the server makes to a room object, one for
    each place of [server.js] that assigns to a room or to one of its
    players; the updates of the [joinRoom], [placeBet], [hit], [stand] and
    [disconnect] handlers carry the id of the socket whose record they
    write.
    - [K_timers]: an assignment to a key of [room.timers];
    - [K_startGame]: [room.round = 1] in [startGame], which the
      [requestStartGame] handler calls in the waiting phase only;
    - [K_startRound]: the reset of [startRound];
    - [K_nextRound]: [room.round++] in the countdown to the next round;
    - [K_deal]: the loop and the dealer's two cards of [dealCards], then
      [room.gameState = 'actionPhase'] in [startActionPhase];
    - [K_dealerTurn]: [room.gameState = 'dealer'] in [dealerTurn];
    - [K_forceBet], [K_forceStand]: the loops of the two deadlines;
    - [K_dealerDraw]: the dealer's draw below 17;
    - [K_result]: the loop of [determineWinner]. *)
Inductive updateKind :=
| K_timers | K_startGame | K_startRound | K_nextRound | K_deal | K_dealerTurn
| K_forceBet | K_forceStand | K_dealerDraw | K_result
| K_join (id : string) | K_bet (id : string) | K_hit (id : string)
| K_stand (id : string) | K_leave (id : string).

#[global] Instance updateKind_eq_dec : EqDecision updateKind.
Proof. solve_decision. Defined.

(** Every change of a room object, by kind, under the conditions that the
    code checks before it makes the change; [newDeck] is what
    [createDeck()] returns. *)
Inductive roomUpdate (newDeck : list card) : updateKind → Room.t → Room.t → Prop :=
| ru_timers t r :
    roomUpdate newDeck K_timers r (Room.set_timers t r)
| ru_startGame r :
    Room.gameState r = G_waiting →
    roomUpdate newDeck K_startGame r (Room.set_round 1 r)
| ru_startRound r :
    roomUpdate newDeck K_startRound r
      (Room.set_players (forPlayers resetPlayer (Room.players r))
         (Room.set_dealer (Dealer.mk [] 0)
            (Room.set_deck (Some newDeck) (Room.set_gameState G_betting r))))
| ru_nextRound r :
    roomUpdate newDeck K_nextRound r (Room.set_round (Room.round r + 1) r)
| ru_deal r ps d c1 d1 c2 d2 :
    Room.gameState r = G_betting →
    dealPlayers (Room.players r) (Room.deck r) = Some (ps, d) →
    draw d = Some (c1, d1) →
    draw (Some d1) = Some (c2, d2) →
    roomUpdate newDeck K_deal r
      (Room.set_gameState G_actionPhase
         (Room.set_dealer
            (Dealer.mk (Dealer.hand (Room.dealer r) ++ [c1; c2])
                       (calculateScore (Dealer.hand (Room.dealer r) ++ [c1; c2])))
            (Room.set_deck (Some d2) (Room.set_players ps r))))
| ru_dealerTurn r :
    roomUpdate newDeck K_dealerTurn r (Room.set_gameState G_dealer r)
| ru_forceBet r :
    roomUpdate newDeck K_forceBet r
      (Room.set_players (forPlayers forceBet (Room.players r)) r)
| ru_forceStand r :
    roomUpdate newDeck K_forceStand r
      (Room.set_players (forPlayers forceStand (Room.players r)) r)
| ru_dealerDraw r c d :
    Dealer.score (Room.dealer r) < 17 →
    draw (Room.deck r) = Some (c, d) →
    roomUpdate newDeck K_dealerDraw r
      (Room.set_dealer
         (Dealer.mk (Dealer.hand (Room.dealer r) ++ [c])
                    (calculateScore (Dealer.hand (Room.dealer r) ++ [c])))
         (Room.set_deck (Some d) r))
| ru_result r :
    roomUpdate newDeck K_result r
      (Room.set_players
         (forPlayers (settle (Dealer.score (Room.dealer r))) (Room.players r))
         (Room.set_gameState G_result r))
| ru_join id playerName r :
    (length (Room.players r) < 5)%nat →
    roomUpdate newDeck (K_join id) r
      (Room.set_players (setPlayer id (createPlayer playerName) (Room.players r)) r)
| ru_bet id p n r :
    Room.gameState r = G_betting →
    getPlayer id (Room.players r) = Some p →
    Player.isEliminated p = false →
    0 < n →
    roomUpdate newDeck (K_bet id) r
      (Room.set_players
         (setPlayer id (Player.set_status S_betted (Player.set_bet n p)) (Room.players r)) r)
| ru_hit id p c d r :
    Room.gameState r = G_actionPhase →
    getPlayer id (Room.players r) = Some p →
    Player.status p = S_playing →
    draw (Room.deck r) = Some (c, d) →
    roomUpdate newDeck (K_hit id) r
      (Room.set_deck (Some d)
         (Room.set_players (setPlayer id (hitPlayer c p) (Room.players r)) r))
| ru_stand id p r :
    Room.gameState r = G_actionPhase →
    getPlayer id (Room.players r) = Some p →
    Player.status p = S_playing →
    roomUpdate newDeck (K_stand id) r
      (Room.set_players (setPlayer id (Player.set_status S_stand p) (Room.players r)) r)
| ru_leave id p r :
    getPlayer id (Room.players r) = Some p →
    roomUpdate newDeck (K_leave id) r
      (Room.set_players (deletePlayer id (Room.players r)) r).

(** A sequence of changes of the room objects: updates in place, of the
    kinds in [kinds] and at addresses that satisfy [A], and new room
    objects as [createRoom] builds them, added at the end. *)
Inductive heapUpdates (A : nat → Prop) (kinds : list updateKind) (newDeck : list card)
  : list Room.t → list Room.t → Prop :=
| hu_refl h : heapUpdates A kinds newDeck h h
| hu_update h h' a k r r' :
    heapUpdates A kinds newDeck h h' →
    A a → h' !! a = Some r → roomUpdate newDeck k r r' → k ∈ kinds →
    heapUpdates A kinds newDeck h (<[a := r']> h')
| hu_create h h' socketId playerName :
    heapUpdates A kinds newDeck h h' →
    heapUpdates A kinds newDeck h (h' ++ [newRoom socketId playerName]).

(** The kinds of update that each timer callback and each event makes. *)
Definition timerKinds (c : timer) : list updateKind :=
  match c with
  | T_betCountdown _ _ | T_finalRanking _ => []
  | T_betTimeout _ _ => [K_forceBet; K_deal; K_timers]
  | T_actionTimer _ _ _ => [K_forceStand]
  | T_dealerWait _ => [K_dealerTurn; K_timers]
  | T_dealerTurn _ _ => [K_dealerDraw; K_result; K_timers]
  | T_countdownTimer _ _ _ => [K_nextRound; K_startRound; K_timers]
  end.

Definition eventKinds (e : event) (w : world) : list updateKind :=
  match e with
  | Ev_createRoom _ _ _ => []
  | Ev_joinRoom s _ _ => [K_join (Socket.id s)]
  | Ev_requestStartGame _ => [K_startGame; K_startRound; K_timers]
  | Ev_placeBet s _ _ => [K_bet (Socket.id s); K_deal; K_timers]
  | Ev_hit s _ => [K_hit (Socket.id s)]
  | Ev_stand s _ => [K_stand (Socket.id s)]
  | Ev_disconnect s => [K_leave (Socket.id s)]
  | Ev_timer h =>
      match pending w !! h with
      | Some (_, c) => timerKinds c
      | None => []
      end
  end.

(** The room object and the room id that a timer callback closes over. *)
Definition timerRoom (c : timer) : option nat :=
  match c with
  | T_betTimeout _ room | T_actionTimer _ room _ | T_dealerTurn _ room
  | T_countdownTimer _ room _ => Some room
  | T_betCountdown _ _ | T_dealerWait _ | T_finalRanking _ => None
  end.

Definition timerRoomId (c : timer) : string :=
  match c with
  | T_betCountdown roomId _ | T_betTimeout roomId _ | T_actionTimer roomId _ _
  | T_dealerWait roomId | T_dealerTurn roomId _ | T_countdownTimer roomId _ _
  | T_finalRanking roomId => roomId
  end.

(** The room objects that an event addresses: the one registered under the
    room id that the event names (for [requestStartGame] and [disconnect],
    the first room of the socket), and for a timer also the object that
    its callback closed over. *)
Definition touched (e : event) (w : world) (a : nat) : Prop :=
  match e with
  | Ev_createRoom _ _ _ => False
  | Ev_joinRoom _ roomId _ | Ev_placeBet _ roomId _ | Ev_hit _ roomId
  | Ev_stand _ roomId => rooms w !! roomId = Some a
  | Ev_requestStartGame s | Ev_disconnect s =>
      ∃ roomId, getRoomIdFromSocket s = Some roomId ∧ rooms w !! roomId = Some a
  | Ev_timer h =>
      ∃ due c, pending w !! h = Some (due, c)
        ∧ (timerRoom c = Some a ∨ rooms w !! timerRoomId c = Some a)
  end.

(** *** What holds of every room object *)

(** The cards of a room: the hands of its players, the dealer's hand and
    the deck. *)
Definition handsOf (ps : playerMap) : list card := kv ← ps; Player.hand kv.2.

Definition cardsInRoom (r : Room.t) : list card :=
  handsOf (Room.players r) ++ Dealer.hand (Room.dealer r) ++ default [] (Room.deck r).

(** A player's record is consistent: the score is the score of the hand,
    the status is bust exactly when the score is over 21, the bet is not
    negative, and the chips are not negative unless the player is
    eliminated. *)
Definition playerInv (p : Player.t) : Prop :=
  Player.score p = calculateScore (Player.hand p)
  ∧ (21 < Player.score p ↔ Player.status p = S_bust)
  ∧ 0 ≤ Player.bet p
  ∧ solvent p.

(** A room object is consistent: no player id twice, five players at
    most, every player's record consistent, hands empty during the betting
    phase, the dealer's score the score of the dealer's hand, the dealer
    holding a card during the action phase, and the round not negative. *)
Definition roomInv (r : Room.t) : Prop :=
  NoDup (Room.players r).*1
  ∧ (length (Room.players r) ≤ 5)%nat
  ∧ Forall (λ kv, playerInv kv.2) (Room.players r)
  ∧ (Room.gameState r = G_betting →
     Forall (λ kv, Player.hand kv.2 = []) (Room.players r))
  ∧ Dealer.score (Room.dealer r) = calculateScore (Dealer.hand (Room.dealer r))
  ∧ projectable r
  ∧ 0 ≤ Room.round r.

Module Cases2.

(** A second room, "q", is created while room "r" of the sample is in its
    action phase. *)
Definition sD : Socket.t := Socket.mk "D" ["D"; "q"].

Definition w_twoRooms : world :=
  default initial (on_createRoom sD "q" "dan" Sample.w_action).

End Cases2.

(** *** What an event leaves alone *)

(** What identifies a player's standing: name, chips and the elimination
    flag. *)
Definition sameAccount (p p' : Player.t) : Prop :=
  Player.name p' = Player.name p
  ∧ Player.chips p' = Player.chips p
  ∧ Player.isEliminated p' = Player.isEliminated p.

(** The record under [id], if there is one after the update, was there
    before, with the same name, chips and elimination flag. *)
Definition accountKept (id : string) (r r' : Room.t) : Prop :=
  ∀ p', getPlayer id (Room.players r') = Some p' →
    ∃ p, getPlayer id (Room.players r) = Some p ∧ sameAccount p p'.

(** The event is a firing of the dealer's interval. *)
Definition firesDealerInterval (e : event) (w : world) : Prop :=
  match e with
  | Ev_timer h => ∃ due roomId room, pending w !! h = Some (due, T_dealerTurn roomId room)
  | _ => False
  end.

(** The event is a [joinRoom] sent by socket [id]. *)
Definition joinsAs (e : event) (id : string) : Prop :=
  match e with
  | Ev_joinRoom s _ _ => Socket.id s = id
  | _ => False
  end.

(** The event is a [joinRoom], [hit], [stand] or [disconnect] sent by
    socket [id]. *)
Definition actsOnOwnRecord (e : event) (id : string) : Prop :=
  match e with
  | Ev_joinRoom s _ _ | Ev_hit s _ | Ev_stand s _ | Ev_disconnect s => Socket.id s = id
  | _ => False
  end.

(** From [r] to [r'] nothing has changed but, possibly, the record under
    [id] and the deck. *)
Definition ownOnly (id : string) (r r' : Room.t) : Prop :=
  (∀ id', id' ≠ id →
     getPlayer id' (Room.players r') = getPlayer id' (Room.players r))
  ∧ Room.gameState r' = Room.gameState r
  ∧ Room.round r' = Room.round r
  ∧ Room.dealer r' = Room.dealer r
  ∧ Room.timers r' = Room.timers r.

(** The registry is sound: every registered id refers to a room object
    that exists and has a player, and no two ids refer to the same
    object. *)
Definition registryInv (w : world) : Prop :=
  (∀ roomId a, rooms w !! roomId = Some a →
     ∃ r, heap w !! a = Some r ∧ Room.players r ≠ [])
  ∧ (∀ id1 id2 a, rooms w !! id1 = Some a → rooms w !! id2 = Some a → id1 = id2).

(* ===================================================================== *)
(** ** Properties of the card module *)
(* ===================================================================== *)

Module CardFacts.

Example parseInt_plain : parseInt "25" = Some 25.
Proof. reflexivity. Qed.
Example parseInt_prefix : parseInt " 5abc" = Some 5.
Proof. reflexivity. Qed.
Example parseInt_fraction : parseInt "2.5" = Some 2.
Proof. reflexivity. Qed.
Example parseInt_nan : parseInt "abc" = None.
Proof. reflexivity. Qed.
Example parseInt_neg : parseInt "-7" = Some (-7).
Proof. reflexivity. Qed.

(** [pip] is [parseInt] on the strings of the number cards. *)
Lemma pip_parseInt v :
  v ≠ VA → v ≠ VJ → v ≠ VQ → v ≠ VK → parseInt (valueName v) = Some (pip v).
Proof. destruct v; intros; try congruence; reflexivity. Qed.

Lemma createDeck_length : length createDeck_unshuffled = 52%nat.
Proof. reflexivity. Qed.

Lemma createDeck_NoDup : NoDup createDeck_unshuffled.
Proof. apply (bool_decide_unpack _). vm_compute. exact I. Qed.

Lemma deck1_shuffled : Sample.deck1 ≡ₚ createDeck_unshuffled.
Proof.
  apply NoDup_Permutation.
  - apply (bool_decide_unpack _). vm_compute. exact I.
  - apply createDeck_NoDup.
  - assert (H : ∀ s v, bool_decide (Card s v ∈ Sample.deck1
                                     ↔ Card s v ∈ createDeck_unshuffled) = true).
    { intros s v. destruct s, v; vm_compute; reflexivity. }
    intros [s v]. specialize (H s v). by apply bool_decide_eq_true in H.
Qed.

(** *** The for loop of calculateScore *)

Lemma scoreStep_points st c :
  scoreStep st c = (st.1 + initialPoints c, if isAce c then S st.2 else st.2).
Proof. destruct st as [s a], c as [su v]. destruct v; reflexivity. Qed.

Lemma aces_cons c hand :
  aces (c :: hand) = if isAce c then S (aces hand) else aces hand.
Proof.
  unfold aces. rewrite filter_cons.
  destruct (decide (isAce c = true)) as [->|H]; [reflexivity|].
  destruct (isAce c); [congruence | reflexivity].
Qed.

Lemma othersTotal_cons c hand :
  othersTotal (c :: hand)
  = if isAce c then othersTotal hand else initialPoints c + othersTotal hand.
Proof.
  unfold othersTotal. rewrite filter_cons.
  destruct (decide (isAce c = false)) as [->|H]; [reflexivity|].
  destruct (isAce c); [reflexivity | congruence].
Qed.

Lemma fold_scoreStep hand : ∀ st,
  fold_left scoreStep hand st = (st.1 + initialTotal hand, (st.2 + aces hand)%nat).
Proof.
  induction hand as [|c hand IH]; intros [s a].
  - simpl. f_equal; [lia | unfold aces; simpl; lia].
  - cbn [fold_left]. rewrite IH, scoreStep_points, aces_cons. simpl.
    destruct (isAce c); f_equal; lia.
Qed.

Lemma calculateScore_unfold hand :
  calculateScore hand = demoteAces (initialTotal hand) (aces hand).
Proof. unfold calculateScore. rewrite fold_scoreStep. simpl. reflexivity. Qed.

(** *** The while loop of calculateScore *)

(** The loop demotes [d] aces, one at a time and each time because the
    running total exceeded 21, and stops as soon as the total is at most 21
    or no ace is left at 11. *)
Lemma demoteAces_spec (a : nat) : ∀ s : Z,
  ∃ d : nat, (d ≤ a)%nat
    ∧ demoteAces s a = s - 10 * Z.of_nat d
    ∧ (demoteAces s a ≤ 21 ∨ d = a)
    ∧ (∀ k : nat, (k < d)%nat → 21 < s - 10 * Z.of_nat k).
Proof.
  induction a as [|a IH]; intros s; simpl.
  - exists O. split_and!; [lia | lia | by right | intros; lia].
  - destruct (21 <? s) eqn:E.
    + apply Z.ltb_lt in E. destruct (IH (s - 10)) as (d & Hd & Heq & Hstop & Hwhy).
      exists (S d). split_and!; [lia | lia | |].
      * destruct Hstop; [left; lia | right; lia].
      * intros [|k] Hk; [lia|]. specialize (Hwhy k). lia.
    + apply Z.ltb_ge in E. exists O. split_and!; [lia | lia | left; lia | intros; lia].
Qed.

Lemma initialTotal_split hand :
  initialTotal hand = othersTotal hand + 11 * Z.of_nat (aces hand).
Proof.
  induction hand as [|c hand IH]; [reflexivity|].
  rewrite othersTotal_cons, aces_cons. cbn [initialTotal foldr].
  fold (initialTotal hand). rewrite IH.
  destruct (isAce c) eqn:E; [|lia].
  assert (initialPoints c = 11) as ->; [|lia].
  unfold isAce in E. apply bool_decide_eq_true in E. unfold initialPoints. by rewrite E.
Qed.

(** C2: [calculateScore] is the sum of the cards with face cards 10 and
    every Ace 11, followed by the demotion loop: while the total exceeds 21
    and an Ace still counts 11, one Ace is demoted to 1. Each Ace counts
    once, as 11 or as 1: with [d] demoted aces the score is the points of
    the other cards plus 11 for each of the [aces - d] aces and 1 for each
    of the [d] demoted ones. [A, K] scores 21, [A, A] 12, [A, A, 9] 21. *)
Theorem C2_calculateScore :
  (∀ hand : list card,
     fold_left scoreStep hand (0, O) = (initialTotal hand, aces hand)
     ∧ calculateScore hand = demoteAces (initialTotal hand) (aces hand)
     ∧ ∃ d : nat, (d ≤ aces hand)%nat
         ∧ calculateScore hand = initialTotal hand - 10 * Z.of_nat d
         ∧ calculateScore hand
           = othersTotal hand + 11 * Z.of_nat (aces hand - d) + 1 * Z.of_nat d
         ∧ (calculateScore hand ≤ 21 ∨ d = aces hand)
         ∧ (∀ k : nat, (k < d)%nat → 21 < initialTotal hand - 10 * Z.of_nat k))
  ∧ (∀ s1 s2, calculateScore [Card s1 VA; Card s2 VK] = 21)
  ∧ (∀ s1 s2, calculateScore [Card s1 VA; Card s2 VA] = 12)
  ∧ (∀ s1 s2 s3, calculateScore [Card s1 VA; Card s2 VA; Card s3 V9] = 21).
Proof.
  split; [|repeat split; intros; reflexivity].
  intros hand. split; [|split].
  - rewrite fold_scoreStep. simpl. f_equal.
  - apply calculateScore_unfold.
  - rewrite calculateScore_unfold.
    destruct (demoteAces_spec (aces hand) (initialTotal hand))
      as (d & Hd & Heq & Hstop & Hwhy).
    exists d. repeat split; try assumption.
    rewrite Heq, initialTotal_split. lia.
Qed.

(** *** dealCard *)

Lemma dealCard_snoc (d : list card) (c : card) : dealCard (d ++ [c]) = (Some c, d).
Proof. unfold dealCard. by rewrite last_snoc, removelast_last. Qed.

(** C5, as stated, fails: on the empty deck [dealCard] returns, and what it
    returns is [undefined]; no error is raised. *)
Lemma C5_counterexample : dealCard [] = (None, []).
Proof. reflexivity. Qed.

(** C5, amended: drawing from a non-empty deck removes and returns its last
    card; drawing from an empty deck returns [undefined] and leaves the deck
    empty. Nothing is raised by [dealCard] itself: the callers push the
    result on a hand and the [TypeError] comes from [calculateScore], which
    no caller catches. *)
Theorem C5_dealCard (deck : list card) :
  (∀ d c, deck = d ++ [c] → dealCard deck = (Some c, d) ∧ draw (Some deck) = Some (c, d))
  ∧ (deck = [] → dealCard deck = (None, []) ∧ draw (Some deck) = None)
  ∧ (deck ≠ [] → ∃ d c, deck = d ++ [c]).
Proof.
  split; [|split].
  - intros d c ->. split; [apply dealCard_snoc|].
    unfold draw. cbn -[dealCard]. by rewrite dealCard_snoc.
  - intros ->. done.
  - intros Hne. destruct (exists_last Hne) as [d [c Heq]]. by exists d, c.
Qed.

Lemma C5_dealCard_witness :
  (dealCard [Sample.KS; Sample.H5] = (Some Sample.H5, [Sample.KS])
   ∧ draw (Some [Sample.KS; Sample.H5]) = Some (Sample.H5, [Sample.KS]))
  ∧ (dealCard [] = (None, []) ∧ draw (Some []) = None).
Proof.
  split.
  - apply (proj1 (C5_dealCard [Sample.KS; Sample.H5]) [Sample.KS] Sample.H5). reflexivity.
  - apply (proj1 (proj2 (C5_dealCard []))). reflexivity.
Defined.

End CardFacts.

(* ===================================================================== *)
(** ** The registry and the room objects *)
(* ===================================================================== *)

Module WorldFacts.

(** Projections of the state after the basic operations. *)
Ltac wcbn :=
  cbn [rooms heap pending nextTimer now emitted emit set_rooms set_heap
       set_pending set_now modRoom setTimer rearm fst snd
       mbind option_bind mret option_ret fmap option_fmap option_map].

Tactic Notation "wcbn" "in" hyp(H) :=
  cbn [rooms heap pending nextTimer now emitted emit set_rooms set_heap
       set_pending set_now modRoom setTimer rearm fst snd
       mbind option_bind mret option_ret fmap option_fmap option_map] in H.

(** Reading the room back after in-place updates of its object. *)
Ltac getroom Hreg Hheap :=
  unfold getRoom; wcbn; rewrite ?Hreg; wcbn;
  rewrite ?list_lookup_alter_eq, ?Hheap; wcbn.


Lemma getRoom_emit roomId o w : getRoom roomId (emit o w) = getRoom roomId w.
Proof. reflexivity. Qed.

Lemma getRoom_clearTimer roomId h w : getRoom roomId (clearTimer h w) = getRoom roomId w.
Proof. by destruct h. Qed.

Lemma getRoom_setTimer roomId delay c w :
  getRoom roomId (setTimer delay c w).2 = getRoom roomId w.
Proof. reflexivity. Qed.

Lemma getRoom_set_pending roomId x w : getRoom roomId (set_pending x w) = getRoom roomId w.
Proof. reflexivity. Qed.

Lemma getRoom_set_now roomId x w : getRoom roomId (set_now x w) = getRoom roomId w.
Proof. reflexivity. Qed.

Lemma getRoom_Some roomId w a r :
  getRoom roomId w = Some (a, r) ↔ rooms w !! roomId = Some a ∧ heap w !! a = Some r.
Proof.
  unfold getRoom. split.
  - intros H. destruct (rooms w !! roomId) as [a'|]; simpl in H; [|done].
    destruct (heap w !! a') as [r'|] eqn:E; simpl in H; [|done]. by simplify_eq.
  - intros [-> H]. simpl. by rewrite H.
Qed.

Lemma getRoom_modRoom roomId b f w :
  getRoom roomId (modRoom b f w)
  = (λ ar, (ar.1, if decide (ar.1 = b) then f ar.2 else ar.2)) <$> getRoom roomId w.
Proof.
  unfold getRoom, modRoom. simpl.
  destruct (rooms w !! roomId) as [a|]; simpl; [|done].
  destruct (decide (a = b)) as [->|Hne].
  - rewrite list_lookup_alter_eq. destruct (heap w !! b); simpl; [|done].
    by rewrite decide_True.
  - rewrite list_lookup_alter_ne by done. destruct (heap w !! a); simpl; [|done].
    by rewrite decide_False.
Qed.

Lemma getRoom_modRoom_same roomId a r f w :
  getRoom roomId w = Some (a, r) → getRoom roomId (modRoom a f w) = Some (a, f r).
Proof. intros H. rewrite getRoom_modRoom, H. simpl. by rewrite decide_True. Qed.

Lemma getRoom_clearAllTimers roomId roomId' w :
  getRoom roomId (clearAllTimers roomId' w) = getRoom roomId w.
Proof.
  unfold clearAllTimers. destruct (getRoom roomId' w) as [[a r]|]; [|done].
  induction (Timers.handles (Room.timers r)) as [|h hs IH]; [done|].
  simpl. by rewrite getRoom_clearTimer.
Qed.

(** [updateGameState] only adds to the log. *)
Lemma updateGameState_Some roomId w w' :
  updateGameState roomId w = Some w' →
  rooms w' = rooms w ∧ heap w' = heap w ∧ pending w' = pending w
  ∧ nextTimer w' = nextTimer w ∧ now w' = now w
  ∧ ∃ l, emitted w' = emitted w ++ l.
Proof.
  unfold updateGameState. destruct (getRoom roomId w) as [[a r]|].
  - destruct (stateForClient r); simpl; [|done]. intros [= <-]. simpl.
    split_and!; try done. by eexists [_].
  - intros [= <-]. split_and!; try done. exists []. by rewrite app_nil_r.
Qed.


(** Outside the action phase the projection cannot fail. *)
Lemma stateForClient_not_action r :
  Room.gameState r ≠ G_actionPhase →
  stateForClient r
  = Some (View.mk (Room.players r) (Room.gameState r) (Room.round r)
                  (Shown <$> Dealer.hand (Room.dealer r)) (Dealer.score (Room.dealer r))).
Proof. intros H. unfold stateForClient. by rewrite decide_False. Qed.

Lemma stateForClient_action r c rest :
  Room.gameState r = G_actionPhase → Dealer.hand (Room.dealer r) = c :: rest →
  stateForClient r
  = Some (View.mk (Room.players r) (Room.gameState r) (Room.round r)
                  [Shown c; HiddenCard] (calculateScore [c])).
Proof. intros H1 H2. unfold stateForClient. rewrite decide_True by done. by rewrite H2. Qed.

(** *** The players object *)

Lemma getPlayer_forPlayers id f ps :
  getPlayer id (forPlayers f ps) = f <$> getPlayer id ps.
Proof.
  induction ps as [|[k p] ps IH]; [done|]. simpl.
  destruct (decide (k = id)); [done | apply IH].
Qed.

Lemma getPlayer_setPlayer id id' p ps :
  getPlayer id' (setPlayer id p ps)
  = if decide (id = id') then Some p else getPlayer id' ps.
Proof.
  induction ps as [|[k q] ps IH]; simpl.
  - destruct (decide (id = id')); [done|]. done.
  - destruct (decide (k = id)) as [->|Hk]; simpl.
    + destruct (decide (id = id')); [done | done].
    + destruct (decide (k = id')) as [->|Hk'].
      * by rewrite decide_False by done.
      * apply IH.
Qed.

Lemma getPlayer_deletePlayer id id' ps :
  getPlayer id' (deletePlayer id ps)
  = if decide (id = id') then None else getPlayer id' ps.
Proof.
  induction ps as [|[k q] ps IH]; simpl.
  - by destruct (decide (id = id')).
  - destruct (decide (k = id)) as [->|Hk]; simpl.
    + rewrite IH. destruct (decide (id = id')); [done | done].
    + destruct (decide (k = id')) as [->|Hk'].
      * by rewrite decide_False by done.
      * apply IH.
Qed.

Lemma getPlayer_lookup id p ps :
  getPlayer id ps = Some p → ∃ i, ps !! i = Some (id, p).
Proof.
  induction ps as [|[k q] ps IH]; simpl; [done|].
  destruct (decide (k = id)) as [->|Hk].
  - intros [= ->]. by exists O.
  - intros (i & Hi)%IH. by exists (S i).
Qed.

Lemma forPlayers_lookup f ps i :
  forPlayers f ps !! i = (λ kv, (kv.1, f kv.2)) <$> ps !! i.
Proof. unfold forPlayers. apply list_lookup_fmap. Qed.

Lemma forPlayers_keys f ps : (forPlayers f ps).*1 = ps.*1.
Proof. unfold forPlayers. induction ps as [|[k p] ps IH]; simpl; [done | by f_equal]. Qed.

(** *** What leaves the room objects alone *)

Lemma heap_clearTimer h w : heap (clearTimer h w) = heap w.
Proof. by destruct h. Qed.

Lemma heap_clearAllTimers roomId w : heap (clearAllTimers roomId w) = heap w.
Proof.
  unfold clearAllTimers. destruct (getRoom roomId w) as [[a r]|]; [|done].
  induction (Timers.handles (Room.timers r)) as [|h hs IH]; [done|].
  cbn [foldr]. by rewrite heap_clearTimer.
Qed.

Lemma heap_updateGameState roomId w w' :
  updateGameState roomId w = Some w' → heap w' = heap w.
Proof. by intros (_ & -> & _)%updateGameState_Some. Qed.

Lemma heap_checkAndEndActionPhase roomId w :
  heap (checkAndEndActionPhase roomId w) = heap w.
Proof.
  unfold checkAndEndActionPhase. repeat case_match; try done.
  cbn. apply heap_clearTimer.
Qed.

Lemma heap_finalRankingTimeout env roomId w :
  heap (finalRankingTimeout env roomId w) = heap w.
Proof.
  unfold finalRankingTimeout. destruct (getRoom roomId w) as [[a r]|]; [|done].
  cbn. destruct (Env.socketsInRoom env) as [ss|]; [|done].
  generalize w. induction ss as [|x ss IH]; intros w0; [done|].
  cbn. rewrite IH. unfold sendRanking. by repeat case_match.
Qed.

Lemma getRoom_heap roomId w a r : getRoom roomId w = Some (a, r) → heap w !! a = Some r.
Proof. by intros [_ H]%getRoom_Some. Qed.

End WorldFacts.

(* ===================================================================== *)
(** ** The result computation *)
(* ===================================================================== *)

Module ResultFacts.
Import WorldFacts.

Lemma settle_ruleOutcome dealerScore p : ruleOutcome dealerScore p (settle dealerScore p).
Proof.
  unfold ruleOutcome, settle.
  destruct (0 <? Player.bet p) eqn:Hbet;
    [apply Z.ltb_lt in Hbet | apply Z.ltb_ge in Hbet].
  2: { split_and!; try done. intros; lia. }
  destruct (decide (Player.status p = S_bust)) as [Hbust|Hbust];
  destruct (21 <? dealerScore) eqn:H21;
    [apply Z.ltb_lt in H21 | apply Z.ltb_ge in H21
    |apply Z.ltb_lt in H21 | apply Z.ltb_ge in H21];
  destruct (dealerScore <? Player.score p) eqn:Hgt;
    try (apply Z.ltb_lt in Hgt); try (apply Z.ltb_ge in Hgt);
  destruct (Player.score p <? dealerScore) eqn:Hlt;
    try (apply Z.ltb_lt in Hlt); try (apply Z.ltb_ge in Hlt);
  cbn [orb]; cbn [Player.set_chips Player.set_result Player.chips];
  try (destruct (_ <? 0));
  repeat match goal with
         | |- _ ∧ _ => split
         | |- _ → _ => intros ?
         end;
  simpl; try done; try lia; try (destruct_or?; lia).
Qed.

(** [determineWinner] on an existing room: the state it leaves. *)
Lemma determineWinner_room roomId w a r :
  getRoom roomId w = Some (a, r) →
  ∃ w', determineWinner roomId w = Some w'
    ∧ getRoom roomId w'
      = Some (a, Room.mk (forPlayers (settle (Dealer.score (Room.dealer r))) (Room.players r))
                         G_result (Room.round r) (Room.deck r) (Room.dealer r)
                         (if MAX_ROUNDS <=? Room.round r then Room.timers r
                          else Timers.set_countdownTimer (nextTimer w) (Room.timers r))).
Proof.
  intros Hr. unfold determineWinner. rewrite Hr.
  apply getRoom_Some in Hr as [Hreg Hheap].
  unfold updateGameState. getroom Hreg Hheap.
  rewrite stateForClient_not_action by done. wcbn.
  destruct (MAX_ROUNDS <=? Room.round r) eqn:Hround.
  - eexists. split; [done|]. getroom Hreg Hheap. done.
  - eexists. split; [done|]. getroom Hreg Hheap. done.
Qed.

(** C1: for every player of the room, [determineWinner] applies the
    outcome rules against the dealer's score: a bust player with a bet
    loses the bet whatever the dealer has; otherwise the player wins the
    bet if the dealer is over 21 or the player's score is higher, loses it
    if the player's score is lower, and keeps the chips on equal scores. A
    player whose bet is 0 is left as it was: no result entry, no chip
    change. *)
Theorem C1_determineWinner roomId w a r :
  getRoom roomId w = Some (a, r) →
  ∃ w' r', determineWinner roomId w = Some w'
    ∧ getRoom roomId w' = Some (a, r')
    ∧ Room.gameState r' = G_result
    ∧ (Room.players r').*1 = (Room.players r).*1
    ∧ ∀ i id p, Room.players r !! i = Some (id, p) →
        ∃ p', Room.players r' !! i = Some (id, p')
              ∧ ruleOutcome (Dealer.score (Room.dealer r)) p p'.
Proof.
  intros Hr. destruct (determineWinner_room roomId w a r Hr) as (w' & Hw' & Hr').
  eexists w', _. split_and!; [done | exact Hr' | done | apply forPlayers_keys |].
  intros i id p Hi. cbn [Room.players]. rewrite forPlayers_lookup, Hi. simpl.
  eexists. split; [done|]. apply settle_ruleOutcome.
Qed.

Lemma C1_determineWinner_witness :
  getRoom "r" Sample.w_dealer = Some (O, Sample.roomOf Sample.w_dealer)
  ∧ ∃ w' r', determineWinner "r" Sample.w_dealer = Some w'
    ∧ getRoom "r" w' = Some (O, r')
    ∧ Room.gameState r' = G_result
    ∧ (Room.players r').*1 = (Room.players (Sample.roomOf Sample.w_dealer)).*1
    ∧ ∀ i id p, Room.players (Sample.roomOf Sample.w_dealer) !! i = Some (id, p) →
        ∃ p', Room.players r' !! i = Some (id, p')
              ∧ ruleOutcome (Dealer.score (Room.dealer (Sample.roomOf Sample.w_dealer))) p p'.
Proof.
  split; [vm_compute; reflexivity|].
  apply (C1_determineWinner "r" Sample.w_dealer O (Sample.roomOf Sample.w_dealer)).
  vm_compute. reflexivity.
Defined.

Example determineWinner_sample :
  (λ kv, (kv.1, Player.chips kv.2, Player.result kv.2))
    <$> Room.players (Sample.roomOf Sample.w_result)
  = [("A", 900, Some R_lose); ("B", 900, Some R_lose)].
Proof. vm_compute. reflexivity. Qed.

End ResultFacts.

(* ===================================================================== *)
(** ** The projection sent to the clients *)
(* ===================================================================== *)

Module ProjectionFacts.
Import WorldFacts.

(** C4, as stated, fails: in the action phase the dealer's first card is
    the one card that is sent; what is withheld is the rest of the hand,
    replaced by one hidden card, and the score sent is the first card's.
    With the dealer holding K♠ then 5♥ the clients get K♠, a hidden card
    and the score 10. *)
Lemma C4_counterexample :
  stateForClient Sample.room_K5
  = Some (View.mk (Room.players Sample.room_K5) G_actionPhase 1
                  [Shown Sample.KS; HiddenCard] 10)
  ∧ ¬ (∀ r v c,
         Room.gameState r = G_actionPhase →
         head (Dealer.hand (Room.dealer r)) = Some c →
         stateForClient r = Some v →
         Shown c ∉ View.dealer_hand v).
Proof.
  split; [reflexivity|].
  intros H.
  apply (H Sample.room_K5 _ Sample.KS eq_refl eq_refl eq_refl).
  apply list_elem_of_here.
Qed.

(** C4, amended: [updateGameState] sends the room one message that holds
    the player map, the phase and the round. While the phase is action the
    dealer's hand in it is the first card followed by one hidden card, and
    the dealer's score is the score of that first card alone; in every
    other phase it holds the dealer's whole hand and stored score. (In the
    action phase with no dealer card the projection raises.) *)
Theorem C4_updateGameState roomId w a r :
  getRoom roomId w = Some (a, r) →
  (Room.gameState r = G_actionPhase →
   ∀ c rest, Dealer.hand (Room.dealer r) = c :: rest →
     updateGameState roomId w
     = Some (emit (ToRoom roomId (M_gameStateUpdate
               (View.mk (Room.players r) G_actionPhase (Room.round r)
                        [Shown c; HiddenCard] (initialPoints c)))) w))
  ∧ (Room.gameState r ≠ G_actionPhase →
     updateGameState roomId w
     = Some (emit (ToRoom roomId (M_gameStateUpdate
               (View.mk (Room.players r) (Room.gameState r) (Room.round r)
                        (Shown <$> Dealer.hand (Room.dealer r))
                        (Dealer.score (Room.dealer r))))) w))
  ∧ (Room.gameState r = G_actionPhase → Dealer.hand (Room.dealer r) = [] →
     updateGameState roomId w = None).
Proof.
  intros Hr. unfold updateGameState. rewrite Hr. split_and!.
  - intros Hgs c rest Hhand.
    rewrite (stateForClient_action r c rest Hgs Hhand). rewrite Hgs. simpl.
    do 5 f_equal. destruct c as [s v]. by destruct v.
  - intros Hgs. by rewrite stateForClient_not_action.
  - intros Hgs Hhand. unfold stateForClient. rewrite decide_True by done. by rewrite Hhand.
Qed.

Lemma C4_updateGameState_witness :
  updateGameState "r" Sample.w_action
  = Some (emit (ToRoom "r" (M_gameStateUpdate
            (View.mk (Room.players (Sample.roomOf Sample.w_action)) G_actionPhase 1
                     [Shown Sample.KS; HiddenCard] 10))) Sample.w_action)
  ∧ updateGameState "r" Sample.w_result
    = Some (emit (ToRoom "r" (M_gameStateUpdate
              (View.mk (Room.players (Sample.roomOf Sample.w_result)) G_result 1
                       [Shown Sample.KS; Shown Sample.QS] 20))) Sample.w_result).
Proof.
  split.
  - refine (proj1 (C4_updateGameState "r" Sample.w_action O
                     (Sample.roomOf Sample.w_action) _) _ Sample.KS [Sample.QS] _);
      vm_compute; reflexivity.
  - refine (proj1 (proj2 (C4_updateGameState "r" Sample.w_result O
                     (Sample.roomOf Sample.w_result) _)) _);
      vm_compute; [reflexivity | discriminate].
Defined.

End ProjectionFacts.

(* ===================================================================== *)
(** ** Timers *)
(* ===================================================================== *)

Module TimerFacts.
Import WorldFacts.

Lemma clearTimer_fields h w :
  rooms (clearTimer h w) = rooms w ∧ heap (clearTimer h w) = heap w
  ∧ nextTimer (clearTimer h w) = nextTimer w ∧ now (clearTimer h w) = now w
  ∧ emitted (clearTimer h w) = emitted w.
Proof. by destruct h. Qed.

Lemma pending_clearTimer h w k :
  pending (clearTimer h w) !! k = if decide (h = Some k) then None else pending w !! k.
Proof.
  destruct h as [h|]; simpl.
  - destruct (decide (Some h = Some k)) as [[= ->]|Hne].
    + apply lookup_delete_eq.
    + apply lookup_delete_ne. congruence.
  - done.
Qed.

Lemma clearTimers_fields hs w :
  rooms (foldr clearTimer w hs) = rooms w ∧ heap (foldr clearTimer w hs) = heap w
  ∧ nextTimer (foldr clearTimer w hs) = nextTimer w ∧ now (foldr clearTimer w hs) = now w
  ∧ emitted (foldr clearTimer w hs) = emitted w.
Proof.
  induction hs as [|h hs IH]; [done|]. simpl.
  destruct (clearTimer_fields h (foldr clearTimer w hs)) as (-> & -> & -> & -> & ->).
  exact IH.
Qed.

Lemma pending_clearTimers hs w k :
  pending (foldr clearTimer w hs) !! k
  = if decide (Some k ∈ hs) then None else pending w !! k.
Proof.
  induction hs as [|h hs IH]; cbn [foldr].
  - destruct (decide (Some k ∈ [])) as [H|H]; [by apply elem_of_nil in H | done].
  - rewrite pending_clearTimer, IH.
    assert (Some k ∈ h :: hs ↔ h = Some k ∨ Some k ∈ hs) as Hcons
      by (rewrite elem_of_cons; intuition congruence).
    destruct (decide (h = Some k)), (decide (Some k ∈ hs)),
      (decide (Some k ∈ h :: hs)); tauto.
Qed.

Lemma clearAllTimers_fields roomId w :
  rooms (clearAllTimers roomId w) = rooms w ∧ heap (clearAllTimers roomId w) = heap w
  ∧ nextTimer (clearAllTimers roomId w) = nextTimer w
  ∧ now (clearAllTimers roomId w) = now w
  ∧ emitted (clearAllTimers roomId w) = emitted w.
Proof.
  unfold clearAllTimers. destruct (getRoom roomId w) as [[a r]|]; [|done].
  apply clearTimers_fields.
Qed.

Lemma pending_clearAllTimers roomId w a r k :
  getRoom roomId w = Some (a, r) →
  pending (clearAllTimers roomId w) !! k
  = if decide (Some k ∈ Timers.handles (Room.timers r)) then None else pending w !! k.
Proof. intros H. unfold clearAllTimers. rewrite H. apply pending_clearTimers. Qed.

End TimerFacts.

(* ===================================================================== *)
(** ** Dealing *)
(* ===================================================================== *)

Module DealFacts.
Import WorldFacts TimerFacts.

Lemma draw_nonempty d :
  d ≠ [] → ∃ c d', draw (Some d) = Some (c, d') ∧ length d = S (length d').
Proof.
  intros Hne. destruct (exists_last Hne) as [d' [c ->]].
  exists c, d'. unfold draw. cbn -[dealCard]. rewrite CardFacts.dealCard_snoc.
  split; [done|]. rewrite length_app. simpl. lia.
Qed.

Lemma draw_Some deck c d' :
  draw deck = Some (c, d') → deck = Some (d' ++ [c]).
Proof.
  unfold draw. destruct deck as [d|]; [|done]. cbn -[dealCard].
  destruct d as [|x d] using rev_ind; [done|].
  rewrite CardFacts.dealCard_snoc. by intros [= -> ->].
Qed.

(** With two cards per player in the deck the loop of [dealCards] goes
    through. *)
Lemma dealPlayers_enough ps : ∀ d,
  (2 * length ps ≤ length d)%nat →
  ∃ ps' d', dealPlayers ps (Some d) = Some (ps', Some d')
    ∧ (length d ≤ length d' + 2 * length ps)%nat.
Proof.
  induction ps as [|[id p] ps IH]; intros d Hlen.
  - exists [], d. split; [done | simpl; lia].
  - cbn [dealPlayers]. cbn [length] in Hlen.
    destruct ((0 <? Player.bet p) && negb (Player.isEliminated p)).
    + destruct (draw_nonempty d) as (c1 & d1 & -> & Hl1);
        [destruct d; simpl in *; [lia|done]|].
      cbn [mbind option_bind].
      destruct (draw_nonempty d1) as (c2 & d2 & -> & Hl2); [destruct d1; simpl in *; [lia|done]|].
      cbn [mbind option_bind].
      destruct (IH d2) as (ps' & d' & -> & Hl'); [lia|].
      cbn [mbind option_bind]. eexists _, d'. split; [done|]. cbn [length]. lia.
    + destruct (IH d) as (ps' & d' & -> & Hl'); [lia|].
      cbn [mbind option_bind]. eexists _, d'. split; [done|]. cbn [length]. lia.
Qed.

Lemma dealPlayers_dealt ps : ∀ deck ps' deck',
  dealPlayers ps deck = Some (ps', deck') →
  Forall2 (λ kv kv', kv.1 = kv'.1 ∧ dealtPlayer kv.2 kv'.2) ps ps'.
Proof.
  induction ps as [|[id p] ps IH]; intros deck ps' deck'.
  - intros [= <- <-]. constructor.
  - cbn [dealPlayers].
    destruct (0 <? Player.bet p) eqn:Hbet;
      [apply Z.ltb_lt in Hbet | apply Z.ltb_ge in Hbet];
    destruct (Player.isEliminated p) eqn:Helim; cbn [andb negb].
    2: { destruct (draw deck) as [[c1 d1]|]; [|done]. cbn [mbind option_bind].
         destruct (draw (Some d1)) as [[c2 d2]|]; [|done]. cbn [mbind option_bind].
         destruct (dealPlayers ps (Some d2)) as [[ps'' dk]|] eqn:E; [|done].
         cbn [mbind option_bind]. intros [= <- <-].
         constructor; [|exact (IH _ _ _ E)]. split; [done|].
         unfold dealtPlayer; cbn [fst snd].
         split_and!; [intros; by exists c1, c2 | intros; lia | congruence]. }
    all: destruct (dealPlayers ps deck) as [[ps'' dk]|] eqn:E; [|done];
      cbn [mbind option_bind]; intros [= <- <-];
      (constructor; [|exact (IH _ _ _ E)]); (split; [done|]);
      unfold dealtPlayer; cbn [fst snd]; split_and!; solve [ done | intros; lia | congruence ].
Qed.

(** [dealCards] on a room in the betting phase, when no draw fails. *)
Lemma dealCards_Some roomId w a r w' :
  getRoom roomId w = Some (a, r) →
  Room.gameState r = G_betting →
  dealCards roomId w = Some w' →
  ∃ ps d' c1 c2 first,
    Forall2 (λ kv kv', kv.1 = kv'.1 ∧ dealtPlayer kv.2 kv'.2) (Room.players r) ps
    ∧ head (Dealer.hand (Room.dealer r) ++ [c1; c2]) = Some first
    ∧ getRoom roomId w'
      = Some (a, Room.mk ps G_actionPhase (Room.round r) (Some d')
                         (Dealer.mk (Dealer.hand (Room.dealer r) ++ [c1; c2])
                                    (calculateScore (Dealer.hand (Room.dealer r) ++ [c1; c2])))
                         (Timers.set_actionTimer (nextTimer w) (Room.timers r)))
    ∧ rooms w' = rooms w
    ∧ (∀ b, b ≠ a → heap w' !! b = heap w !! b)
    ∧ pending w' = <[nextTimer w := (now w + 1000, T_actionTimer roomId a TURN_TIME)]>
                     (pending (clearAllTimers roomId w))
    ∧ nextTimer w' = S (nextTimer w)
    ∧ now w' = now w
    ∧ emitted w'
      = emitted w ++ [ToRoom roomId (M_gameStateUpdate
                        (View.mk ps G_actionPhase (Room.round r)
                                 [Shown first; HiddenCard] (calculateScore [first])))].
Proof.
  intros Hr Hgs. unfold dealCards. rewrite Hr, decide_True by done.
  destruct (dealPlayers (Room.players r) (Room.deck r)) as [[ps d0]|] eqn:Hps; [|done].
  cbn [mbind option_bind].
  destruct (draw d0) as [[c1 d1]|]; [|done]. cbn [mbind option_bind].
  destruct (draw (Some d1)) as [[c2 d2]|]; [|done]. cbn [mbind option_bind].
  destruct (clearAllTimers_fields roomId w) as (Hc1 & Hc2 & Hc3 & Hc4 & Hc5).
  apply getRoom_Some in Hr as [Hreg Hheap].
  assert (∃ first, head (Dealer.hand (Room.dealer r) ++ [c1; c2]) = Some first) as [first Hfirst].
  { destruct (Dealer.hand (Room.dealer r)); simpl; eauto. }
  unfold startActionPhase. getroom Hreg Hheap.
  rewrite Hc1, Hc2. getroom Hreg Hheap.
  unfold updateGameState. getroom Hreg Hheap. rewrite Hc1. getroom Hreg Hheap.
  rewrite Hc2. getroom Hreg Hheap.
  unfold stateForClient. rewrite decide_True by done.
  cbn [Room.dealer Room.set_gameState Room.set_dealer Dealer.hand].
  rewrite Hfirst. wcbn. intros [= <-].
  exists ps, d2, c1, c2, first.
  split; [by eapply dealPlayers_dealt|]. split; [done|].
  split.
  { getroom Hreg Hheap. rewrite Hc1. getroom Hreg Hheap. rewrite Hc2.
    getroom Hreg Hheap. rewrite Hc3. done. }
  wcbn. rewrite Hc1, Hc2, Hc3, Hc4, Hc5.
  split_and!; try done.
  intros b Hb. by rewrite !list_lookup_alter_ne by done.
Qed.

(** With two cards for every player and for the dealer no draw fails. *)
Lemma dealCards_enough roomId w a r d :
  getRoom roomId w = Some (a, r) →
  Room.gameState r = G_betting →
  Room.deck r = Some d →
  (2 * length (Room.players r) + 2 ≤ length d)%nat →
  ∃ w', dealCards roomId w = Some w'.
Proof.
  intros Hr Hgs Hdeck Hlen. unfold dealCards. rewrite Hr, decide_True by done.
  rewrite Hdeck.
  destruct (dealPlayers_enough (Room.players r) d) as (ps & d0 & Hps & Hl0); [lia|].
  rewrite Hps. cbn [mbind option_bind].
  destruct (draw_nonempty d0) as (c1 & d1 & -> & Hl1); [destruct d0; simpl in *; [lia|done]|].
  cbn [mbind option_bind].
  destruct (draw_nonempty d1) as (c2 & d2 & -> & Hl2); [destruct d1; simpl in *; [lia|done]|].
  cbn [mbind option_bind].
  destruct (clearAllTimers_fields roomId w) as (Hc1 & Hc2 & Hc3 & Hc4 & Hc5).
  apply getRoom_Some in Hr as [Hreg Hheap].
  unfold startActionPhase. getroom Hreg Hheap.
  rewrite Hc1, Hc2. getroom Hreg Hheap.
  unfold updateGameState. getroom Hreg Hheap. rewrite Hc1. getroom Hreg Hheap.
  rewrite Hc2. getroom Hreg Hheap.
  unfold stateForClient. rewrite decide_True by done.
  cbn [Room.dealer Room.set_gameState Room.set_dealer Dealer.hand].
  destruct (Dealer.hand (Room.dealer r)); cbn; eauto.
Qed.


End DealFacts.

(* ===================================================================== *)
(** ** The placeBet handler *)
(* ===================================================================== *)

Module BetFacts.
Import WorldFacts TimerFacts DealFacts.

Lemma allPlayersBetted_everyone ps : allPlayersBetted ps = true ↔ everyoneBetted ps.
Proof.
  unfold allPlayersBetted, everyoneBetted. rewrite forallb_forall. split.
  - intros H i id q Hi Helim.
    specialize (H (id, q)). rewrite <- list_elem_of_In in H.
    specialize (H (list_elem_of_lookup_2 _ _ _ Hi)). simpl in H.
    rewrite Helim, orb_false_r in H. by apply bool_decide_eq_true in H.
  - intros H [id q] Hin. rewrite <- list_elem_of_In in Hin.
    apply list_elem_of_lookup_1 in Hin as [i Hi]. simpl.
    destruct (Player.isEliminated q) eqn:Helim; [apply orb_true_r|].
    rewrite orb_false_r. apply bool_decide_eq_true. by eapply H.
Qed.

Lemma length_setPlayer id p q ps :
  getPlayer id ps = Some q → length (setPlayer id p ps) = length ps.
Proof.
  induction ps as [|[k x] ps IH]; simpl; [done|].
  destruct (decide (k = id)); simpl; [done|]. intros H. by rewrite IH.
Qed.


Lemma on_placeBet_accept s roomId amount w a r p n :
  getRoom roomId w = Some (a, r) →
  Room.gameState r = G_betting →
  getPlayer (Socket.id s) (Room.players r) = Some p →
  Player.isEliminated p = false →
  parseInt amount = Some n → 0 < n →
  on_placeBet s roomId amount w
  = let w1 := modRoom a (Room.set_players (recorded s n p r)) w in
    if allPlayersBetted (recorded s n p r) then
      dealCards roomId (clearTimer (Timers.betCountdown (Room.timers r))
                          (clearTimer (Timers.betTimeout (Room.timers r)) w1))
    else updateGameState roomId w1.
Proof.
  intros Hr Hgs Hp Helim Hn Hpos. unfold on_placeBet.
  rewrite Hr, Hp, decide_True, Helim, Hn by done.
  apply Z.ltb_lt in Hpos. by rewrite Hpos.
Qed.





(** C7: an accepted bet is followed by the check that every player who is
    not eliminated has status betted. When the check holds the handler
    itself cancels the bet countdown and the bet deadline, deals (two cards
    and status playing for each player with a bet, status stand for the
    others, two cards for the dealer) and puts the room in the action
    phase: the deadline is not waited for. When the check does not hold the
    room stays in betting and no timer is touched. *)
Theorem C7_allBetted s roomId amount w a r p n :
  getRoom roomId w = Some (a, r) →
  Room.gameState r = G_betting →
  getPlayer (Socket.id s) (Room.players r) = Some p →
  Player.isEliminated p = false →
  parseInt amount = Some n → 0 < n →
  (everyoneBetted (recorded s n p r) →
   ∀ d, Room.deck r = Some d →
     (2 * length (Room.players r) + 2 ≤ length d)%nat →
     handlesIssued r w →
     ∃ w' r', on_placeBet s roomId amount w = Some w'
       ∧ getRoom roomId w' = Some (a, r')
       ∧ Room.gameState r' = G_actionPhase
       ∧ (∀ h, Timers.betCountdown (Room.timers r) = Some h
               ∨ Timers.betTimeout (Room.timers r) = Some h →
               pending w' !! h = None)
       ∧ pending w' !! nextTimer w = Some (now w + 1000, T_actionTimer roomId a TURN_TIME)
       ∧ Forall2 (λ kv kv', kv.1 = kv'.1 ∧ dealtPlayer kv.2 kv'.2)
                 (recorded s n p r) (Room.players r')
       ∧ length (Dealer.hand (Room.dealer r'))
         = (2 + length (Dealer.hand (Room.dealer r)))%nat)
  ∧ (¬ everyoneBetted (recorded s n p r) →
     ∃ w', on_placeBet s roomId amount w = Some w'
       ∧ getRoom roomId w' = Some (a, Room.set_players (recorded s n p r) r)
       ∧ pending w' = pending w).
Proof.
  intros Hr Hgs Hp Helim Hn Hpos.
  pose proof (getRoom_modRoom_same roomId a r (Room.set_players (recorded s n p r)) w Hr) as Hr1.
  rewrite (on_placeBet_accept s roomId amount w a r p n) by done. cbn zeta.
  split.
  - intros Hall d Hdeck Hlen Hissued.
    apply allPlayersBetted_everyone in Hall. rewrite Hall.
    set (w2 := clearTimer _ (clearTimer _ _)).
    assert (getRoom roomId w2 = Some (a, Room.set_players (recorded s n p r) r)) as Hr2
      by (unfold w2; by rewrite !getRoom_clearTimer).
    destruct (dealCards_enough roomId w2 a _ d Hr2) as [w' Hw']; [done | done | |].
    { cbn [Room.players Room.set_players]. unfold recorded.
      by erewrite length_setPlayer. }
    exists w'.
    destruct (dealCards_Some roomId w2 a _ w' Hr2 Hgs Hw')
      as (ps & d' & c1 & c2 & first & HF & _ & Hr' & _ & _ & Hpend & _ & _ & _).
    assert (nextTimer w2 = nextTimer w) as Hnext.
    { unfold w2.
      by destruct (clearTimer_fields (Timers.betCountdown (Room.timers r))
            (clearTimer (Timers.betTimeout (Room.timers r))
               (modRoom a (Room.set_players (recorded s n p r)) w))) as (_ & _ & -> & _ & _),
         (clearTimer_fields (Timers.betTimeout (Room.timers r))
               (modRoom a (Room.set_players (recorded s n p r)) w)) as (_ & _ & -> & _ & _). }
    assert (now w2 = now w) as Hnow.
    { unfold w2.
      by destruct (clearTimer_fields (Timers.betCountdown (Room.timers r))
            (clearTimer (Timers.betTimeout (Room.timers r))
               (modRoom a (Room.set_players (recorded s n p r)) w))) as (_ & _ & _ & -> & _),
         (clearTimer_fields (Timers.betTimeout (Room.timers r))
               (modRoom a (Room.set_players (recorded s n p r)) w)) as (_ & _ & _ & -> & _). }
    eexists. split; [done|]. split; [exact Hr'|]. split; [done|].
    rewrite Hpend, Hnext, Hnow. split_and!.
    + intros h Hh.
      assert (Some h ∈ Timers.handles (Room.timers r)) as Hin.
      { unfold Timers.handles. destruct Hh as [<-|<-]; set_solver. }
      rewrite lookup_insert_ne by (specialize (Hissued h Hin); lia).
      rewrite (pending_clearAllTimers roomId w2 a _ h Hr2).
      by rewrite decide_True.
    + apply lookup_insert_eq.
    + exact HF.
    + cbn [Room.dealer Dealer.hand]. rewrite length_app. simpl. lia.
  - intros Hnot.
    destruct (allPlayersBetted (recorded s n p r)) eqn:Hall;
      [by apply allPlayersBetted_everyone in Hall|].
    unfold updateGameState. rewrite Hr1.
    rewrite stateForClient_not_action by (cbn; rewrite Hgs; done).
    wcbn. eexists. split; [done|]. by rewrite getRoom_emit.
Qed.

Lemma C7_allBetted_witness :
  ∃ w' r', on_placeBet Sample.sB "r" "100" Sample.w_oneBet = Some w'
    ∧ getRoom "r" w' = Some (O, r')
    ∧ Room.gameState r' = G_actionPhase
    ∧ (∀ h, Timers.betCountdown (Room.timers (Sample.roomOf Sample.w_oneBet)) = Some h
            ∨ Timers.betTimeout (Room.timers (Sample.roomOf Sample.w_oneBet)) = Some h →
            pending w' !! h = None)
    ∧ pending w' !! nextTimer Sample.w_oneBet
      = Some (now Sample.w_oneBet + 1000, T_actionTimer "r" O TURN_TIME)
    ∧ Forall2 (λ kv kv', kv.1 = kv'.1 ∧ dealtPlayer kv.2 kv'.2)
        (recorded Sample.sB 100
           (Player.mk "bob" 1000 0 [] 0 S_betting false (Some R_empty))
           (Sample.roomOf Sample.w_oneBet))
        (Room.players r')
    ∧ length (Dealer.hand (Room.dealer r'))
      = (2 + length (Dealer.hand (Room.dealer (Sample.roomOf Sample.w_oneBet))))%nat.
Proof.
  refine (proj1 (C7_allBetted Sample.sB "r" "100" Sample.w_oneBet O
                   (Sample.roomOf Sample.w_oneBet)
                   (Player.mk "bob" 1000 0 [] 0 S_betting false (Some R_empty))
                   100 _ _ _ _ _ _) _ Sample.deck1 _ _ _);
    try solve [vm_compute; reflexivity | lia].
  - apply allPlayersBetted_everyone. vm_compute. reflexivity.
  - vm_compute. lia.
  - intros h Hh. vm_compute in Hh. vm_compute.
    repeat (apply elem_of_cons in Hh as [Hh|Hh]; [try discriminate; injection Hh as ->; lia|]).
    by apply elem_of_nil in Hh.
Defined.

End BetFacts.

(* ===================================================================== *)
(** ** The bet deadline *)
(* ===================================================================== *)

Module DeadlineFacts.
Import WorldFacts TimerFacts DealFacts BetFacts.

(** The deadline callback outside the betting phase, or without the room:
    nothing happens (the timeout itself is spent). *)
Lemma betTimeout_stale env h w due roomId room :
  pending w !! h = Some (due, T_betTimeout roomId room) →
  (getRoom roomId w = None
   ∨ ∃ a r, getRoom roomId w = Some (a, r) ∧ Room.gameState r ≠ G_betting) →
  fireTimer env h w = Some (clearTimer (Some h) w).
Proof.
  intros Hh Hstale. unfold fireTimer. rewrite Hh.
  rewrite getRoom_clearTimer.
  destruct Hstale as [->|(a & r & -> & Hgs)]; [done|].
  by rewrite decide_False.
Qed.

(** The deadline callback in the betting phase of the room it was armed
    for: the players still betting get bet 0 and status betted, and the
    cards are dealt. *)
Lemma betTimeout_fires env h w due roomId a r d :
  pending w !! h = Some (due, T_betTimeout roomId a) →
  getRoom roomId w = Some (a, r) →
  Room.gameState r = G_betting →
  Room.deck r = Some d →
  (2 * length (Room.players r) + 2 ≤ length d)%nat →
  ∃ w' r', fireTimer env h w = Some w'
    ∧ getRoom roomId w' = Some (a, r')
    ∧ Room.gameState r' = G_actionPhase
    ∧ Forall2 (λ kv kv', kv.1 = kv'.1 ∧ dealtPlayer kv.2 kv'.2)
              (forPlayers forceBet (Room.players r)) (Room.players r').
Proof.
  intros Hh Hr Hgs Hdeck Hlen. unfold fireTimer. rewrite Hh.
  rewrite getRoom_clearTimer, Hr, decide_True by done.
  set (f := λ r0 : Room.t, Room.set_players (forPlayers forceBet (Room.players r0)) r0).
  set (w1 := modRoom a f (clearTimer (Some h) w)).
  assert (getRoom roomId w1 = Some (a, f r)) as Hr1.
  { unfold w1. apply getRoom_modRoom_same. by rewrite getRoom_clearTimer. }
  destruct (dealCards_enough roomId w1 a (f r) d Hr1) as [w' Hw']; [done | done | |].
  { unfold f. cbn [Room.players Room.set_players]. unfold forPlayers.
    by rewrite length_fmap. }
  destruct (dealCards_Some roomId w1 a (f r) w' Hr1 Hgs Hw')
    as (ps & d' & c1 & c2 & first & HF & _ & Hr' & _ & _ & Hpend & _ & _ & _).
  exists w'. eexists. split; [done|]. split; [exact Hr'|]. split; [done|].
  exact HF.
Qed.

End DeadlineFacts.

(* ===================================================================== *)
(** ** Joining a room *)
(* ===================================================================== *)

Module JoinFacts.
Import WorldFacts TimerFacts DealFacts BetFacts DeadlineFacts.


Lemma length_setPlayer_le id p ps : (length (setPlayer id p ps) ≤ S (length ps))%nat.
Proof.
  induction ps as [|[k q] ps IH]; simpl; [lia|].
  destruct (decide (k = id)); simpl; lia.
Qed.

Lemma stateForClient_projectable r : projectable r → is_Some (stateForClient r).
Proof.
  intros H. unfold stateForClient.
  destruct (decide (Room.gameState r = G_actionPhase)) as [Hgs|]; [|done].
  specialize (H Hgs). by destruct (Dealer.hand (Room.dealer r)).
Qed.





End JoinFacts.

(* ===================================================================== *)
(** ** The action phase *)
(* ===================================================================== *)

Module ActionFacts.
Import WorldFacts TimerFacts JoinFacts.




Lemma checkAndEndActionPhase_other_phase roomId w :
  (∀ a r, getRoom roomId w = Some (a, r) → Room.gameState r ≠ G_actionPhase) →
  checkAndEndActionPhase roomId w = w.
Proof.
  intros H. unfold checkAndEndActionPhase.
  destruct (getRoom roomId w) as [[a r]|] eqn:Hr; [|done].
  by rewrite decide_False by (by eapply H).
Qed.

(** The timeout that [checkAndEndActionPhase] arms: [dealerTurn]. *)
Lemma dealerWait_fires env h w due roomId a r :
  pending w !! h = Some (due, T_dealerWait roomId) →
  getRoom roomId w = Some (a, r) →
  ∃ w', fireTimer env h w = Some w'
    ∧ getRoom roomId w'
      = Some (a, Room.set_timers (Timers.set_dealerTurn (nextTimer w) (Room.timers r))
                   (Room.set_gameState G_dealer r))
    ∧ pending w' = <[nextTimer w := (now w + 1500, T_dealerTurn roomId a)]>
                     (delete h (pending w))
    ∧ nextTimer w' = S (nextTimer w).
Proof.
  intros Hh Hr. unfold fireTimer. rewrite Hh. unfold dealerTurn.
  rewrite getRoom_clearTimer, Hr.
  apply getRoom_Some in Hr as [Hreg Hheap].
  unfold updateGameState. cbn [clearTimer]. getroom Hreg Hheap.
  rewrite stateForClient_not_action by done. wcbn.
  eexists. split; [done|]. split; [|done]. getroom Hreg Hheap. done.
Qed.








End ActionFacts.

(* ===================================================================== *)
(** ** Elimination *)
(* ===================================================================== *)

Module ElimFacts.
Import WorldFacts TimerFacts DealFacts.

(** *** The two relations that the server respects *)

#[global] Instance keepsOut_respected : Respected keepsOut.
Proof.
  split.
  - intros p H. split_and!; [done | done | intros; split; [done | by left]].
  - intros p1 p2 p3 H12 H23 H1. destruct (H12 H1) as (H2 & Hb12 & Hs12).
    destruct (H23 H2) as (H3 & Hb23 & Hs23).
    split; [done|]. split.
    + intros Hb. destruct (Hb12 Hb) as [Hb2 Hc2]. destruct (Hb23 Hb2) as [Hb3 Hc3].
      split; congruence.
    + intros Hs. destruct (Hs12 Hs) as [Hs2 Hh2]. destruct (Hs23 Hs2) as [Hs3 Hh3].
      split; [done|]. destruct Hh2 as [Hh2|Hh2], Hh3 as [Hh3|Hh3]; rewrite ?Hh3, ?Hh2; auto.
  - intros p H. unfold resetPlayer. rewrite H. cbn.
    split_and!; [done | done | intros; split; [done | by right]].
  - intros p. unfold forceBet. destruct (decide _) as [Hst|].
    + intros H. cbn. split_and!; [done | done | intros _; split; [done | by left]].
    + intros H. split_and!; [done | done | intros; split; [done | by left]].
  - intros p. unfold forceStand. destruct (decide _) as [Hst|].
    + intros H. cbn. split_and!; [done | done | intros _; split; [done | by left]].
    + intros H. split_and!; [done | done | intros; split; [done | by left]].
  - intros ds p H. unfold settle.
    destruct (0 <? Player.bet p) eqn:Hbet; [apply Z.ltb_lt in Hbet|].
    + repeat case_match; cbn; rewrite ?H;
        (split_and!; [done | intros; lia | intros; split; [done | by left]]).
    + split_and!; [done | done | intros; split; [done | by left]].
  - intros p p' (_ & _ & Hsame) H. rewrite (Hsame H).
    split_and!; [done | done | intros; split; [done | by left]].
  - intros n p Hin H. congruence.
  - intros p H. cbn. split_and!; [done | done | intros _; split; [done | by left]].
  - intros c p Hst H. unfold hitPlayer. cbn.
    destruct (21 <? _); cbn; (split_and!; [done | done | done]).
Qed.

#[global] Instance staysSolvent_respected : Respected staysSolvent.
Proof.
  split; unfold staysSolvent, solvent.
  - done.
  - auto.
  - intros p. unfold resetPlayer. cbn. done.
  - intros p. unfold forceBet. by destruct (decide _).
  - intros p. unfold forceStand. by destruct (decide _).
  - intros ds p Hinv. unfold settle.
    destruct (0 <? Player.bet p) eqn:Hbet; [apply Z.ltb_lt in Hbet | done].
    repeat case_match; cbn; try done;
      intros; destruct (Player.isEliminated p); try done;
      repeat match goal with
             | H : (_ <? _) = false |- _ => cbn in H; apply Z.ltb_ge in H
             | H : (_ <? _) = true |- _ => cbn in H; apply Z.ltb_lt in H
             | H : (_ || _) = _ |- _ => clear H
             end; try specialize (Hinv eq_refl); lia.
  - intros p p' (Hplay & Hstand & Hsame) Hinv.
    destruct (Player.isEliminated p) eqn:Helim; [by rewrite (Hsame eq_refl), Helim|].
    destruct (decide (0 < Player.bet p)) as [Hbet|Hbet].
    + destruct (Hplay Hbet eq_refl) as (c1 & c2 & Heq). rewrite Heq. cbn.
      intros _. by apply Hinv.
    + rewrite (Hstand ltac:(lia) eq_refl). cbn. intros _. by apply Hinv.
  - intros n p _. done.
  - intros p. done.
  - intros c p _. unfold hitPlayer. cbn. by destruct (21 <? _).
Qed.

Section Keeps.
Context (K : Player.t → Player.t → Prop) `{!Respected K}.

(** *** Rooms *)






Lemma Forall2_getPlayer_rev (R : Player.t → Player.t → Prop) id ps : ∀ ps' q',
  Forall2 (λ kv kv', kv.1 = kv'.1 ∧ R kv.2 kv'.2) ps ps' →
  getPlayer id ps' = Some q' →
  ∃ q, getPlayer id ps = Some q ∧ R q q'.
Proof.
  induction ps as [|[k p] ps IH]; intros ps' q' HF.
  - inversion HF; subst. done.
  - inversion HF as [|? [k' p'] ? ps'' [Hk HR] HF']; subst. simpl in Hk. subst k'.
    simpl. destruct (decide (k = id)).
    + intros [= ->]. eauto.
    + by apply IH.
Qed.


(** *** Room objects *)





(** *** The functions of the server *)






(** *** The handlers *)






(** *** The timer callbacks *)



End Keeps.

(** *** The two handlers that add a record *)

(** [createRoom] adds a room object with the creator in it, and touches
    nothing else. *)
Lemma on_createRoom_heap s roomId playerName w w' :
  on_createRoom s roomId playerName w = Some w' →
  heap w' = heap w
  ∨ heap w' = heap w ++ [Room.mk [(Socket.id s, createPlayer playerName)] G_waiting 0 None
                                  (Dealer.mk [] 0) Timers.empty].
Proof.
  unfold on_createRoom. destruct (getRoom roomId w); [intros [= <-]; by left|].
  intros E%heap_updateGameState. by right.
Qed.


(** *** The event loop *)

Lemma reachable_runTimers fuel env t : ∀ w w',
  reachable w → runTimers fuel env t w = Some w' → reachable w'.
Proof.
  induction fuel as [|fuel IH]; intros w w' Hw; cbn [runTimers].
  - destruct (nextDue w) as [[h due]|]; [destruct (due <=? t); [done|]|];
      intros [= <-]; by constructor.
  - destruct (nextDue w) as [[h due]|]; [destruct (due <=? t)|];
      try (intros [= <-]; by constructor).
    destruct (fireTimer env h _) as [w1|] eqn:Hfire; [|done]. cbn [mbind option_bind].
    apply IH. eapply (reachable_step env (Ev_timer h)); [|exact Hfire]. by constructor.
Qed.

Lemma reachable_run fuel env trace : ∀ w w',
  reachable w → run fuel env trace w = Some w' → reachable w'.
Proof.
  induction trace as [|[t e] trace IH]; intros w w' Hw; cbn [run].
  - by intros [= <-].
  - unfold runEvent. cbn [fst snd].
    destruct (runTimers fuel env t w) as [w1|] eqn:H1; [|done]. cbn [mbind option_bind].
    destruct (step env e w1) as [w2|] eqn:H2; [|done]. cbn [mbind option_bind].
    apply IH. eapply reachable_step; [|exact H2]. by eapply reachable_runTimers.
Qed.

Lemma reachable_afterUntil trace t w' :
  (w ← run 100 Sample.env1 trace initial; runTimers 100 Sample.env1 t w) = Some w' →
  reachable w'.
Proof.
  destruct (run 100 Sample.env1 trace initial) as [w|] eqn:Hrun; [|done].
  cbn [mbind option_bind]. apply reachable_runTimers.
  eapply reachable_run; [|exact Hrun]. constructor.
Qed.

(** *** Solvency *)


(** *** The final ranking *)

Lemma insertRank_perm x l : insertRank x l ≡ₚ x :: l.
Proof.
  induction l as [|y l IH]; [done|]. simpl.
  destruct (_ <=? _); [done|]. rewrite IH. apply perm_swap.
Qed.

Lemma fullRanking_perm ps :
  fullRanking ps ≡ₚ (λ kv, Rank.mk kv.1 (Player.name kv.2) (Player.chips kv.2)) <$> ps.
Proof.
  unfold fullRanking. induction ps as [|kv ps IH]; [done|].
  cbn [fmap list_fmap foldr]. rewrite insertRank_perm. by rewrite IH.
Qed.

Lemma fullRanking_lists ps id p :
  getPlayer id ps = Some p →
  Rank.mk id (Player.name p) (Player.chips p) ∈ fullRanking ps.
Proof.
  intros (i & Hi)%getPlayer_lookup. rewrite fullRanking_perm.
  apply list_elem_of_fmap. exists (id, p). split; [done|].
  by eapply list_elem_of_lookup_2.
Qed.


(** *** Claim C9 *)




End ElimFacts.

(* ===================================================================== *)
(** ** Timers that fire after the phase has moved on *)
(* ===================================================================== *)

Module StaleFacts.
Import WorldFacts TimerFacts JoinFacts ActionFacts.

(** The action deadline does not look at the phase: whatever the phase of
    the room, the last tick of the action countdown schedules
    [dealerTurn]. *)
Lemma actionTimer_deadline_unguarded env h w due roomId room a r :
  pending w !! h = Some (due, T_actionTimer roomId room 0) →
  getRoom roomId w = Some (a, r) →
  Room.gameState r ≠ G_actionPhase →
  ∃ w', fireTimer env h w = Some w'
    ∧ pending w' !! nextTimer w = Some (now w + DEALER_WAIT_TIME, T_dealerWait roomId).
Proof.
  intros Hh Hr Hgs. unfold fireTimer. rewrite Hh.
  change (0 - 1 <? 0) with true. cbv iota.
  unfold updateGameState, rearm.
  rewrite getRoom_modRoom, getRoom_clearTimer, getRoom_set_pending, getRoom_emit, Hr.
  cbn [fmap option_fmap option_map fst snd].
  rewrite stateForClient_not_action by (by destruct (decide (a = room))).
  cbn [mbind option_bind]. eexists. split; [done|].
  cbn [setTimer snd pending emit nextTimer modRoom set_heap clearTimer set_pending now].
  apply lookup_insert_eq.
Qed.


End StaleFacts.

(* ===================================================================== *)
(** ** Hands and decks *)
(* ===================================================================== *)

Module HandFacts.
Import CardFacts.

Lemma initialTotal_perm hand hand' : hand ≡ₚ hand' → initialTotal hand = initialTotal hand'.
Proof. unfold initialTotal. induction 1; cbn [foldr] in *; lia. Qed.

Lemma aces_perm hand hand' : hand ≡ₚ hand' → aces hand = aces hand'.
Proof. intros H. unfold aces. by rewrite H. Qed.

(** X1. The score of a hand does not depend on the order in which its
    cards were drawn. *)
Theorem calculateScore_order hand hand' :
  hand ≡ₚ hand' → calculateScore hand = calculateScore hand'.
Proof.
  intros H. rewrite !calculateScore_unfold.
  by rewrite (initialTotal_perm _ _ H), (aces_perm _ _ H).
Qed.

Lemma calculateScore_order_witness :
  calculateScore [Card Hearts VA; Card Clubs V9; Card Spades VA]
  = calculateScore [Card Clubs V9; Card Spades VA; Card Hearts VA].
Proof.
  apply (calculateScore_order [Card Hearts VA; Card Clubs V9; Card Spades VA]
           [Card Clubs V9; Card Spades VA; Card Hearts VA]).
  apply (perm_trans (l' := [Card Clubs V9; Card Hearts VA; Card Spades VA])).
  - apply perm_swap.
  - apply perm_skip, perm_swap.
Defined.

(** X2. [calculateScore] returns the best total of the hand: it is the
    hard total (every ace counted 1) plus 10 for some of the aces; it
    exceeds 21 exactly when the hard total does, and is then the hard
    total; otherwise no way of counting some aces 11 gives a higher total
    that is still at most 21. *)
Theorem calculateScore_best hand :
  (∃ k : nat, (k ≤ aces hand)%nat
     ∧ calculateScore hand = hardTotal hand + 10 * Z.of_nat k)
  ∧ (21 < calculateScore hand ↔ 21 < hardTotal hand)
  ∧ (21 < hardTotal hand → calculateScore hand = hardTotal hand)
  ∧ (∀ k : nat, (k ≤ aces hand)%nat →
       hardTotal hand + 10 * Z.of_nat k ≤ 21 →
       hardTotal hand + 10 * Z.of_nat k ≤ calculateScore hand).
Proof.
  rewrite calculateScore_unfold. unfold hardTotal.
  pose proof (initialTotal_split hand) as Hsplit.
  destruct (demoteAces_spec (aces hand) (initialTotal hand)) as (d & Hd & Heq & Hstop & Hmin).
  split_and!.
  - exists (aces hand - d)%nat. split; lia.
  - lia.
  - lia.
  - intros k Hk Hle.
    destruct (decide (aces hand - k < d)%nat) as [Hlt|Hge]; [|lia].
    specialize (Hmin (aces hand - k)%nat Hlt). lia.
Qed.

Lemma calculateScore_best_witness :
  (21 < calculateScore [Card Hearts VK; Card Clubs V9; Card Spades VA; Card Hearts V5]
   ↔ 21 < hardTotal [Card Hearts VK; Card Clubs V9; Card Spades VA; Card Hearts V5])
  ∧ calculateScore [Card Hearts VK; Card Clubs V9; Card Spades VA; Card Hearts V5] = 25
  ∧ hardTotal [Card Hearts VA; Card Clubs V9; Card Spades VA] + 10 * Z.of_nat 1
    ≤ calculateScore [Card Hearts VA; Card Clubs V9; Card Spades VA].
Proof.
  split_and!.
  - apply (calculateScore_best [Card Hearts VK; Card Clubs V9; Card Spades VA; Card Hearts V5]).
  - apply (proj1 (proj2 (proj2
      (calculateScore_best [Card Hearts VK; Card Clubs V9; Card Spades VA; Card Hearts V5])))).
    vm_compute. reflexivity.
  - apply (proj2 (proj2 (proj2
      (calculateScore_best [Card Hearts VA; Card Clubs V9; Card Spades VA]))) 1%nat).
    + vm_compute. lia.
    + vm_compute. discriminate.
Defined.

Lemma two_cards_bounds c1 c2 : 4 ≤ calculateScore [c1; c2] ≤ 21.
Proof.
  destruct c1 as [s1 v1], c2 as [s2 v2].
  destruct v1, v2; vm_compute; intuition discriminate.
Qed.

(** X3. A hand of two cards scores between 4 and 21, so the two cards
    that are dealt never bust a hand; it scores 21 exactly when it is an
    ace with a card worth 10. *)
Theorem calculateScore_two_cards c1 c2 :
  4 ≤ calculateScore [c1; c2] ≤ 21
  ∧ (calculateScore [c1; c2] = 21
     ↔ (isAce c1 = true ∧ initialPoints c2 = 10)
       ∨ (initialPoints c1 = 10 ∧ isAce c2 = true)).
Proof.
  destruct c1 as [s1 v1], c2 as [s2 v2].
  destruct v1, v2; vm_compute; intuition discriminate.
Qed.

End HandFacts.

Module DeckFacts.
Import CardFacts.

Lemma createDeck_all c : c ∈ createDeck_unshuffled.
Proof. destruct c as [s v]. destruct s, v; vm_compute; set_solver. Qed.

(** X4. Whatever order the shuffle of [createDeck] leaves, the deck has
    52 cards, no card twice, and every combination of a suit and a value
    is in it. *)
Theorem createDeck_complete deck :
  deck ≡ₚ createDeck_unshuffled →
  length deck = 52%nat ∧ NoDup deck ∧ ∀ c, c ∈ deck.
Proof.
  intros H. split_and!.
  - rewrite H. apply createDeck_length.
  - rewrite H. apply createDeck_NoDup.
  - intros c. rewrite H. apply createDeck_all.
Qed.

Lemma createDeck_complete_witness :
  length Sample.deck1 = 52%nat ∧ NoDup Sample.deck1 ∧ ∀ c, c ∈ Sample.deck1.
Proof. apply (createDeck_complete Sample.deck1). apply deck1_shuffled. Defined.

End DeckFacts.

(* ===================================================================== *)
(** ** Rooms: creation, start, leaving *)
(* ===================================================================== *)

Module RoomFacts.
Import WorldFacts TimerFacts.

(** X23. [getRoomIdFromSocket] returns the first entry of [socket.rooms]
    that is not the socket's own id, and nothing when every entry is the
    socket's own id (or there is none). *)
Theorem getRoomIdFromSocket_first s :
  (∀ roomId, getRoomIdFromSocket s = Some roomId ↔
     ∃ own rest, Socket.rooms s = own ++ roomId :: rest
       ∧ roomId ≠ Socket.id s ∧ ∀ x, x ∈ own → x = Socket.id s)
  ∧ (getRoomIdFromSocket s = None ↔ ∀ x, x ∈ Socket.rooms s → x = Socket.id s).
Proof.
  unfold getRoomIdFromSocket. destruct s as [id l]. cbn [Socket.id Socket.rooms].
  induction l as [|y l [IHsome IHnone]]; cbn [List.find].
  - split.
    + intros roomId. split; [done|]. intros (own & rest & Heq & _). by destruct own.
    + split; [|done]. intros _ x Hx. by apply elem_of_nil in Hx.
  - destruct (decide (y = id)) as [->|Hne].
    + rewrite bool_decide_eq_false_2 by (by intros H; apply H). split.
      * intros roomId. rewrite IHsome. split.
        -- intros (own & rest & -> & Hr & Hown). exists (id :: own), rest.
           split_and!; [done | done |]. intros x [->|Hx]%elem_of_cons; [done | by apply Hown].
        -- intros (own & rest & Heq & Hr & Hown). destruct own as [|o own].
           ++ injection Heq as -> _. done.
           ++ injection Heq as -> ->. exists own, rest. split_and!; [done | done |].
              intros x Hx. apply Hown. by right.
      * rewrite IHnone. split.
        -- intros Hall x [->|Hx]%elem_of_cons; [done | by apply Hall].
        -- intros Hall x Hx. apply Hall. by right.
    + rewrite bool_decide_eq_true_2 by done. split.
      * intros roomId. split.
        -- intros [= <-]. exists [], l. split_and!; [done | done |].
           intros x Hx. by apply elem_of_nil in Hx.
        -- intros (own & rest & Heq & Hr & Hown). destruct own as [|o own].
           ++ by injection Heq as -> _.
           ++ injection Heq as -> _. exfalso. apply Hne, Hown. by left.
      * split; [done|]. intros Hall. exfalso. apply Hne, Hall. by left.
Qed.

Lemma updateGameState_emits roomId w a r :
  getRoom roomId w = Some (a, r) →
  updateGameState roomId w
  = v ← stateForClient r; Some (emit (ToRoom roomId (M_gameStateUpdate v)) w).
Proof. intros Hr. unfold updateGameState. by rewrite Hr. Qed.

(** [createRoom] with an id that is free. *)
Lemma on_createRoom_free s roomId playerName w :
  getRoom roomId w = None →
  ∃ w', on_createRoom s roomId playerName w = Some w'
    ∧ getRoom roomId w' = Some (length (heap w), newRoom (Socket.id s) playerName)
    ∧ rooms w' = <[roomId := length (heap w)]> (rooms w)
    ∧ heap w' = heap w ++ [newRoom (Socket.id s) playerName]
    ∧ pending w' = pending w
    ∧ emitted w'
      = emitted w ++ [SocketJoin (Socket.id s) roomId;
                      ToSocket (Socket.id s) (M_roomJoined roomId);
                      ToRoom roomId (M_gameStateUpdate
                        (View.mk [(Socket.id s, createPlayer playerName)]
                                 G_waiting 0 [] 0))].
Proof.
  unfold on_createRoom. intros Hnone. rewrite Hnone.
  set (w2 := emit _ (World _ _ _ _ _ _)).
  assert (getRoom roomId w2 = Some (length (heap w), newRoom (Socket.id s) playerName))
    as Hnew.
  { unfold getRoom, w2. wcbn. rewrite lookup_insert_eq. wcbn.
    rewrite lookup_app_r, Nat.sub_diag by done. done. }
  rewrite (updateGameState_emits _ _ _ _ Hnew). cbn.
  eexists. split; [done|]. split; [by rewrite getRoom_emit|].
  unfold w2. wcbn. split_and!; try done.
  by rewrite <- !app_assoc.
Qed.





(** [startRound] on a room that is registered: it does not raise, resets
    the room and arms the bet countdown and the bet deadline. *)
Lemma startRound_room newDeck roomId w a r :
  getRoom roomId w = Some (a, r) →
  ∃ w', startRound newDeck roomId w = Some w'
    ∧ getRoom roomId w' = Some (a, roundStart newDeck (nextTimer w) r)
    ∧ rooms w' = rooms w
    ∧ heap w' = <[a := roundStart newDeck (nextTimer w) r]> (heap w)
    ∧ pending w'
      = <[S (nextTimer w) := (now w + (BET_TIME * 1000 + 500), T_betTimeout roomId a)]>
          (<[nextTimer w := (now w + 1000, T_betCountdown roomId BET_TIME)]>
             (pending (clearAllTimers roomId w)))
    ∧ nextTimer w' = S (S (nextTimer w))
    ∧ now w' = now w
    ∧ emitted w'
      = emitted w ++ [ToRoom roomId (M_gameStateUpdate
                        (View.mk (forPlayers resetPlayer (Room.players r)) G_betting
                                 (Room.round r) [] 0))].
Proof.
  intros Hr. unfold startRound. rewrite Hr.
  destruct (clearAllTimers_fields roomId w) as (Hc1 & Hc2 & Hc3 & Hc4 & Hc5).
  apply getRoom_Some in Hr as [Hreg Hheap].
  unfold updateGameState. getroom Hreg Hheap. rewrite ?Hc1, ?Hc2, ?Hc3.
  getroom Hreg Hheap. unfold stateForClient.
  cbn [Room.gameState Room.set_timers Room.set_players Room.set_dealer Room.set_deck
       Room.set_gameState Room.players Room.round Room.dealer Room.timers Room.deck
       Dealer.hand Dealer.score].
  rewrite decide_False by done. wcbn.
  eexists. split; [reflexivity|]. wcbn. rewrite ?Hc1, ?Hc2, ?Hc3, ?Hc4, ?Hc5.
  split_and!; try done.
  - getroom Hreg Hheap. done.
  - apply list_eq. intros i. destruct (decide (i = a)) as [->|Hne].
    + rewrite !list_lookup_alter_eq, Hheap.
      rewrite list_lookup_insert_eq by (by eapply lookup_lt_Some). done.
    + rewrite !list_lookup_alter_ne by done. by rewrite list_lookup_insert_ne.
Qed.









End RoomFacts.

(* ===================================================================== *)
(** ** The timer callbacks *)
(* ===================================================================== *)

Module CallbackFacts.
Import WorldFacts TimerFacts DealFacts DeadlineFacts ResultFacts RoomFacts.

(** *** The bet countdown *)

Lemma betCountdown_tick env h roomId n due w :
  pending w !! h = Some (due, T_betCountdown roomId n) →
  fireTimer env h w
  = Some (World (rooms w) (heap w)
                (if n - 1 <? 0 then delete h (pending w)
                 else <[h := (due + 1000, T_betCountdown roomId (n - 1))]> (pending w))
                (nextTimer w) (now w)
                (emitted w ++ [ToRoom roomId (M_betCountdown n)])).
Proof.
  intros Hh. unfold fireTimer. rewrite Hh. destruct (n - 1 <? 0); [|done].
  cbn. by rewrite delete_insert_eq.
Qed.

(** X10. The interval of the bet countdown sends the seconds that are
    left, from the value it starts with down to 0, one per firing, 1000 ms
    apart; after the 0 it clears itself. It changes no room, no other
    timer and not the registry. *)
Theorem betCountdown_runs env h roomId (n : nat) : ∀ due w,
  pending w !! h = Some (due, T_betCountdown roomId (Z.of_nat n)) →
  (∃ w1, fireTimer env h w = Some w1
     ∧ pending w1 !! h
       = match n with
         | O => None
         | S m => Some (due + 1000, T_betCountdown roomId (Z.of_nat m))
         end)
  ∧ ∃ w', fireTimes env h (S n) w = Some w'
      ∧ emitted w'
        = emitted w ++ ((λ i, ToRoom roomId (M_betCountdown i)) <$> countdownFrom n)
      ∧ pending w' = delete h (pending w)
      ∧ rooms w' = rooms w ∧ heap w' = heap w ∧ nextTimer w' = nextTimer w.
Proof.
  induction n as [|m IH]; intros due w Hh.
  - cbn [fireTimes]. rewrite (betCountdown_tick _ _ _ _ _ _ Hh).
    change (Z.of_nat 0 - 1 <? 0) with true. cbv iota. split.
    + eexists. split; [done|]. cbn. by rewrite lookup_delete_eq.
    + eexists. cbn. done.
  - cbn [fireTimes]. rewrite (betCountdown_tick _ _ _ _ _ _ Hh).
    replace (Z.of_nat (S m) - 1) with (Z.of_nat m) by lia.
    assert ((Z.of_nat m <? 0) = false) as -> by (apply Z.ltb_ge; lia).
    split.
    + eexists. split; [done|]. cbn. by rewrite lookup_insert_eq.
    + cbn [mbind option_bind].
      set (w1 := World _ _ _ _ _ _).
      destruct (IH (due + 1000) w1) as [_ (w' & Hw' & Hemit & Hpend & Hrooms & Hheap & Hnext)].
      { unfold w1. cbn. by rewrite lookup_insert_eq. }
      exists w'. split; [exact Hw'|]. rewrite Hemit, Hpend, Hrooms, Hheap, Hnext.
      unfold w1. cbn [emitted pending rooms heap nextTimer countdownFrom fmap list_fmap].
      rewrite <- app_assoc. split_and!; try done.
      by rewrite delete_insert_eq.
Qed.

Lemma betCountdown_runs_witness :
  ∃ w', fireTimes Sample.env1 O 21 Sample.w_betting = Some w'
    ∧ emitted w'
      = emitted Sample.w_betting
        ++ ((λ i, ToRoom "r" (M_betCountdown i)) <$> countdownFrom 20)
    ∧ pending w' = delete O (pending Sample.w_betting)
    ∧ rooms w' = rooms Sample.w_betting ∧ heap w' = heap Sample.w_betting
    ∧ nextTimer w' = nextTimer Sample.w_betting.
Proof.
  apply (proj2 (betCountdown_runs Sample.env1 O "r" 20 1200 Sample.w_betting
                  ltac:(vm_compute; reflexivity))).
Defined.

(** *** The bet deadline *)

(** X11. When the bet deadline fires with the room gone or not in the
    betting phase, nothing happens. When it fires in the betting phase
    (with two cards in the deck for everyone), the cards are dealt and the
    action phase starts: a player who has not bet by then gets the bet 0
    and sits the round out with status stand; a player who has bet plays,
    with two more cards; an eliminated player gets no card. *)
Theorem betTimeout_deadline env h w due roomId a :
  pending w !! h = Some (due, T_betTimeout roomId a) →
  ((getRoom roomId w = None
    ∨ ∃ b r, getRoom roomId w = Some (b, r) ∧ Room.gameState r ≠ G_betting) →
   fireTimer env h w = Some (clearTimer (Some h) w))
  ∧ (∀ r d, getRoom roomId w = Some (a, r) →
       Room.gameState r = G_betting →
       Room.deck r = Some d →
       (2 * length (Room.players r) + 2 ≤ length d)%nat →
       ∃ w' r', fireTimer env h w = Some w'
         ∧ getRoom roomId w' = Some (a, r')
         ∧ Room.gameState r' = G_actionPhase
         ∧ ∀ i id p, Room.players r !! i = Some (id, p) →
             ∃ p', Room.players r' !! i = Some (id, p')
               ∧ (Player.isEliminated p = true → p' = forceBet p)
               ∧ (Player.isEliminated p = false → Player.status p = S_betting →
                  p' = Player.set_status S_stand (Player.set_bet 0 p))
               ∧ (Player.isEliminated p = false → Player.status p ≠ S_betting →
                  Player.bet p ≤ 0 → p' = Player.set_status S_stand p)
               ∧ (Player.isEliminated p = false → Player.status p ≠ S_betting →
                  0 < Player.bet p →
                  ∃ c1 c2, p' = Player.set_status S_playing
                                  (Player.set_score (calculateScore (Player.hand p ++ [c1; c2]))
                                     (Player.set_hand (Player.hand p ++ [c1; c2]) p)))).
Proof.
  intros Hh. split.
  - intros Hstale. eapply betTimeout_stale; [exact Hh|].
    destruct Hstale as [?|(b & r & ? & ?)]; [by left | right; by exists b, r].
  - intros r d Hr Hgs Hdeck Hlen.
    destruct (betTimeout_fires env h w due roomId a r d Hh Hr Hgs Hdeck Hlen)
      as (w' & r' & Hw' & Hr' & Hgs' & HF).
    exists w', r'. split_and!; try done.
    intros i id p Hi.
    assert (forPlayers forceBet (Room.players r) !! i = Some (id, forceBet p)) as Hi1.
    { by rewrite forPlayers_lookup, Hi. }
    destruct (Forall2_lookup_l _ _ _ _ _ HF Hi1) as ([id' p'] & Hi' & Hid & Hplay & Hstand & Hsame).
    cbn in Hid, Hplay, Hstand, Hsame. subst id'.
    exists p'. split; [exact Hi'|]. unfold forceBet in *.
    destruct (decide (Player.status p = S_betting)) as [Hst|Hst]; cbn in *.
    + split_and!; try done. intros Helim _. by rewrite (Hstand ltac:(lia) Helim).
    + split_and!; try done.
      * intros Helim _ Hbet. by apply Hstand.
      * intros Helim _ Hbet. by apply Hplay.
Qed.

Lemma betTimeout_deadline_witness :
  fireTimer Sample.env1 1%nat Cases.w_staleDeadline
  = Some (clearTimer (Some 1%nat) Cases.w_staleDeadline)
  ∧ ∃ w' r', fireTimer Sample.env1 1%nat Sample.w_oneBet = Some w'
      ∧ getRoom "r" w' = Some (O, r')
      ∧ Room.gameState r' = G_actionPhase
      ∧ ∃ p', Room.players r' !! 1%nat = Some ("B", p')
          ∧ p' = Player.set_status S_stand
                   (Player.set_bet 0 (Player.mk "bob" 1000 0 [] 0 S_betting false
                                                (Some R_empty))).
Proof.
  split.
  - apply (proj1 (betTimeout_deadline Sample.env1 1%nat Cases.w_staleDeadline
                    20700 "r" O ltac:(vm_compute; reflexivity))).
    right. exists O, (Sample.roomOf Sample.w_action). vm_compute.
    split; [reflexivity | discriminate].
  - destruct (proj2 (betTimeout_deadline Sample.env1 1%nat Sample.w_oneBet 20700 "r" O
                       ltac:(vm_compute; reflexivity))
                (Sample.roomOf Sample.w_oneBet) Sample.deck1)
      as (w' & r' & Hw' & Hr' & Hgs' & Hplayers).
    + vm_compute. reflexivity.
    + vm_compute. reflexivity.
    + vm_compute. reflexivity.
    + vm_compute. lia.
    + exists w', r'. split_and!; try done.
      destruct (Hplayers 1%nat "B"
                  (Player.mk "bob" 1000 0 [] 0 S_betting false (Some R_empty))
                  ltac:(vm_compute; reflexivity))
        as (p' & Hp' & _ & Hforced & _).
      exists p'. split; [exact Hp'|]. apply Hforced; reflexivity.
Defined.

(** *** The action countdown and its deadline *)

(** X12. While seconds are left, a firing of the action countdown only
    sends the seconds and stays armed, 1000 ms later, with one second
    less. The firing that brings the count below 0 is the deadline: every
    player whose status is still playing is made to stand (nobody else is
    changed), the state and the dealer notification are sent, the interval
    clears itself and [dealerTurn] is scheduled 2000 ms ahead; when that
    timeout fires, the room enters the dealer phase. *)
Theorem actionTimer_deadline env h w due roomId a n :
  pending w !! h = Some (due, T_actionTimer roomId a n) →
  (0 < n →
     fireTimer env h w
     = Some (rearm h (due + 1000) (T_actionTimer roomId a (n - 1))
               (emit (ToRoom roomId (M_actionCountdown n)) w)))
  ∧ (n ≤ 0 → ∀ r, getRoom roomId w = Some (a, r) → projectable r →
       ∃ w' v, fireTimer env h w = Some w'
         ∧ getRoom roomId w'
           = Some (a, Room.set_players (forPlayers forceStand (Room.players r)) r)
         ∧ (∀ id p', getPlayer id (forPlayers forceStand (Room.players r)) = Some p' →
              Player.status p' ≠ S_playing
              ∧ ∃ p, getPlayer id (Room.players r) = Some p
                  ∧ (Player.status p = S_playing → p' = Player.set_status S_stand p)
                  ∧ (Player.status p ≠ S_playing → p' = p))
         ∧ pending w'
           = <[nextTimer w := (now w + DEALER_WAIT_TIME, T_dealerWait roomId)]>
               (delete h (pending w))
         ∧ emitted w'
           = emitted w ++ [ToRoom roomId (M_actionCountdown n);
                           ToRoom roomId (M_gameStateUpdate v);
                           ToRoom roomId (M_notification N_dealerTurn)]
         ∧ ∀ env', ∃ w'' r'', fireTimer env' (nextTimer w) w' = Some w''
             ∧ getRoom roomId w'' = Some (a, r'')
             ∧ Room.gameState r'' = G_dealer).
Proof.
  intros Hh. split.
  - intros Hn. unfold fireTimer. rewrite Hh.
    by assert ((n - 1 <? 0) = false) as -> by (apply Z.ltb_ge; lia).
  - intros Hn r Hr Hproj. unfold fireTimer. rewrite Hh.
    assert ((n - 1 <? 0) = true) as -> by (apply Z.ltb_lt; lia).
    set (f := λ r0 : Room.t, Room.set_players (forPlayers forceStand (Room.players r0)) r0).
    set (w1 := modRoom a f _).
    assert (getRoom roomId w1 = Some (a, f r)) as Hr1.
    { unfold w1. apply getRoom_modRoom_same.
      rewrite getRoom_clearTimer. unfold rearm.
      by rewrite getRoom_set_pending, getRoom_emit. }
    rewrite (updateGameState_emits _ _ _ _ Hr1).
    destruct (JoinFacts.stateForClient_projectable (f r)) as [v Hv]; [exact Hproj|].
    rewrite Hv. cbn [mbind option_bind].
    eexists _, v. split; [reflexivity|].
    assert (getRoom roomId
              (setTimer DEALER_WAIT_TIME (T_dealerWait roomId)
                 (emit (ToRoom roomId (M_notification N_dealerTurn))
                    (emit (ToRoom roomId (M_gameStateUpdate v)) w1))).2 = Some (a, f r)) as Hr2.
    { by rewrite getRoom_setTimer, !getRoom_emit. }
    split; [exact Hr2|]. split; [|split; [|split]].
    + intros id p' Hp'. rewrite getPlayer_forPlayers in Hp'.
      destruct (getPlayer id (Room.players r)) as [p|]; [|done]. injection Hp' as <-.
      unfold forceStand. destruct (decide (Player.status p = S_playing)) as [Hst|Hst].
      * split; [done|]. exists p. by split_and!.
      * split; [done|]. exists p. by split_and!.
    + unfold w1. wcbn. cbn [clearTimer]. wcbn. by rewrite delete_insert_eq.
    + unfold w1. wcbn. cbn [clearTimer]. wcbn. by rewrite <- !app_assoc.
    + intros env'.
      edestruct (ActionFacts.dealerWait_fires env' (nextTimer w)) as (w'' & Hw'' & Hr'' & _);
        [|exact Hr2|].
      { unfold w1. wcbn. cbn [clearTimer]. wcbn. apply lookup_insert_eq. }
      eexists w'', _. split; [exact Hw''|]. split; [exact Hr''|]. done.
Qed.

Lemma actionTimer_deadline_witness :
  fireTimer Sample.env1 2%nat Sample.w_action
  = Some (rearm 2%nat (3000 + 1000) (T_actionTimer "r" O (20 - 1))
            (emit (ToRoom "r" (M_actionCountdown 20)) Sample.w_action))
  ∧ ∃ w', fireTimer Sample.env1 2%nat (Sample.afterUntil Sample.trace_action 22000) = Some w'
      ∧ getRoom "r" w'
        = Some (O, Room.set_players
                     (forPlayers forceStand
                        (Room.players (Sample.roomOf (Sample.afterUntil Sample.trace_action 22000))))
                     (Sample.roomOf (Sample.afterUntil Sample.trace_action 22000)))
      ∧ pending w'
        = <[nextTimer (Sample.afterUntil Sample.trace_action 22000)
            := (now (Sample.afterUntil Sample.trace_action 22000) + DEALER_WAIT_TIME,
                T_dealerWait "r")]>
            (delete 2%nat (pending (Sample.afterUntil Sample.trace_action 22000))).
Proof.
  split.
  - apply (proj1 (actionTimer_deadline Sample.env1 2%nat Sample.w_action 3000 "r" O 20
                    ltac:(vm_compute; reflexivity))).
    lia.
  - destruct (proj2 (actionTimer_deadline Sample.env1 2%nat
                       (Sample.afterUntil Sample.trace_action 22000) 23000 "r" O 0
                       ltac:(vm_compute; reflexivity))
                ltac:(lia) (Sample.roomOf (Sample.afterUntil Sample.trace_action 22000)))
      as (w' & v & Hw' & Hr' & _ & Hpend & _).
    + vm_compute. reflexivity.
    + intros _. vm_compute. discriminate.
    + exists w'. split; [exact Hw'|]. split; [exact Hr' | exact Hpend].
Defined.

(** *** The dealer's interval and the result *)

(** [determineWinner] on a registered room, with what it schedules. *)
Lemma determineWinner_world roomId w a r :
  getRoom roomId w = Some (a, r) →
  ∃ w', determineWinner roomId w = Some w'
    ∧ getRoom roomId w'
      = Some (a, Room.mk (forPlayers (settle (Dealer.score (Room.dealer r))) (Room.players r))
                         G_result (Room.round r) (Room.deck r) (Room.dealer r)
                         (if MAX_ROUNDS <=? Room.round r then Room.timers r
                          else Timers.set_countdownTimer (nextTimer w) (Room.timers r)))
    ∧ rooms w' = rooms w
    ∧ pending w'
      = <[nextTimer w := if MAX_ROUNDS <=? Room.round r
                         then (now w + 2000, T_finalRanking roomId)
                         else (now w + 1000, T_countdownTimer roomId a RESULT_TIME)]>
          (pending w)
    ∧ nextTimer w' = S (nextTimer w).
Proof.
  intros Hr. unfold determineWinner. rewrite Hr.
  apply getRoom_Some in Hr as [Hreg Hheap].
  unfold updateGameState. getroom Hreg Hheap.
  rewrite stateForClient_not_action by done. wcbn.
  destruct (MAX_ROUNDS <=? Room.round r) eqn:Hround.
  - eexists. split; [done|]. getroom Hreg Hheap. done.
  - eexists. split; [done|]. getroom Hreg Hheap. done.
Qed.

(** The dealer draws below 17. *)
Lemma dealerTurn_draws env h w due roomId a r c d :
  pending w !! h = Some (due, T_dealerTurn roomId a) →
  getRoom roomId w = Some (a, r) →
  Dealer.score (Room.dealer r) < 17 →
  Room.deck r = Some (d ++ [c]) →
  ∃ w', fireTimer env h w = Some w'
    ∧ getRoom roomId w'
      = Some (a, Room.set_dealer
                   (Dealer.mk (Dealer.hand (Room.dealer r) ++ [c])
                      (calculateScore (Dealer.hand (Room.dealer r) ++ [c])))
                   (Room.set_deck (Some d) r))
    ∧ pending w' = <[h := (due + 1500, T_dealerTurn roomId a)]> (pending w)
    ∧ nextTimer w' = nextTimer w.
Proof.
  intros Hh Hr Hlow Hdeck. pose proof (getRoom_heap _ _ _ _ Hr) as Hheap.
  apply Z.ltb_lt in Hlow.
  unfold fireTimer. rewrite Hh. wcbn. rewrite Hheap, Hlow, Hdeck.
  unfold draw. cbn [mbind option_bind]. rewrite CardFacts.dealCard_snoc.
  cbn [mbind option_bind].
  set (f := λ r0 : Room.t, Room.set_dealer _ (Room.set_deck (Some d) r0)).
  set (w1 := modRoom _ _ _).
  assert (getRoom roomId w1 = Some (a, f r)) as Hr1.
  { apply (getRoom_modRoom_same roomId a r f). unfold rearm.
    by rewrite getRoom_set_pending. }
  rewrite (updateGameState_emits _ _ _ _ Hr1).
  destruct (JoinFacts.stateForClient_projectable (f r)) as [v Hv].
  { intros _. cbn. by destruct (Dealer.hand (Room.dealer r)). }
  rewrite Hv. cbn [mbind option_bind]. eexists. split; [reflexivity|].
  split; [by rewrite getRoom_emit | done].
Qed.

(** The dealer stands at 17 or more. *)
Lemma dealerTurn_stands env h w due roomId a r :
  pending w !! h = Some (due, T_dealerTurn roomId a) →
  getRoom roomId w = Some (a, r) →
  17 ≤ Dealer.score (Room.dealer r) →
  ∃ w', fireTimer env h w = Some w'
    ∧ getRoom roomId w'
      = Some (a, Room.mk (forPlayers (settle (Dealer.score (Room.dealer r)))
                            (Room.players r))
                         G_result (Room.round r) (Room.deck r) (Room.dealer r)
                         (if MAX_ROUNDS <=? Room.round r then Room.timers r
                          else Timers.set_countdownTimer (nextTimer w) (Room.timers r)))
    ∧ (Timers.dealerTurn (Room.timers r) = Some h → (h < nextTimer w)%nat →
       pending w' !! h = None)
    ∧ pending w' !! nextTimer w
      = Some (if MAX_ROUNDS <=? Room.round r
              then (now w + 2000, T_finalRanking roomId)
              else (now w + 1000, T_countdownTimer roomId a RESULT_TIME)).
Proof.
  intros Hh Hr Hhigh. pose proof (getRoom_heap _ _ _ _ Hr) as Hheap.
  apply Z.ltb_ge in Hhigh. unfold fireTimer. rewrite Hh. wcbn.
  rewrite Hheap, Hhigh.
  set (w1 := clearTimer _ _).
  assert (getRoom roomId w1 = Some (a, r)) as Hr1.
  { unfold w1, rearm. by rewrite getRoom_clearTimer, getRoom_set_pending. }
  destruct (determineWinner_world roomId w1 a r Hr1)
    as (w' & Hw' & Hr' & _ & Hpend & Hnext).
  assert (nextTimer w1 = nextTimer w) as Hnt.
  { unfold w1. by destruct (Timers.dealerTurn (Room.timers r)). }
  assert (now w1 = now w) as Hnow.
  { unfold w1. by destruct (Timers.dealerTurn (Room.timers r)). }
  rewrite Hnt, Hnow in *.
  exists w'. split; [exact Hw'|]. split; [exact Hr'|].
  rewrite Hpend. split; [|by rewrite lookup_insert_eq].
  intros Hstored Hfresh. rewrite lookup_insert_ne by lia.
  unfold w1. rewrite Hstored. cbn. by rewrite lookup_delete_eq.
Qed.

(** X13. A firing of the dealer's interval, for the room object that is
    registered under its id. Below 17 the dealer draws: the last card of
    the deck goes to the dealer's hand, the score is computed again and
    the interval stays armed, 1500 ms later; nothing else in the room
    changes. With no deck or an empty deck the draw raises an exception
    that nothing catches. At 17 or more the dealer stands: the result is
    computed against the dealer's score, the room enters the result phase,
    the interval whose handle the room has stored is cleared, and either
    the countdown to the next round is armed (1000 ms ahead, starting at
    [RESULT_TIME]) or, from round [MAX_ROUNDS] on, the final ranking
    (2000 ms ahead). *)
Theorem dealerTurn_tick env h w due roomId a r :
  pending w !! h = Some (due, T_dealerTurn roomId a) →
  getRoom roomId w = Some (a, r) →
  (Dealer.score (Room.dealer r) < 17 →
     (draw (Room.deck r) = None → fireTimer env h w = None)
     ∧ (∀ c d, Room.deck r = Some (d ++ [c]) →
          ∃ w', fireTimer env h w = Some w'
            ∧ getRoom roomId w'
              = Some (a, Room.set_dealer
                           (Dealer.mk (Dealer.hand (Room.dealer r) ++ [c])
                              (calculateScore (Dealer.hand (Room.dealer r) ++ [c])))
                           (Room.set_deck (Some d) r))
            ∧ pending w' = <[h := (due + 1500, T_dealerTurn roomId a)]> (pending w)))
  ∧ (17 ≤ Dealer.score (Room.dealer r) →
     ∃ w', fireTimer env h w = Some w'
       ∧ getRoom roomId w'
         = Some (a, Room.mk (forPlayers (settle (Dealer.score (Room.dealer r)))
                               (Room.players r))
                            G_result (Room.round r) (Room.deck r) (Room.dealer r)
                            (if MAX_ROUNDS <=? Room.round r then Room.timers r
                             else Timers.set_countdownTimer (nextTimer w) (Room.timers r)))
       ∧ (Timers.dealerTurn (Room.timers r) = Some h → (h < nextTimer w)%nat →
          pending w' !! h = None)
       ∧ pending w' !! nextTimer w
         = Some (if MAX_ROUNDS <=? Room.round r
                 then (now w + 2000, T_finalRanking roomId)
                 else (now w + 1000, T_countdownTimer roomId a RESULT_TIME))).
Proof.
  intros Hh Hr. split.
  - intros Hlow. split.
    + intros Hdraw. pose proof (getRoom_heap _ _ _ _ Hr) as Hheap. apply Z.ltb_lt in Hlow.
      unfold fireTimer. rewrite Hh. wcbn. by rewrite Hheap, Hlow, Hdraw.
    + intros c d Hdeck.
      destruct (dealerTurn_draws env h w due roomId a r c d Hh Hr Hlow Hdeck)
        as (w' & Hw' & Hr' & Hpend & _).
      by exists w'.
  - intros Hhigh. by apply (dealerTurn_stands env h w due).
Qed.

Lemma dealerTurn_tick_witness :
  ∃ w', fireTimer Sample.env1 4%nat Sample.w_dealer = Some w'
    ∧ getRoom "r" w'
      = Some (O, Room.mk
                   (forPlayers (settle 20) (Room.players (Sample.roomOf Sample.w_dealer)))
                   G_result 1 (Room.deck (Sample.roomOf Sample.w_dealer))
                   (Room.dealer (Sample.roomOf Sample.w_dealer))
                   (Timers.set_countdownTimer 5%nat
                      (Room.timers (Sample.roomOf Sample.w_dealer))))
    ∧ pending w' !! 4%nat = None
    ∧ pending w' !! 5%nat = Some (6000 + 1000, T_countdownTimer "r" O RESULT_TIME).
Proof.
  destruct (proj2 (dealerTurn_tick Sample.env1 4%nat Sample.w_dealer 7500 "r" O
                     (Sample.roomOf Sample.w_dealer)
                     ltac:(vm_compute; reflexivity) ltac:(vm_compute; reflexivity)))
    as (w' & Hw' & Hr' & Hgone & Harmed).
  - vm_compute. discriminate.
  - exists w'. split; [exact Hw'|]. split; [exact Hr'|]. split.
    + apply Hgone; [vm_compute; reflexivity | vm_compute; lia].
    + exact Harmed.
Defined.

Lemma hardTotal_snoc hand c : hardTotal hand + 1 ≤ hardTotal (hand ++ [c]).
Proof.
  unfold hardTotal, othersTotal, aces. rewrite !filter_app, length_app.
  assert (∀ l1 l2, initialTotal (l1 ++ l2) = initialTotal l1 + initialTotal l2) as Happ.
  { intros l1 l2. unfold initialTotal. induction l1 as [|x l1 IH]; cbn [app foldr]; lia. }
  rewrite Happ, !filter_cons, !filter_nil.
  destruct c as [s v]. unfold isAce. cbn [value].
  destruct v;
    (destruct (decide (bool_decide (_ = VA) = false)) as [H1|H1];
     destruct (decide (bool_decide (_ = VA) = true)) as [H2|H2];
     vm_compute in H1, H2; try congruence; try tauto;
     unfold initialTotal; cbn; lia).
Qed.

Lemma calculateScore_ge_hardTotal hand : hardTotal hand ≤ calculateScore hand.
Proof.
  rewrite CardFacts.calculateScore_unfold. unfold hardTotal.
  pose proof (CardFacts.initialTotal_split hand) as Hsplit.
  destruct (CardFacts.demoteAces_spec (aces hand) (initialTotal hand))
    as (d & Hd & Heq & _). lia.
Qed.

(** X24. The dealer's turn ends. When the room has stored the handle of
    its dealer interval, the dealer's score is the score of the dealer's
    hand and the deck has enough cards ([n] of them, where 17 less the hard
    total of the dealer's hand is at most [n]; 17 cards always do), the
    interval draws the top cards of the deck one by one while the score is
    below 17, and the firing that finds 17 or more computes the result and
    clears the interval: after at most [n] draws the room is in the result
    phase with a dealer score of 17 or more. *)
Theorem dealer_turn_ends env h roomId a (n : nat) : ∀ w due r d,
  pending w !! h = Some (due, T_dealerTurn roomId a) →
  getRoom roomId w = Some (a, r) →
  Timers.dealerTurn (Room.timers r) = Some h →
  (h < nextTimer w)%nat →
  Dealer.score (Room.dealer r) = calculateScore (Dealer.hand (Room.dealer r)) →
  Room.deck r = Some d →
  17 - hardTotal (Dealer.hand (Room.dealer r)) ≤ Z.of_nat n →
  (n ≤ length d)%nat →
  ∃ (k : nat) w' r' drawn rest,
    (k ≤ n)%nat
    ∧ fireTimes env h (S k) w = Some w'
    ∧ length drawn = k
    ∧ d = rest ++ rev drawn
    ∧ (∀ j, (j < k)%nat →
         calculateScore (Dealer.hand (Room.dealer r) ++ take j drawn) < 17)
    ∧ getRoom roomId w' = Some (a, r')
    ∧ Room.gameState r' = G_result
    ∧ Dealer.hand (Room.dealer r') = Dealer.hand (Room.dealer r) ++ drawn
    ∧ Dealer.score (Room.dealer r') = calculateScore (Dealer.hand (Room.dealer r'))
    ∧ 17 ≤ Dealer.score (Room.dealer r')
    ∧ Room.deck r' = Some rest
    ∧ Room.players r'
      = forPlayers (settle (Dealer.score (Room.dealer r'))) (Room.players r)
    ∧ pending w' !! h = None.
Proof.
  assert (∀ (n : nat) w due r d,
            pending w !! h = Some (due, T_dealerTurn roomId a) →
            getRoom roomId w = Some (a, r) →
            Timers.dealerTurn (Room.timers r) = Some h →
            (h < nextTimer w)%nat →
            Dealer.score (Room.dealer r) = calculateScore (Dealer.hand (Room.dealer r)) →
            Room.deck r = Some d →
            17 ≤ Dealer.score (Room.dealer r) →
            ∃ (k : nat) w' r' drawn rest,
              (k ≤ n)%nat
              ∧ fireTimes env h (S k) w = Some w'
              ∧ length drawn = k
              ∧ d = rest ++ rev drawn
              ∧ (∀ j, (j < k)%nat →
                   calculateScore (Dealer.hand (Room.dealer r) ++ take j drawn) < 17)
              ∧ getRoom roomId w' = Some (a, r')
              ∧ Room.gameState r' = G_result
              ∧ Dealer.hand (Room.dealer r') = Dealer.hand (Room.dealer r) ++ drawn
              ∧ Dealer.score (Room.dealer r') = calculateScore (Dealer.hand (Room.dealer r'))
              ∧ 17 ≤ Dealer.score (Room.dealer r')
              ∧ Room.deck r' = Some rest
              ∧ Room.players r'
                = forPlayers (settle (Dealer.score (Room.dealer r'))) (Room.players r)
              ∧ pending w' !! h = None) as Hstands.
  { intros m w due r d Hh Hr Hstored Hfresh Hscore Hdeck Hhigh.
    destruct (dealerTurn_stands env h w due roomId a r Hh Hr Hhigh)
      as (w' & Hw' & Hr' & Hgone & _).
    eexists O, w', _, [], d. cbn [fireTimes]. rewrite Hw'. cbn [mbind option_bind].
    split_and!; [lia | done | done | by rewrite app_nil_r | intros j Hj; lia
                 | exact Hr' | done | by rewrite app_nil_r | done | done | done | done
                 | by apply Hgone]. }
  induction n as [|n IH]; intros w due r d Hh Hr Hstored Hfresh Hscore Hdeck Hn Hlen.
  all: destruct (decide (Dealer.score (Room.dealer r) < 17)) as [Hlow|Hhigh].
  all: try (apply (Hstands _ w due r d); try done; lia).
  { pose proof (calculateScore_ge_hardTotal (Dealer.hand (Room.dealer r))). lia. }
  destruct (exists_last (l := d)) as (d' & c & ->).
  { intros ->. cbn in Hlen. lia. }
  destruct (dealerTurn_draws env h w due roomId a r c d' Hh Hr Hlow Hdeck)
    as (w1 & Hw1 & Hr1 & Hpend1 & Hnext1).
  set (r1 := Room.set_dealer _ _) in Hr1.
  destruct (IH w1 (due + 1500) r1 d') as (k & w' & r' & drawn & rest & Hk & Hfire & Hdrawn
      & Hd & Hbelow & Hr' & Hgs' & Hhand' & Hscore' & Hhigh' & Hdeck' & Hplayers' & Hgone).
  { rewrite Hpend1. apply lookup_insert_eq. }
  { exact Hr1. }
  { exact Hstored. }
  { by rewrite Hnext1. }
  { done. }
  { done. }
  { pose proof (hardTotal_snoc (Dealer.hand (Room.dealer r)) c). cbn. lia. }
  { rewrite length_app in Hlen. cbn in Hlen. lia. }
  exists (S k), w', r', (c :: drawn), rest.
  split_and!; try done.
  - lia.
  - cbn [fireTimes] in *. rewrite Hw1. cbn [mbind option_bind]. exact Hfire.
  - cbn. by rewrite Hdrawn.
  - rewrite Hd. cbn [rev]. by rewrite app_assoc.
  - intros [|j] Hj.
    + cbn [take]. rewrite app_nil_r. by rewrite <- Hscore.
    + cbn [take]. specialize (Hbelow j ltac:(lia)). cbn in Hbelow.
      by rewrite <- app_assoc in Hbelow.
  - rewrite Hhand'. cbn. by rewrite <- app_assoc.
Qed.

Lemma dealer_turn_ends_witness :
  ∃ (k : nat) w' r',
    (k ≤ 17)%nat
    ∧ fireTimes Sample.env1 4%nat (S k) Sample.w_dealer = Some w'
    ∧ getRoom "r" w' = Some (O, r')
    ∧ Room.gameState r' = G_result
    ∧ 17 ≤ Dealer.score (Room.dealer r')
    ∧ pending w' !! 4%nat = None.
Proof.
  destruct (dealer_turn_ends Sample.env1 4%nat "r" O 17 Sample.w_dealer 7500
              (Sample.roomOf Sample.w_dealer)
              (default [] (Room.deck (Sample.roomOf Sample.w_dealer))))
    as (k & w' & r' & drawn & rest & Hk & Hfire & _ & _ & _ & Hr' & Hgs' & _ & _ & Hhigh'
        & _ & _ & Hgone).
  - vm_compute. reflexivity.
  - vm_compute. reflexivity.
  - vm_compute. reflexivity.
  - vm_compute. lia.
  - vm_compute. reflexivity.
  - vm_compute. reflexivity.
  - vm_compute. discriminate.
  - vm_compute. lia.
  - exists k, w', r'. by split_and!.
Defined.

(** *** The countdown to the next round *)

(** X14. While seconds are left, a firing of the countdown that follows
    the result only sends the seconds and stays armed, 1000 ms later, with
    one second less. The firing that brings the count below 0 starts the
    next round of the room: the round number goes up by one, the phase is
    betting, the players are reset with their chips kept, the deck is a
    new one, the interval whose handle the room has stored is cleared, and
    the bet countdown and the bet deadline are armed. *)
Theorem countdownTimer_next_round env h w due roomId a n :
  pending w !! h = Some (due, T_countdownTimer roomId a n) →
  (0 < n →
     fireTimer env h w
     = Some (rearm h (due + 1000) (T_countdownTimer roomId a (n - 1))
               (emit (ToRoom roomId (M_nextRoundCountdown n)) w)))
  ∧ (n ≤ 0 → ∀ r, getRoom roomId w = Some (a, r) →
       ∃ w', fireTimer env h w = Some w'
         ∧ getRoom roomId w'
           = Some (a, roundStart (Env.createDeck env) (nextTimer w)
                        (Room.set_round (Room.round r + 1) r))
         ∧ (Timers.countdownTimer (Room.timers r) = Some h → (h < nextTimer w)%nat →
            pending w' !! h = None)
         ∧ pending w' !! nextTimer w = Some (now w + 1000, T_betCountdown roomId BET_TIME)
         ∧ pending w' !! S (nextTimer w)
           = Some (now w + (BET_TIME * 1000 + 500), T_betTimeout roomId a)).
Proof.
  intros Hh. split.
  - intros Hn. unfold fireTimer. rewrite Hh.
    by assert ((n - 1 <? 0) = false) as -> by (apply Z.ltb_ge; lia).
  - intros Hn r Hr. pose proof (getRoom_heap _ _ _ _ Hr) as Hheap.
    unfold fireTimer. rewrite Hh.
    assert ((n - 1 <? 0) = true) as -> by (apply Z.ltb_lt; lia).
    wcbn. rewrite Hheap.
    set (f := λ r0 : Room.t, Room.set_round (Room.round r0 + 1) r0).
    set (w1 := modRoom _ _ _).
    assert (getRoom roomId w1 = Some (a, f r)) as Hr1.
    { apply (getRoom_modRoom_same roomId a r f). unfold rearm.
      by rewrite getRoom_clearTimer, getRoom_set_pending, getRoom_emit. }
    destruct (startRound_room (Env.createDeck env) roomId w1 a (f r) Hr1)
      as (w' & Hw' & Hr' & _ & _ & Hpend & _).
    assert (nextTimer w1 = nextTimer w) as Hnt.
    { unfold w1. by destruct (Timers.countdownTimer (Room.timers r)). }
    assert (now w1 = now w) as Hnow.
    { unfold w1. by destruct (Timers.countdownTimer (Room.timers r)). }
    rewrite Hnt in *. rewrite Hnow in *.
    exists w'. split; [exact Hw'|]. split; [exact Hr'|]. rewrite Hpend. split_and!.
    + intros Hstored Hfresh. rewrite !lookup_insert_ne by lia.
      rewrite (pending_clearAllTimers _ _ _ _ _ Hr1). rewrite decide_True; [done|].
      unfold Timers.handles. cbn. rewrite Hstored. set_solver.
    + rewrite lookup_insert_ne by lia. by rewrite lookup_insert_eq.
    + by rewrite lookup_insert_eq.
Qed.

Lemma countdownTimer_next_round_witness :
  ∃ w', fireTimer Sample.env1 5%nat Sample.w_endOfRound1 = Some w'
    ∧ getRoom "r" w'
      = Some (O, roundStart Sample.deck1 6%nat
                   (Room.set_round (1 + 1) (Sample.roomOf Sample.w_endOfRound1)))
    ∧ pending w' !! 5%nat = None.
Proof.
  destruct (proj2 (countdownTimer_next_round Sample.env1 5%nat Sample.w_endOfRound1
                     16500 "r" O 0 ltac:(vm_compute; reflexivity))
              ltac:(lia) (Sample.roomOf Sample.w_endOfRound1))
    as (w' & Hw' & Hr' & Hgone & _).
  - vm_compute. reflexivity.
  - exists w'. split; [exact Hw'|]. split; [exact Hr'|].
    apply Hgone; [vm_compute; reflexivity | vm_compute; lia].
Defined.

End CallbackFacts.

(* ===================================================================== *)
(** ** The final ranking *)
(* ===================================================================== *)

Module RankingFacts.
Import WorldFacts TimerFacts ElimFacts.

Lemma insertRank_sorted x l :
  StronglySorted (λ x y, Rank.chips y ≤ Rank.chips x) l →
  StronglySorted (λ x y, Rank.chips y ≤ Rank.chips x) (insertRank x l).
Proof.
  induction 1 as [|y l Hsorted IH Hall]; cbn [insertRank].
  - by repeat constructor.
  - destruct (Rank.chips y <=? Rank.chips x) eqn:Hle.
    + apply Z.leb_le in Hle. constructor; [by constructor|].
      constructor; [done|]. eapply Forall_impl; [exact Hall|]. cbn. intros z Hz. lia.
    + apply Z.leb_gt in Hle. constructor; [done|].
      rewrite insertRank_perm. constructor; [lia | done].
Qed.

Lemma insertRank_filter c x l :
  filter (λ e, Rank.chips e = c) (insertRank x l)
  = filter (λ e, Rank.chips e = c) (x :: l).
Proof.
  induction l as [|y l IH]; cbn [insertRank]; [done|].
  destruct (Rank.chips y <=? Rank.chips x) eqn:Hle; [done|]. apply Z.leb_gt in Hle.
  rewrite filter_cons, IH, !filter_cons.
  destruct (decide (Rank.chips y = c)), (decide (Rank.chips x = c)); try done. lia.
Qed.

Lemma StronglySorted_lookup {A} (R : A → A → Prop) l : ∀ i j x y,
  StronglySorted R l → l !! i = Some x → l !! j = Some y → (i < j)%nat → R x y.
Proof.
  induction l as [|z l IH]; intros i j x y Hs Hi Hj Hlt; [done|].
  apply StronglySorted_inv in Hs as [Hs Hall].
  destruct j as [|j]; [lia|]. cbn in Hj. destruct i as [|i].
  - injection Hi as <-. rewrite Forall_forall in Hall. apply Hall.
    by eapply list_elem_of_lookup_2.
  - cbn in Hi. eapply (IH i j); [done | done | done | lia].
Qed.

Lemma fullRanking_StronglySorted ps :
  StronglySorted (λ x y, Rank.chips y ≤ Rank.chips x) (fullRanking ps).
Proof.
  unfold fullRanking. induction ps as [|kv ps IH]; cbn [fmap list_fmap foldr].
  - constructor.
  - by apply insertRank_sorted.
Qed.

(** X15. The final ranking lists every player of the room once, by
    chips in descending order, players with the same chips in the order
    in which they joined; the top five are its first five entries. *)
Theorem fullRanking_sorted ps :
  fullRanking ps ≡ₚ (λ kv, Rank.mk kv.1 (Player.name kv.2) (Player.chips kv.2)) <$> ps
  ∧ StronglySorted (λ x y, Rank.chips y ≤ Rank.chips x) (fullRanking ps)
  ∧ (∀ c, filter (λ e, Rank.chips e = c) (fullRanking ps)
          = filter (λ e, Rank.chips e = c)
              ((λ kv, Rank.mk kv.1 (Player.name kv.2) (Player.chips kv.2)) <$> ps))
  ∧ top5Ranking ps `prefix_of` fullRanking ps
  ∧ length (top5Ranking ps) = Nat.min 5 (length ps).
Proof.
  split_and!.
  - apply fullRanking_perm.
  - apply fullRanking_StronglySorted.
  - intros c. unfold fullRanking. induction ps as [|kv ps IH]; cbn [fmap list_fmap foldr].
    + done.
    + rewrite insertRank_filter, !filter_cons, IH. done.
  - unfold top5Ranking. apply prefix_take.
  - unfold top5Ranking. rewrite length_take, fullRanking_perm, length_fmap. done.
Qed.

Lemma findIndex_Some id l i :
  findIndex id l = Some i →
  ∃ e, l !! i = Some e ∧ Rank.id e = id.
Proof.
  revert i. induction l as [|y l IH]; intros i; cbn [findIndex]; [done|].
  destruct (decide (Rank.id y = id)) as [Hy|Hy].
  - intros [= <-]. by exists y.
  - destruct (findIndex id l) as [j|]; [|done]. intros [= <-]. by apply IH.
Qed.

Lemma findIndex_None id l :
  findIndex id l = None → ∀ e, e ∈ l → Rank.id e ≠ id.
Proof.
  induction l as [|y l IH]; cbn [findIndex]; [intros _ e He; by apply elem_of_nil in He|].
  destruct (decide (Rank.id y = id)) as [Hy|Hy]; [done|].
  destruct (findIndex id l) as [j|]; [done|]. intros _ e [->|He]%elem_of_cons; [done|].
  by apply IH.
Qed.

Lemma getPlayer_elem_of id p ps :
  NoDup ps.*1 → (id, p) ∈ ps → getPlayer id ps = Some p.
Proof.
  induction ps as [|[k q] ps IH]; [intros _ H; by apply elem_of_nil in H|].
  cbn [fmap list_fmap fst getPlayer]. intros [Hk Hnd]%NoDup_cons [Heq|Hin]%elem_of_cons.
  - injection Heq as -> ->. by rewrite decide_True.
  - destruct (decide (k = id)) as [->|Hne]; [|by apply IH].
    exfalso. apply Hk. apply list_elem_of_fmap. by exists (id, p).
Qed.

Lemma getPlayer_None_elem_of id ps :
  getPlayer id ps = None → ∀ p, (id, p) ∉ ps.
Proof.
  induction ps as [|[k q] ps IH]; [intros _ p H; by apply elem_of_nil in H|].
  cbn [getPlayer]. destruct (decide (k = id)) as [->|Hne]; [done|].
  intros Hnone p [Heq|Hin]%elem_of_cons; [congruence|]. by eapply IH.
Qed.

(** X16. What the final ranking sends to one socket of the room: nothing
    when the socket is not connected any more or is not among the players;
    otherwise one message with the top five, the chips of the socket's own
    player and its rank, which is its position in the ranking: the players
    listed before it have at least as many chips, those after it at most
    as many. *)
Theorem sendRanking_personal connected ps id w :
  (id ∉ connected ∨ getPlayer id ps = None → sendRanking connected ps id w = w)
  ∧ (∀ p, NoDup ps.*1 → getPlayer id ps = Some p → id ∈ connected →
       ∃ i, sendRanking connected ps id w
            = emit (ToSocket id (M_finalRanking (top5Ranking ps) (Z.of_nat i + 1)
                                   (Player.chips p))) w
         ∧ fullRanking ps !! i = Some (Rank.mk id (Player.name p) (Player.chips p))
         ∧ (∀ j e, (j < i)%nat → fullRanking ps !! j = Some e →
              Player.chips p ≤ Rank.chips e)
         ∧ (∀ j e, (i < j)%nat → fullRanking ps !! j = Some e →
              Rank.chips e ≤ Player.chips p)).
Proof.
  unfold sendRanking. split.
  - intros Hno. destruct (findIndex id (fullRanking ps)) as [i|] eqn:Hi; [|done].
    destruct (findIndex_Some _ _ _ Hi) as (e & He & Hid). rewrite He.
    destruct Hno as [Hnc|Hnone]; [by rewrite bool_decide_eq_false_2|].
    exfalso. apply list_elem_of_lookup_2 in He. rewrite fullRanking_perm in He.
    apply list_elem_of_fmap in He as ([k q] & -> & Hin). cbn in Hid. subst k.
    by eapply getPlayer_None_elem_of.
  - intros p Hnd Hp Hconn.
    destruct (findIndex id (fullRanking ps)) as [i|] eqn:Hi.
    + destruct (findIndex_Some _ _ _ Hi) as (e & He & Hid). rewrite He.
      rewrite bool_decide_eq_true_2 by done.
      assert (e = Rank.mk id (Player.name p) (Player.chips p)) as ->.
      { pose proof (list_elem_of_lookup_2 _ _ _ He) as Hin. rewrite fullRanking_perm in Hin.
        apply list_elem_of_fmap in Hin as ([k q] & -> & Hin). cbn in Hid. subst k.
        apply (getPlayer_elem_of _ _ _ Hnd) in Hin. by simplify_eq. }
      exists i. split; [done|]. split; [done|].
      pose proof (fullRanking_StronglySorted ps) as Hsorted.
      split.
      * intros j e Hj Hje.
        apply (StronglySorted_lookup _ _ _ _ _ _ Hsorted Hje He Hj).
      * intros j e Hj Hje.
        apply (StronglySorted_lookup _ _ _ _ _ _ Hsorted He Hje Hj).
    + exfalso. apply (findIndex_None _ _ Hi (Rank.mk id (Player.name p) (Player.chips p))).
      * by apply fullRanking_lists.
      * done.
Qed.

Lemma sendRanking_personal_witness :
  sendRanking ["A"] (Room.players (Sample.roomOf Sample.w_result)) "B" initial = initial
  ∧ ∃ i, sendRanking ["A"; "B"] (Room.players (Sample.roomOf Sample.w_result)) "B" initial
         = emit (ToSocket "B" (M_finalRanking
                   (top5Ranking (Room.players (Sample.roomOf Sample.w_result)))
                   (Z.of_nat i + 1) 900)) initial
      ∧ fullRanking (Room.players (Sample.roomOf Sample.w_result)) !! i
        = Some (Rank.mk "B" "bob" 900).
Proof.
  split.
  - apply (proj1 (sendRanking_personal ["A"]
                    (Room.players (Sample.roomOf Sample.w_result)) "B" initial)).
    left. apply (bool_decide_unpack _). vm_compute. exact I.
  - destruct (proj2 (sendRanking_personal ["A"; "B"]
                       (Room.players (Sample.roomOf Sample.w_result)) "B" initial)
                (Player.mk "bob" 900 100 [Sample.H5; Sample.H6] 11 S_stand false
                           (Some R_lose)))
      as (i & Hsend & Hentry & _).
    + apply (bool_decide_unpack _). vm_compute. exact I.
    + vm_compute. reflexivity.
    + apply (bool_decide_unpack _). vm_compute. exact I.
    + exists i. split; [exact Hsend | exact Hentry].
Defined.

Lemma sendRanking_cases connected ps id w :
  sendRanking connected ps id w = w
  ∨ ∃ rank chips,
      sendRanking connected ps id w
      = emit (ToSocket id (M_finalRanking (top5Ranking ps) rank chips)) w
      ∧ id ∈ connected ∧ is_Some (getPlayer id ps).
Proof.
  unfold sendRanking. destruct (findIndex id (fullRanking ps)) as [i|] eqn:Hi; [|by left].
  destruct (findIndex_Some _ _ _ Hi) as (e & He & Hid). rewrite He.
  destruct (decide (id ∈ connected)) as [Hc|Hc];
    [rewrite bool_decide_eq_true_2 by done | rewrite bool_decide_eq_false_2 by done; by left].
  right. eexists _, _. split; [done|]. split; [done|].
  apply list_elem_of_lookup_2 in He. rewrite fullRanking_perm in He.
  apply list_elem_of_fmap in He as ([k q] & -> & Hin). cbn in Hid. subst k.
  destruct (getPlayer id ps) as [p|] eqn:Hp; [done|].
  by apply getPlayer_None_elem_of with (p := q) in Hp.
Qed.

Lemma foldl_sendRanking connected ps ss : ∀ w,
  ∃ l, foldl (λ w s, sendRanking connected ps s w) w ss
       = World (rooms w) (heap w) (pending w) (nextTimer w) (now w) (emitted w ++ l)
    ∧ ∀ o, o ∈ l →
        ∃ id rank chips, o = ToSocket id (M_finalRanking (top5Ranking ps) rank chips)
          ∧ id ∈ ss ∧ id ∈ connected ∧ is_Some (getPlayer id ps).
Proof.
  induction ss as [|s ss IH]; intros w; cbn [foldl].
  - exists []. rewrite app_nil_r. split; [by destruct w|]. intros o Ho.
    by apply elem_of_nil in Ho.
  - destruct (sendRanking_cases connected ps s w) as [->|(rank & chips & -> & Hc & Hp)].
    + destruct (IH w) as (l & -> & Hl). exists l. split; [done|].
      intros o Ho. destruct (Hl o Ho) as (id & rk & ch & -> & Hin & ? & ?).
      exists id, rk, ch. split_and!; try done. by right.
    + destruct (IH (emit (ToSocket s (M_finalRanking (top5Ranking ps) rank chips)) w))
        as (l & -> & Hl).
      exists (ToSocket s (M_finalRanking (top5Ranking ps) rank chips) :: l).
      cbn. rewrite <- app_assoc. split; [done|].
      intros o [->|Ho]%elem_of_cons.
      * exists s, rank, chips. split_and!; try done. by left.
      * destruct (Hl o Ho) as (id & rk & ch & -> & Hin & ? & ?).
        exists id, rk, ch. split_and!; try done. by right.
Qed.

(** X17. When the timeout of the final ranking fires and the room is
    gone, nothing happens. Otherwise the room is taken out of the
    registry, whoever is connected; the room object and the other timers
    are not touched; and the only messages sent are final rankings, each to
    a socket that the adapter lists for the room, that is still connected
    and that is one of the room's players. *)
Theorem finalRanking_fires env h w due roomId :
  pending w !! h = Some (due, T_finalRanking roomId) →
  (getRoom roomId w = None → fireTimer env h w = Some (clearTimer (Some h) w))
  ∧ (∀ a r, getRoom roomId w = Some (a, r) →
       ∃ w' l, fireTimer env h w = Some w'
         ∧ getRoom roomId w' = None
         ∧ rooms w' = delete roomId (rooms w)
         ∧ heap w' = heap w
         ∧ pending w' = delete h (pending w)
         ∧ emitted w' = emitted w ++ l
         ∧ (Env.socketsInRoom env = None → l = [])
         ∧ ∀ o, o ∈ l →
             ∃ id rank chips,
               o = ToSocket id (M_finalRanking (top5Ranking (Room.players r)) rank chips)
               ∧ id ∈ default [] (Env.socketsInRoom env)
               ∧ id ∈ Env.connected env
               ∧ is_Some (getPlayer id (Room.players r))).
Proof.
  intros Hh. unfold fireTimer. rewrite Hh. unfold finalRankingTimeout.
  rewrite getRoom_clearTimer. split.
  - intros Hnone. by rewrite Hnone.
  - intros a r Hr. rewrite Hr. destruct (Env.socketsInRoom env) as [ss|].
    + destruct (foldl_sendRanking (Env.connected env) (Room.players r) ss
                  (clearTimer (Some h) w)) as (l & -> & Hl).
      eexists _, l. split; [reflexivity|]. cbn.
      split_and!; try done.
      unfold getRoom. cbn. by rewrite lookup_delete_eq.
    + eexists _, []. split; [reflexivity|]. cbn. rewrite app_nil_r.
      split_and!; try done.
      * unfold getRoom. cbn. by rewrite lookup_delete_eq.
      * intros o Ho. by apply elem_of_nil in Ho.
Qed.

Lemma finalRanking_fires_witness :
  fireTimer Sample.env1 7%nat Cases.w_rankingGone
  = Some (clearTimer (Some 7%nat) Cases.w_rankingGone)
  ∧ ∃ w', fireTimer Sample.env1 7%nat Cases.w_ranking = Some w'
      ∧ getRoom "r" w' = None
      ∧ heap w' = heap Cases.w_ranking
      ∧ pending w' = delete 7%nat (pending Cases.w_ranking).
Proof.
  split.
  - apply (proj1 (finalRanking_fires Sample.env1 7%nat Cases.w_rankingGone 9000 "r"
                    ltac:(vm_compute; reflexivity))).
    vm_compute. reflexivity.
  - destruct (proj2 (finalRanking_fires Sample.env1 7%nat Cases.w_ranking 9000 "r"
                       ltac:(vm_compute; reflexivity))
                O (Sample.roomOf Cases.w_ranking))
      as (w' & l & Hw' & Hnone & _ & Hheap & Hpend & _).
    + vm_compute. reflexivity.
    + exists w'. split; [exact Hw'|]. split; [exact Hnone|]. split; [exact Hheap | exact Hpend].
Defined.

End RankingFacts.

(* ===================================================================== *)
(** ** Every change of a room object *)
(* ===================================================================== *)

Module UpdateFacts.
Import WorldFacts TimerFacts DealFacts.

Lemma alter_lookup_Some {X} (f : X → X) a (h : list X) x :
  h !! a = Some x → alter f a h = <[a := f x]> h.
Proof.
  intros Hx. apply list_eq. intros i. destruct (decide (i = a)) as [->|Hne].
  - rewrite list_lookup_alter_eq, Hx.
    by rewrite list_lookup_insert_eq by (by eapply lookup_lt_Some).
  - by rewrite list_lookup_alter_ne, list_lookup_insert_ne.
Qed.

Lemma alter_lookup_None {X} (f : X → X) a (h : list X) :
  h !! a = None → alter f a h = h.
Proof.
  intros Hx. apply list_eq. intros i. destruct (decide (i = a)) as [->|Hne].
  - by rewrite list_lookup_alter_eq, Hx.
  - by rewrite list_lookup_alter_ne.
Qed.

Lemma rooms_clearTimer h w : rooms (clearTimer h w) = rooms w.
Proof. by destruct h. Qed.

Section Updates.
Context (A : nat → Prop) (kinds : list updateKind) (newDeck : list card).

Lemma heapUpdates_trans h1 h2 h3 :
  heapUpdates A kinds newDeck h1 h2 → heapUpdates A kinds newDeck h2 h3 → heapUpdates A kinds newDeck h1 h3.
Proof.
  intros H12 H23. induction H23; [done | eapply hu_update; eauto | apply hu_create; auto].
Qed.

Lemma heapUpdates_alter h h1 a k f :
  heapUpdates A kinds newDeck h h1 →
  A a →
  (∀ r, h1 !! a = Some r → roomUpdate newDeck k r (f r)) →
  k ∈ kinds →
  heapUpdates A kinds newDeck h (alter f a h1).
Proof.
  intros Hh Ha Hf Hk. destruct (h1 !! a) as [r|] eqn:Hr.
  - rewrite (alter_lookup_Some _ _ _ _ Hr).
    eapply hu_update; [done | done | done | by apply Hf | done].
  - by rewrite (alter_lookup_None _ _ _ Hr).
Qed.

(** Closes [heapUpdates] goals over nested in-place updates of the stored
    timer handles; an update of another kind is left, followed by the goal
    that its kind is allowed. *)
Ltac upd :=
  repeat first
    [ apply hu_refl
    | eapply heapUpdates_alter;
        [| assumption
         | intros ? ?; try apply ru_timers
         | match goal with
           | |- ?k ∈ _ => tryif is_evar k then idtac else assumption
           end ] ].

Lemma registered_touched roomId w a r :
  (∀ a, rooms w !! roomId = Some a → A a) → getRoom roomId w = Some (a, r) → A a.
Proof. intros HA [Hreg _]%getRoom_Some. by apply HA. Qed.

(** *** The functions of the server *)

Lemma upd_dealerTurn roomId w w' :
  K_dealerTurn ∈ kinds → K_timers ∈ kinds →
  (∀ a, rooms w !! roomId = Some a → A a) →
  dealerTurn roomId w = Some w' → heapUpdates A kinds newDeck (heap w) (heap w').
Proof.
  intros Hk1 Hk2 HA. unfold dealerTurn.
  destruct (getRoom roomId w) as [[a r]|] eqn:Hr; [|intros [= <-]; upd].
  pose proof (registered_touched _ _ _ _ HA Hr) as Ha.
  destruct (updateGameState _ _) as [w1|] eqn:E; [|done].
  cbn. intros [= <-]. cbn. rewrite (heap_updateGameState _ _ _ E). cbn.
  upd; [apply ru_dealerTurn | assumption].
Qed.

Lemma upd_dealCards roomId w w' :
  K_deal ∈ kinds → K_timers ∈ kinds →
  (∀ a, rooms w !! roomId = Some a → A a) →
  dealCards roomId w = Some w' → heapUpdates A kinds newDeck (heap w) (heap w').
Proof.
  intros Hk1 Hk2 HA. unfold dealCards.
  destruct (getRoom roomId w) as [[a r]|] eqn:Hr; [|intros [= <-]; upd].
  pose proof (registered_touched _ _ _ _ HA Hr) as Ha.
  destruct (decide _) as [Hgs|]; [|intros [= <-]; upd].
  destruct (dealPlayers _ _) as [[ps d]|] eqn:Hps; [|done]. cbn [mbind option_bind].
  destruct (draw d) as [[c1 d1]|] eqn:Hd1; [|done]. cbn [mbind option_bind].
  destruct (draw (Some d1)) as [[c2 d2]|] eqn:Hd2; [|done]. cbn [mbind option_bind].
  destruct (clearAllTimers_fields roomId w) as (Hc1 & Hc2 & _).
  apply getRoom_Some in Hr as [Hreg Hheap].
  unfold startActionPhase. getroom Hreg Hheap. rewrite ?Hc1, ?Hc2. getroom Hreg Hheap.
  destruct (updateGameState _ _) as [w1|] eqn:E; [|done]. cbn [mbind option_bind].
  intros [= <-]. cbn. rewrite (heap_updateGameState _ _ _ E). cbn. rewrite ?Hc2.
  rewrite (list_alter_alter_eq (Room.set_gameState G_actionPhase)).
  upd; [simplify_eq; cbn; by eapply ru_deal | assumption].
Qed.

Lemma upd_startRound roomId w w' :
  K_startRound ∈ kinds → K_timers ∈ kinds →
  (∀ a, rooms w !! roomId = Some a → A a) →
  startRound newDeck roomId w = Some w' → heapUpdates A kinds newDeck (heap w) (heap w').
Proof.
  intros Hk1 Hk2 HA. unfold startRound.
  destruct (getRoom roomId w) as [[a r]|] eqn:Hr; [|intros [= <-]; upd].
  pose proof (registered_touched _ _ _ _ HA Hr) as Ha.
  cbn. intros E%heap_updateGameState. rewrite E. cbn. rewrite heap_clearAllTimers.
  upd; [apply ru_startRound | assumption].
Qed.

Lemma upd_determineWinner roomId w w' :
  K_result ∈ kinds → K_timers ∈ kinds →
  (∀ a, rooms w !! roomId = Some a → A a) →
  determineWinner roomId w = Some w' → heapUpdates A kinds newDeck (heap w) (heap w').
Proof.
  intros Hk1 Hk2 HA. unfold determineWinner.
  destruct (getRoom roomId w) as [[a r]|] eqn:Hr; [|intros [= <-]; upd].
  pose proof (registered_touched _ _ _ _ HA Hr) as Ha.
  destruct (updateGameState _ _) as [w1|] eqn:E; [|done]. cbn [mbind option_bind].
  apply heap_updateGameState in E. cbn in E. apply getRoom_heap in Hr.
  destruct (MAX_ROUNDS <=? Room.round r); cbn; intros [= <-]; cbn; rewrite E;
    (upd; [simplify_eq; apply ru_result | assumption]).
Qed.

(** *** The handlers *)

Lemma upd_createRoom s roomId playerName w w' :
  on_createRoom s roomId playerName w = Some w' →
  heapUpdates A kinds newDeck (heap w) (heap w').
Proof.
  intros [->| ->]%ElimFacts.on_createRoom_heap; [upd|].
  apply (hu_create A kinds newDeck _ _ (Socket.id s) playerName). upd.
Qed.

Lemma upd_joinRoom s roomId playerName w w' :
  K_join (Socket.id s) ∈ kinds →
  (∀ a, rooms w !! roomId = Some a → A a) →
  on_joinRoom s roomId playerName w = Some w' →
  heapUpdates A kinds newDeck (heap w) (heap w').
Proof.
  intros Hk1 HA. unfold on_joinRoom.
  destruct (getRoom roomId w) as [[a r]|] eqn:Hr; [|intros [= <-]; upd].
  pose proof (registered_touched _ _ _ _ HA Hr) as Ha.
  destruct (5 <=? length (Room.players r))%nat eqn:Hfull; [intros [= <-]; upd|].
  intros E%heap_updateGameState. rewrite E. cbn.
  upd; [apply getRoom_heap in Hr; simplify_eq; apply ru_join;
        apply Nat.leb_gt in Hfull; lia | assumption].
Qed.

Lemma upd_requestStartGame env s w w' :
  K_startGame ∈ kinds → K_startRound ∈ kinds → K_timers ∈ kinds →
  Env.createDeck env = newDeck →
  (∀ roomId a, getRoomIdFromSocket s = Some roomId → rooms w !! roomId = Some a → A a) →
  on_requestStartGame env s w = Some w' →
  heapUpdates A kinds newDeck (heap w) (heap w').
Proof.
  intros Hk1 Hk2 Hk3 Henv HA. unfold on_requestStartGame, startGame. rewrite Henv.
  destruct (getRoomIdFromSocket s) as [roomId|]; [|intros [= <-]; upd].
  destruct (getRoom roomId w) as [[a r]|] eqn:Hr; [|intros [= <-]; upd].
  pose proof (registered_touched _ _ _ _ (λ b, HA roomId b eq_refl) Hr) as Ha.
  destruct (bool_decide (Room.gameState r = G_waiting)) eqn:Hgs; cbn [andb];
    [|intros [= <-]; upd].
  apply bool_decide_eq_true in Hgs.
  destruct (_ <=? _)%nat; [|intros [= <-]; upd].
  intros H%upd_startRound; [|done|done|intros b; cbn; by apply HA].
  eapply heapUpdates_trans; [|exact H]. cbn.
  upd; [apply getRoom_heap in Hr; simplify_eq; by apply ru_startGame | assumption].
Qed.

Lemma upd_placeBet s roomId amount w w' :
  K_bet (Socket.id s) ∈ kinds → K_deal ∈ kinds → K_timers ∈ kinds →
  (∀ a, rooms w !! roomId = Some a → A a) →
  on_placeBet s roomId amount w = Some w' → heapUpdates A kinds newDeck (heap w) (heap w').
Proof.
  intros Hk1 Hk2 Hk3 HA. unfold on_placeBet.
  destruct (getRoom roomId w) as [[a r]|] eqn:Hr; [|intros [= <-]; upd].
  pose proof (registered_touched _ _ _ _ HA Hr) as Ha.
  destruct (getPlayer _ _) as [p|] eqn:Hp; [|intros [= <-]; upd].
  destruct (decide _) as [Hgs|]; [|intros [= <-]; upd].
  destruct (Player.isEliminated p) eqn:Helim; [intros [= <-]; upd|].
  destruct (parseInt amount) as [n|]; [|intros [= <-]; upd].
  destruct (0 <? n) eqn:Hn; [|intros [= <-]; upd]. apply Z.ltb_lt in Hn.
  assert (∀ r0, heap w !! a = Some r0 →
            roomUpdate newDeck (K_bet (Socket.id s)) r0 (Room.set_players
              (setPlayer (Socket.id s) (Player.set_status S_betted (Player.set_bet n p))
                 (Room.players r)) r0)) as Hk.
  { intros r0 Hr0. apply getRoom_heap in Hr. simplify_eq. by apply ru_bet. }
  destruct (allPlayersBetted _).
  - intros H%upd_dealCards; [|done|done|intros b; rewrite !rooms_clearTimer; apply HA].
    eapply heapUpdates_trans; [|exact H].
    rewrite !heap_clearTimer. cbn. eapply heapUpdates_alter; [upd | done | exact Hk | done].
  - intros E%heap_updateGameState. rewrite E. cbn.
    eapply heapUpdates_alter; [upd | done | exact Hk | done].
Qed.

Lemma upd_hit s roomId w w' :
  K_hit (Socket.id s) ∈ kinds →
  (∀ a, rooms w !! roomId = Some a → A a) →
  on_hit s roomId w = Some w' → heapUpdates A kinds newDeck (heap w) (heap w').
Proof.
  intros Hk1 HA. unfold on_hit.
  destruct (getRoom roomId w) as [[a r]|] eqn:Hr; [|intros [= <-]; upd].
  pose proof (registered_touched _ _ _ _ HA Hr) as Ha.
  destruct (getPlayer _ _) as [p|] eqn:Hp; [|intros [= <-]; upd].
  destruct (bool_decide (Room.gameState r = G_actionPhase)) eqn:Hgs; cbn [andb];
    [|intros [= <-]; upd].
  destruct (bool_decide (Player.status p = S_playing)) eqn:Hst; [|intros [= <-]; upd].
  apply bool_decide_eq_true in Hgs, Hst.
  destruct (draw _) as [[c d]|] eqn:Hdraw; [|done]. cbn [mbind option_bind].
  destruct (updateGameState _ _) as [w1|] eqn:E; [|done]. cbn [mbind option_bind].
  intros [= <-]. rewrite heap_checkAndEndActionPhase, (heap_updateGameState _ _ _ E). cbn.
  upd; [apply getRoom_heap in Hr; simplify_eq; by apply ru_hit | assumption].
Qed.

Lemma upd_stand s roomId w w' :
  K_stand (Socket.id s) ∈ kinds →
  (∀ a, rooms w !! roomId = Some a → A a) →
  on_stand s roomId w = Some w' → heapUpdates A kinds newDeck (heap w) (heap w').
Proof.
  intros Hk1 HA. unfold on_stand.
  destruct (getRoom roomId w) as [[a r]|] eqn:Hr; [|intros [= <-]; upd].
  pose proof (registered_touched _ _ _ _ HA Hr) as Ha.
  destruct (getPlayer _ _) as [p|] eqn:Hp; [|intros [= <-]; upd].
  destruct (bool_decide (Room.gameState r = G_actionPhase)) eqn:Hgs; cbn [andb];
    [|intros [= <-]; upd].
  destruct (bool_decide (Player.status p = S_playing)) eqn:Hst; [|intros [= <-]; upd].
  apply bool_decide_eq_true in Hgs, Hst.
  destruct (updateGameState _ _) as [w1|] eqn:E; [|done]. cbn [mbind option_bind].
  intros [= <-]. rewrite heap_checkAndEndActionPhase, (heap_updateGameState _ _ _ E). cbn.
  upd; [apply getRoom_heap in Hr; simplify_eq; by apply ru_stand | assumption].
Qed.

Lemma upd_disconnect s w w' :
  K_leave (Socket.id s) ∈ kinds →
  (∀ roomId a, getRoomIdFromSocket s = Some roomId → rooms w !! roomId = Some a → A a) →
  on_disconnect s w = Some w' → heapUpdates A kinds newDeck (heap w) (heap w').
Proof.
  intros Hk1 HA. unfold on_disconnect.
  destruct (getRoomIdFromSocket s) as [roomId|]; [|intros [= <-]; upd].
  destruct (getRoom roomId w) as [[a r]|] eqn:Hr; [|intros [= <-]; upd].
  pose proof (registered_touched _ _ _ _ (λ b, HA roomId b eq_refl) Hr) as Ha.
  destruct (getPlayer _ _) as [p|] eqn:Hp; [|intros [= <-]; upd].
  assert (∀ r0, heap w !! a = Some r0 →
            roomUpdate newDeck (K_leave (Socket.id s)) r0
              (Room.set_players (deletePlayer (Socket.id s) (Room.players r)) r0)) as Hk.
  { intros r0 Hr0. apply getRoom_heap in Hr. simplify_eq. by eapply ru_leave. }
  destruct (_ =? _)%nat.
  - intros [= <-]. cbn. rewrite heap_clearAllTimers. cbn.
    eapply heapUpdates_alter; [upd | done | exact Hk | done].
  - destruct (updateGameState _ _) as [w1|] eqn:E; [|done]. cbn [mbind option_bind].
    intros [= <-]. rewrite heap_checkAndEndActionPhase, (heap_updateGameState _ _ _ E). cbn.
    eapply heapUpdates_alter; [upd | done | exact Hk | done].
Qed.

(** *** The timer callbacks *)

Lemma upd_fireTimer env h w w' :
  Env.createDeck env = newDeck →
  (∀ due c k, pending w !! h = Some (due, c) → k ∈ timerKinds c → k ∈ kinds) →
  (∀ due c a, pending w !! h = Some (due, c) →
     timerRoom c = Some a ∨ rooms w !! timerRoomId c = Some a → A a) →
  fireTimer env h w = Some w' → heapUpdates A kinds newDeck (heap w) (heap w').
Proof.
  intros Henv HK HA. unfold fireTimer.
  destruct (pending w !! h) as [[due c]|] eqn:Hh; [|intros [= <-]; upd].
  specialize (HA due c). specialize (HK due c).
  destruct c as [roomId n|roomId room|roomId room n|roomId|roomId room|roomId room n|roomId];
    cbn [timerKinds] in HK.
  - intros [= <-]. destruct (_ <? 0); cbn; upd.
  - assert (A room) as Hroom by (apply HA; [done | by left]).
    assert (K_forceBet ∈ kinds) as Hk1 by (apply HK; [done | repeat constructor]).
    assert (K_deal ∈ kinds) as Hk2 by (apply HK; [done | repeat constructor]).
    assert (K_timers ∈ kinds) as Hk3 by (apply HK; [done | repeat constructor]).
    rewrite getRoom_clearTimer.
    destruct (getRoom roomId w) as [[a r]|]; [|intros [= <-]; upd].
    destruct (decide _); [|intros [= <-]; upd].
    intros H%upd_dealCards; [|done|done|intros b Hb; apply HA; [done | by right]].
    eapply heapUpdates_trans; [|exact H]. cbn. upd; [apply ru_forceBet | assumption].
  - assert (A room) as Hroom by (apply HA; [done | by left]).
    assert (K_forceStand ∈ kinds) as Hk1 by (apply HK; [done | repeat constructor]).
    destruct (_ <? 0); [|intros [= <-]; cbn; upd].
    destruct (updateGameState _ _) as [w1|] eqn:E; [|done]. cbn [mbind option_bind].
    intros [= <-]. cbn. rewrite (heap_updateGameState _ _ _ E). cbn.
    upd; [apply ru_forceStand | assumption].
  - assert (K_dealerTurn ∈ kinds) as Hk1 by (apply HK; [done | repeat constructor]).
    assert (K_timers ∈ kinds) as Hk2 by (apply HK; [done | repeat constructor]).
    intros H%upd_dealerTurn; [|done|done|intros b Hb; apply HA; [done | by right]].
    eapply heapUpdates_trans; [|exact H]. cbn. upd.
  - assert (A room) as Hroom by (apply HA; [done | by left]).
    assert (K_dealerDraw ∈ kinds) as Hk1 by (apply HK; [done | repeat constructor]).
    assert (K_result ∈ kinds) as Hk2 by (apply HK; [done | repeat constructor]).
    assert (K_timers ∈ kinds) as Hk3 by (apply HK; [done | repeat constructor]).
    cbn [rearm heap set_pending].
    destruct (heap w !! room) as [r|] eqn:Hr; [|intros [= <-]; cbn; upd].
    destruct (_ <? 17) eqn:Hlow.
    + apply Z.ltb_lt in Hlow.
      destruct (draw _) as [[c d]|] eqn:Hdraw; [|done]. cbn [mbind option_bind].
      intros E%heap_updateGameState. rewrite E. cbn.
      upd; [simplify_eq; by apply ru_dealerDraw | assumption].
    + intros H%upd_determineWinner;
        [|done|done|intros b Hb; rewrite rooms_clearTimer in Hb; apply HA; [done | by right]].
      eapply heapUpdates_trans; [|exact H]. rewrite heap_clearTimer. cbn. upd.
  - assert (A room) as Hroom by (apply HA; [done | by left]).
    assert (K_nextRound ∈ kinds) as Hk1 by (apply HK; [done | repeat constructor]).
    assert (K_startRound ∈ kinds) as Hk2 by (apply HK; [done | repeat constructor]).
    assert (K_timers ∈ kinds) as Hk3 by (apply HK; [done | repeat constructor]).
    destruct (_ <? 0); [|intros [= <-]; cbn; upd].
    cbn [rearm heap set_pending emit].
    destruct (heap w !! room) as [r|]; [|intros [= <-]; cbn; upd].
    rewrite Henv.
    intros H%upd_startRound;
      [|done|done
       |intros b Hb; cbn in Hb; rewrite rooms_clearTimer in Hb; apply HA; [done | by right]].
    eapply heapUpdates_trans; [|exact H]. cbn. rewrite heap_clearTimer. cbn.
    upd; [apply ru_nextRound | assumption].
  - intros [= <-]. rewrite heap_finalRankingTimeout. cbn. upd.
Qed.

End Updates.

(** Every event changes the room objects by updates of its kinds only, at
    the room objects that it addresses. *)
Lemma step_heapUpdates env e w w' :
  step env e w = Some w' →
  heapUpdates (touched e w) (eventKinds e w) (Env.createDeck env) (heap w) (heap w').
Proof.
  destruct e; cbn [step eventKinds].
  - apply upd_createRoom.
  - apply upd_joinRoom; [repeat constructor | done].
  - apply upd_requestStartGame; [repeat constructor.. | done |].
    intros roomId a ? ?. by exists roomId.
  - apply upd_placeBet; [repeat constructor.. | done].
  - apply upd_hit; [repeat constructor | done].
  - apply upd_stand; [repeat constructor | done].
  - apply upd_disconnect; [repeat constructor|]. intros roomId a ? ?. by exists roomId.
  - apply upd_fireTimer; [done | |].
    + intros due c k Hh Hk. by rewrite Hh.
    + intros due c a ? ?. by exists due, c.
Qed.

Lemma heapUpdates_untouched A kinds newDeck h h' :
  heapUpdates A kinds newDeck h h' →
  (length h ≤ length h')%nat
  ∧ ∀ b r, h !! b = Some r → ¬ A b → h' !! b = Some r.
Proof.
  induction 1 as [h|h h' a k r r' _ [IHlen IH] Ha Hr Hu Hk|h h' sid name _ [IHlen IH]].
  - done.
  - split; [by rewrite length_insert|]. intros b r0 Hb Hnot.
    rewrite list_lookup_insert_ne by (by intros ->). by apply IH.
  - split; [rewrite length_app; cbn; lia|]. intros b r0 Hb Hnot.
    apply lookup_app_l_Some. by apply IH.
Qed.

(** X18. An event changes no room object but those it addresses: the
    object registered under the room id that the event names (the first
    room of the socket for [requestStartGame] and [disconnect]) and, for a
    timer, the object that its callback closed over. Every other room
    object is as it was, and no room object goes away. *)
Theorem step_isolation env e w w' b r :
  step env e w = Some w' →
  heap w !! b = Some r →
  (¬ touched e w b → heap w' !! b = Some r)
  ∧ is_Some (heap w' !! b).
Proof.
  intros Hstep Hb. apply step_heapUpdates in Hstep.
  apply heapUpdates_untouched in Hstep as [Hlen Hsame].
  split; [by apply Hsame|].
  apply lookup_lt_is_Some_2. apply lookup_lt_Some in Hb. lia.
Qed.

Lemma step_isolation_witness :
  heap (default initial (on_stand Sample.sA "r" Cases2.w_twoRooms)) !! 1%nat
  = Some (newRoom "D" "dan").
Proof.
  apply (proj1 (step_isolation Sample.env1 (Ev_stand Sample.sA "r") Cases2.w_twoRooms
                  (default initial (on_stand Sample.sA "r" Cases2.w_twoRooms))
                  1%nat (newRoom "D" "dan")
                  ltac:(vm_compute; reflexivity) ltac:(vm_compute; reflexivity))).
  intros H. vm_compute in H. discriminate.
Defined.

Lemma roomUpdate_started newDeck k r r' :
  roomUpdate newDeck k r r' → Room.gameState r ≠ G_waiting → Room.gameState r' ≠ G_waiting.
Proof. destruct 1; cbn; congruence. Qed.

Lemma heapUpdates_started A kinds newDeck h h' :
  heapUpdates A kinds newDeck h h' →
  ∀ a r, h !! a = Some r → Room.gameState r ≠ G_waiting →
    ∃ r', h' !! a = Some r' ∧ Room.gameState r' ≠ G_waiting.
Proof.
  induction 1 as [h|h h' b k r0 r1 _ IH Hb Hr0 Hu Hk|h h' sid name _ IH]; intros a r Hr Hgs.
  - by exists r.
  - destruct (IH a r Hr Hgs) as (r' & Hr' & Hgs'). destruct (decide (b = a)) as [->|Hne].
    + exists r1. split; [by rewrite list_lookup_insert_eq by (by eapply lookup_lt_Some)|].
      simplify_eq. by eapply roomUpdate_started.
    + exists r'. by rewrite list_lookup_insert_ne.
  - destruct (IH a r Hr Hgs) as (r' & Hr' & Hgs'). exists r'.
    split; [by apply lookup_app_l_Some | done].
Qed.

(** X22. A room that has left the waiting phase never comes back to it,
    whatever event is handled: a game is started once, and
    [requestStartGame], which acts in the waiting phase only, does nothing
    for that room from then on. *)
Theorem waiting_never_again env e w w' a r :
  step env e w = Some w' →
  heap w !! a = Some r →
  Room.gameState r ≠ G_waiting →
  (∃ r', heap w' !! a = Some r' ∧ Room.gameState r' ≠ G_waiting)
  ∧ ∀ s roomId, getRoomIdFromSocket s = Some roomId → rooms w !! roomId = Some a →
      on_requestStartGame env s w = Some w.
Proof.
  intros Hstep Hr Hgs. split.
  - by eapply heapUpdates_started; [apply step_heapUpdates|..].
  - intros s roomId Hs Hreg. unfold on_requestStartGame. rewrite Hs.
    rewrite (proj2 (getRoom_Some roomId w a r) (conj Hreg Hr)).
    by rewrite bool_decide_eq_false_2.
Qed.

Lemma waiting_never_again_witness :
  (∃ r', heap Sample.w_startOfRound2 !! O = Some r' ∧ Room.gameState r' ≠ G_waiting)
  ∧ on_requestStartGame Sample.env1 Sample.sA Sample.w_endOfRound1
    = Some Sample.w_endOfRound1.
Proof.
  destruct (waiting_never_again Sample.env1 (Ev_timer 5%nat) Sample.w_endOfRound1
              Sample.w_startOfRound2 O (Sample.roomOf Sample.w_endOfRound1)
              ltac:(vm_compute; reflexivity) ltac:(vm_compute; reflexivity)
              ltac:(vm_compute; discriminate)) as [Hstays Hnoop].
  split; [exact Hstays|].
  apply (Hnoop Sample.sA "r"); vm_compute; reflexivity.
Defined.

End UpdateFacts.

(* ===================================================================== *)
(** ** What holds in every state that the server gets to *)
(* ===================================================================== *)

Module InvariantFacts.
Import WorldFacts TimerFacts DealFacts UpdateFacts.

(** *** The players object *)

Lemma getPlayer_None_keys id ps : getPlayer id ps = None → id ∉ ps.*1.
Proof.
  induction ps as [|[k q] ps IH]; cbn [getPlayer fmap list_fmap fst].
  - intros _ H. by apply elem_of_nil in H.
  - destruct (decide (k = id)); [done|]. intros H%IH [->|Hin]%elem_of_cons; done.
Qed.

Lemma setPlayer_keys id q ps :
  (setPlayer id q ps).*1 = if getPlayer id ps is Some _ then ps.*1 else ps.*1 ++ [id].
Proof.
  induction ps as [|[k p] ps IH]; cbn [setPlayer getPlayer fmap list_fmap fst]; [done|].
  destruct (decide (k = id)); [done|]. cbn [fmap list_fmap fst]. rewrite IH.
  by destruct (getPlayer id ps).
Qed.

Lemma Forall_setPlayer (P : string * Player.t → Prop) id q ps :
  Forall P ps → P (id, q) → Forall P (setPlayer id q ps).
Proof.
  intros Hall Hq. induction Hall as [|[k p] ps Hp Hall IH]; cbn [setPlayer].
  - by repeat constructor.
  - destruct (decide (k = id)) as [->|]; by constructor.
Qed.

Lemma Forall_deletePlayer (P : string * Player.t → Prop) id ps :
  Forall P ps → Forall P (deletePlayer id ps).
Proof.
  induction 1 as [|[k p] ps Hp Hall IH]; cbn [deletePlayer]; [done|].
  destruct (decide (k = id)); [done | by constructor].
Qed.

Lemma deletePlayer_keys id ps : (deletePlayer id ps).*1 `sublist_of` ps.*1.
Proof.
  induction ps as [|[k p] ps IH]; cbn [deletePlayer fmap list_fmap fst]; [done|].
  destruct (decide (k = id)); [by apply sublist_cons | by apply sublist_skip].
Qed.

Lemma Forall_forPlayers (P Q : Player.t → Prop) f ps :
  (∀ p, P p → Q (f p)) →
  Forall (λ kv, P kv.2) ps → Forall (λ kv, Q kv.2) (forPlayers f ps).
Proof.
  intros Hf Hall. unfold forPlayers. apply Forall_fmap.
  eapply Forall_impl; [exact Hall|]. intros [k p]. cbn. apply Hf.
Qed.

Lemma Forall_getPlayer (P : Player.t → Prop) id p ps :
  Forall (λ kv, P kv.2) ps → getPlayer id ps = Some p → P p.
Proof.
  intros Hall (i & Hi)%getPlayer_lookup.
  by apply (Forall_lookup_1 _ _ _ _ Hall Hi).
Qed.

Lemma dealt_keys (R : Player.t → Player.t → Prop) (ps ps' : playerMap) :
  Forall2 (λ kv kv', kv.1 = kv'.1 ∧ R kv.2 kv'.2) ps ps' → ps'.*1 = ps.*1.
Proof.
  induction 1 as [|[k p] [k' p'] ps ps' [Hk _] _ IH]; cbn in *; [done | by f_equal].
Qed.

(** *** A player's record *)

Lemma playerInv_createPlayer playerName : playerInv (createPlayer playerName).
Proof. split_and!; cbn; done. Qed.

Lemma playerInv_not_bust p : playerInv p → Player.status p ≠ S_bust → Player.score p ≤ 21.
Proof. intros (_ & Hbust & _) Hst. destruct (decide (21 < Player.score p)); [tauto | lia]. Qed.

Lemma playerInv_resetPlayer p : playerInv p → playerInv (resetPlayer p).
Proof.
  intros (Hscore & Hbust & Hbet & Hsolvent). unfold resetPlayer. split_and!; cbn; try done.
  split; [lia | by destruct (Player.isEliminated p)].
Qed.

Lemma playerInv_forceBet p : playerInv p → playerInv (forceBet p).
Proof.
  intros Hinv. unfold forceBet. destruct (decide _) as [Hst|]; [|done].
  pose proof (playerInv_not_bust p Hinv ltac:(congruence)) as Hle.
  destruct Hinv as (Hscore & Hbust & Hbet & Hsolvent).
  split_and!; cbn; try done. split; [lia | done].
Qed.

Lemma playerInv_forceStand p : playerInv p → playerInv (forceStand p).
Proof.
  intros Hinv. unfold forceStand. destruct (decide _) as [Hst|]; [|done].
  pose proof (playerInv_not_bust p Hinv ltac:(congruence)) as Hle.
  destruct Hinv as (Hscore & Hbust & Hbet & Hsolvent).
  split_and!; cbn; try done. split; [lia | done].
Qed.

Lemma playerInv_settle dealerScore p : playerInv p → playerInv (settle dealerScore p).
Proof.
  intros (Hscore & Hbust & Hbet & Hsolvent).
  destruct (ResultFacts.settle_ruleOutcome dealerScore p)
    as (_ & _ & _ & Hb & Hh & Hs & Hst).
  split_and!.
  - by rewrite Hs, Hh.
  - by rewrite Hs, Hst.
  - by rewrite Hb.
  - by apply (respected_settle (K := staysSolvent)).
Qed.

Lemma playerInv_bet n p :
  playerInv p → Player.hand p = [] → 0 < n →
  playerInv (Player.set_status S_betted (Player.set_bet n p)).
Proof.
  intros (Hscore & Hbust & Hbet & Hsolvent) Hhand Hn. rewrite Hhand in Hscore.
  split_and!; cbn; try done; [by rewrite Hhand | | lia].
  rewrite Hscore. by split.
Qed.

Lemma playerInv_stand p :
  playerInv p → Player.status p = S_playing → playerInv (Player.set_status S_stand p).
Proof.
  intros Hinv Hst. pose proof (playerInv_not_bust p Hinv ltac:(congruence)) as Hle.
  destruct Hinv as (Hscore & Hbust & Hbet & Hsolvent).
  split_and!; cbn; try done. split; [lia | done].
Qed.

Lemma playerInv_hit c p :
  playerInv p → Player.status p = S_playing → playerInv (hitPlayer c p).
Proof.
  intros (Hscore & Hbust & Hbet & Hsolvent) Hst. unfold hitPlayer.
  cbn [Player.score Player.set_score Player.set_hand Player.hand].
  destruct (21 <? calculateScore (Player.hand p ++ [c])) eqn:Hover.
  - apply Z.ltb_lt in Hover. split_and!; cbn; try done.
  - apply Z.ltb_ge in Hover. split_and!; cbn; try done. rewrite Hst. split; [lia | done].
Qed.

Lemma playerInv_dealt p p' :
  dealtPlayer p p' → playerInv p → Player.hand p = [] → playerInv p'.
Proof.
  intros (Hplay & Hstand & Hsame) Hinv Hhand.
  destruct (Player.isEliminated p) eqn:Helim; [by rewrite (Hsame eq_refl)|].
  destruct Hinv as (Hscore & Hbust & Hbet & Hsolvent). rewrite Hhand in Hscore.
  destruct (decide (0 < Player.bet p)) as [Hpos|Hpos].
  - destruct (Hplay Hpos eq_refl) as (c1 & c2 & ->). rewrite Hhand. cbn [app].
    pose proof (HandFacts.two_cards_bounds c1 c2) as [_ Hle].
    split_and!; cbn; try done. split; [lia | done].
  - rewrite (Hstand ltac:(lia) eq_refl). split_and!; cbn; try done; [by rewrite Hhand|].
    rewrite Hscore. by split.
Qed.

(** *** A room object *)

Lemma roomInv_newRoom socketId playerName : roomInv (newRoom socketId playerName).
Proof.
  unfold roomInv, newRoom, projectable. cbn. split_and!; try done.
  - apply NoDup_singleton.
  - lia.
  - constructor; [apply playerInv_createPlayer | constructor].
Qed.

(** An update of the players that leaves the rest of the room alone. *)
Lemma roomInv_players r r' :
  roomInv r →
  Room.gameState r' = Room.gameState r →
  Room.dealer r' = Room.dealer r →
  Room.round r' = Room.round r →
  NoDup (Room.players r').*1 →
  (length (Room.players r') ≤ 5)%nat →
  Forall (λ kv, playerInv kv.2) (Room.players r') →
  (Room.gameState r = G_betting → Forall (λ kv, Player.hand kv.2 = []) (Room.players r')) →
  roomInv r'.
Proof.
  intros (_ & _ & _ & _ & Hdealer & Hproj & Hround) Hgs Hd Hr Hnd Hlen Hall Hhands.
  unfold roomInv, projectable in *. rewrite Hgs, Hd, Hr. by split_and!.
Qed.

Lemma setPlayer_keys_Some id p q ps :
  getPlayer id ps = Some p → (setPlayer id q ps).*1 = ps.*1.
Proof. intros Hp. by rewrite setPlayer_keys, Hp. Qed.

Lemma length_keys (ps ps' : playerMap) : ps'.*1 = ps.*1 → length ps' = length ps.
Proof. intros H. apply (f_equal length) in H. by rewrite !length_fmap in H. Qed.

Lemma roomUpdate_inv newDeck k r r' : roomUpdate newDeck k r r' → roomInv r → roomInv r'.
Proof.
  intros Hu Hinv. pose proof Hinv as (Hnd & Hlen & Hps & Hbetting & Hdealer & Hproj & Hround).
  destruct Hu as [t r|r Hgs|r|r|r ps d c1 d1 c2 d2 Hgs Hdeal Hd1 Hd2|r|r|r|r c d Hlow Hdraw
                 |r|id playerName r Hroom|id p n r Hgs Hp Helim Hn|id p c d r Hgs Hp Hst Hdraw
                 |id p r Hgs Hp Hst|id p r Hp].
  - done.
  - unfold roomInv, projectable in *. cbn. by split_and!.
  - unfold roomInv, projectable. cbn. split_and!; try done.
    + by rewrite forPlayers_keys.
    + unfold forPlayers. by rewrite length_fmap.
    + eapply Forall_forPlayers; [apply playerInv_resetPlayer | done].
    + intros _.
      apply (Forall_forPlayers (λ _, True) (λ p, Player.hand p = [])); [done|].
      by apply Forall_true.
  - unfold roomInv, projectable in *. cbn. split_and!; try done. lia.
  - pose proof (dealPlayers_dealt _ _ _ _ Hdeal) as HF.
    unfold roomInv, projectable. cbn. split_and!; try done.
    + by rewrite (dealt_keys _ _ _ HF).
    + by rewrite <- (Forall2_length _ _ _ HF).
    + apply Forall_lookup_2. intros i [k' p'] Hi.
      destruct (Forall2_lookup_r _ _ _ _ _ HF Hi) as ([k p] & Hi0 & _ & Hd). cbn in Hd.
      apply (playerInv_dealt p p' Hd).
      * apply (Forall_lookup_1 _ _ _ _ Hps Hi0).
      * apply (Forall_lookup_1 _ _ _ _ (Hbetting Hgs) Hi0).
    + intros _. by destruct (Dealer.hand (Room.dealer r)).
  - unfold roomInv, projectable in *. cbn. by split_and!.
  - apply (roomInv_players r); try done; cbn.
    + by rewrite forPlayers_keys.
    + unfold forPlayers. by rewrite length_fmap.
    + eapply Forall_forPlayers; [apply playerInv_forceBet | done].
    + intros Hgs.
      apply (Forall_forPlayers (λ p, Player.hand p = []) (λ p, Player.hand p = []));
        [|exact (Hbetting Hgs)].
      intros p Hp. unfold forceBet. by destruct (decide _).
  - apply (roomInv_players r); try done; cbn.
    + by rewrite forPlayers_keys.
    + unfold forPlayers. by rewrite length_fmap.
    + eapply Forall_forPlayers; [apply playerInv_forceStand | done].
    + intros Hgs.
      apply (Forall_forPlayers (λ p, Player.hand p = []) (λ p, Player.hand p = []));
        [|exact (Hbetting Hgs)].
      intros p Hp. unfold forceStand. by destruct (decide _).
  - unfold roomInv, projectable in *. cbn. split_and!; try done.
    intros _. by destruct (Dealer.hand (Room.dealer r)).
  - unfold roomInv, projectable in *. cbn. split_and!; try done.
    + by rewrite forPlayers_keys.
    + unfold forPlayers. by rewrite length_fmap.
    + eapply Forall_forPlayers; [apply playerInv_settle | done].
  - apply (roomInv_players r); try done; cbn.
    + rewrite setPlayer_keys. destruct (getPlayer id (Room.players r)) eqn:Hp; [done|].
      apply NoDup_app. split_and!; [done | | apply NoDup_singleton].
      intros k Hk [->|Hin]%elem_of_cons; [|by apply elem_of_nil in Hin].
      by apply getPlayer_None_keys in Hp.
    + pose proof (JoinFacts.length_setPlayer_le id (createPlayer playerName) (Room.players r)).
      lia.
    + apply Forall_setPlayer; [done | apply playerInv_createPlayer].
    + intros Hgs. by apply Forall_setPlayer; [apply Hbetting|].
  - pose proof (Forall_getPlayer (λ p, Player.hand p = []) _ _ _ (Hbetting Hgs) Hp) as Hhand.
    cbn in Hhand.
    apply (roomInv_players r); try done; cbn.
    + by rewrite (setPlayer_keys_Some _ _ _ _ Hp).
    + by rewrite (length_keys _ _ (setPlayer_keys_Some _ _ _ _ Hp)).
    + apply Forall_setPlayer; [done|]. cbn. apply playerInv_bet; [|done|done].
      apply (Forall_getPlayer playerInv _ _ _ Hps Hp).
    + intros _. by apply Forall_setPlayer; [apply Hbetting|].
  - apply (roomInv_players r); try done; cbn.
    + by rewrite (setPlayer_keys_Some _ _ _ _ Hp).
    + by rewrite (length_keys _ _ (setPlayer_keys_Some _ _ _ _ Hp)).
    + apply Forall_setPlayer; [done|]. cbn. apply playerInv_hit; [|done].
      apply (Forall_getPlayer playerInv _ _ _ Hps Hp).
    + intros Hb. congruence.
  - apply (roomInv_players r); try done; cbn.
    + by rewrite (setPlayer_keys_Some _ _ _ _ Hp).
    + by rewrite (length_keys _ _ (setPlayer_keys_Some _ _ _ _ Hp)).
    + apply Forall_setPlayer; [done|]. cbn. apply playerInv_stand; [|done].
      apply (Forall_getPlayer playerInv _ _ _ Hps Hp).
    + intros Hb. congruence.
  - apply (roomInv_players r); try done; cbn.
    + eapply sublist_NoDup; [done | apply deletePlayer_keys].
    + pose proof (sublist_length _ _ (deletePlayer_keys id (Room.players r))) as Hle.
      rewrite !length_fmap in Hle. lia.
    + by apply Forall_deletePlayer.
    + intros Hgs. by apply Forall_deletePlayer, Hbetting.
Qed.

Lemma heapUpdates_inv A kinds newDeck h h' :
  heapUpdates A kinds newDeck h h' → Forall roomInv h → Forall roomInv h'.
Proof.
  induction 1 as [h|h h' a k r r' _ IH Ha Hr Hu Hk|h h' sid name _ IH]; intros Hall.
  - done.
  - apply Forall_insert; [by apply IH|]. eapply roomUpdate_inv; [exact Hu|].
    by apply (Forall_lookup_1 _ _ _ _ (IH Hall) Hr).
  - apply Forall_app. split; [by apply IH|]. constructor; [apply roomInv_newRoom | done].
Qed.

Lemma reachable_Forall_roomInv w : reachable w → Forall roomInv (heap w).
Proof.
  induction 1 as [|env e w w' Hreach IH Hstep|t w Hreach IH]; [constructor | | exact IH].
  eapply heapUpdates_inv; [by apply step_heapUpdates | exact IH].
Qed.

(** X19. The consistency of the room objects is kept by every event, and
    holds in every state that the server gets to: in every room, no player
    id twice and five players at most; for every player, the score is the
    score of the hand, the status is bust exactly when the score is over
    21, the bet is not negative and the chips are not negative unless the
    player is eliminated; the players' hands are empty during the betting
    phase; the dealer's score is the score of the dealer's hand; the dealer
    holds a card during the action phase; the round is not negative. *)
Theorem roomInv_invariant :
  (∀ env e w w', (∀ a r, heap w !! a = Some r → roomInv r) →
     step env e w = Some w' →
     ∀ a r, heap w' !! a = Some r → roomInv r)
  ∧ (∀ w, reachable w → ∀ a r, heap w !! a = Some r → roomInv r).
Proof.
  split.
  - intros env e w w' Hall Hstep a r Hr.
    assert (Forall roomInv (heap w)) as Hall' by (by apply Forall_lookup_2).
    apply (Forall_lookup_1 _ _ _ _
             (heapUpdates_inv _ _ _ _ _ (step_heapUpdates _ _ _ _ Hstep) Hall') Hr).
  - intros w Hreach a r Hr.
    apply (Forall_lookup_1 _ _ _ _ (reachable_Forall_roomInv w Hreach) Hr).
Qed.

Lemma roomInv_invariant_witness :
  roomInv (Sample.roomOf Sample.w_result)
  ∧ roomInv (Sample.roomOf (Sample.afterUntil Sample.trace_leave 10500)).
Proof.
  split.
  - apply (proj2 roomInv_invariant Sample.w_result
             (ElimFacts.reachable_afterUntil Sample.trace_stand 7500 Sample.w_result
                ltac:(vm_compute; reflexivity)) O).
    vm_compute. reflexivity.
  - apply (proj2 roomInv_invariant (Sample.afterUntil Sample.trace_leave 10500)
             (ElimFacts.reachable_afterUntil Sample.trace_leave 10500 _
                ltac:(vm_compute; reflexivity)) O).
    vm_compute. reflexivity.
Defined.

(** *** No exception but from a draw *)






(** *** The cards of a room *)

Lemma handsOf_cons k p ps : handsOf ((k, p) :: ps) = Player.hand p ++ handsOf ps.
Proof. done. Qed.

Lemma handsOf_app ps1 ps2 : handsOf (ps1 ++ ps2) = handsOf ps1 ++ handsOf ps2.
Proof. unfold handsOf. apply bind_app. Qed.

Lemma handsOf_forPlayers_nil f ps :
  (∀ p, Player.hand (f p) = []) → handsOf (forPlayers f ps) = [].
Proof.
  intros Hf. induction ps as [|[k p] ps IH]; [done|].
  cbn [forPlayers fmap list_fmap fst snd]. rewrite handsOf_cons, Hf. exact IH.
Qed.

Lemma handsOf_forPlayers_same f ps :
  (∀ p, Player.hand (f p) = Player.hand p) → handsOf (forPlayers f ps) = handsOf ps.
Proof.
  intros Hf. induction ps as [|[k p] ps IH]; [done|].
  cbn [forPlayers fmap list_fmap fst snd]. rewrite !handsOf_cons, Hf. by f_equal.
Qed.

Lemma handsOf_setPlayer id p q l ps :
  getPlayer id ps = Some p → Player.hand q = Player.hand p ++ l →
  handsOf (setPlayer id q ps) ≡ₚ handsOf ps ++ l.
Proof.
  intros Hp Hq. induction ps as [|[k p0] ps IH]; [done|].
  cbn [getPlayer setPlayer] in *. destruct (decide (k = id)) as [->|Hne].
  - injection Hp as ->. rewrite !handsOf_cons, Hq, <- !app_assoc.
    apply Permutation_app_head, Permutation_app_comm.
  - rewrite !handsOf_cons, <- app_assoc. apply Permutation_app_head. by apply IH.
Qed.

Lemma handsOf_setPlayer_new id q ps :
  Player.hand q = [] → handsOf (setPlayer id q ps) ⊆+ handsOf ps.
Proof.
  intros Hq. induction ps as [|[k p0] ps IH].
  - cbn [setPlayer]. rewrite handsOf_cons, Hq. done.
  - cbn [setPlayer]. destruct (decide (k = id)) as [->|Hne].
    + rewrite !handsOf_cons, Hq. by apply submseteq_inserts_l.
    + rewrite !handsOf_cons. by apply submseteq_skips_l.
Qed.

Lemma handsOf_deletePlayer id ps : handsOf (deletePlayer id ps) ⊆+ handsOf ps.
Proof.
  induction ps as [|[k p0] ps IH]; [done|].
  cbn [deletePlayer]. destruct (decide (k = id)) as [->|Hne].
  - rewrite handsOf_cons. by apply submseteq_inserts_l.
  - rewrite !handsOf_cons. by apply submseteq_skips_l.
Qed.

(** Dealing moves cards from the deck to the hands. *)
Lemma dealPlayers_cards ps : ∀ deck ps' deck',
  dealPlayers ps deck = Some (ps', deck') →
  handsOf ps' ++ default [] deck' ≡ₚ handsOf ps ++ default [] deck.
Proof.
  induction ps as [|[k p] ps IH]; intros deck ps' deck'; cbn [dealPlayers].
  - by intros [= <- <-].
  - destruct (_ && _).
    + destruct (draw deck) as [[c1 d1]|] eqn:Hd1; [|done]. cbn [mbind option_bind].
      destruct (draw (Some d1)) as [[c2 d2]|] eqn:Hd2; [|done]. cbn [mbind option_bind].
      destruct (dealPlayers ps (Some d2)) as [[ps'' deck'']|] eqn:Hrec; [|done].
      cbn [mbind option_bind]. intros [= <- <-].
      apply draw_Some in Hd1 as ->. apply draw_Some in Hd2. injection Hd2 as ->.
      rewrite !handsOf_cons. cbn [Player.hand Player.set_status Player.set_score
                                  Player.set_hand default].
      rewrite <- !app_assoc, (IH _ _ _ Hrec). simpl default. unfold id.
      apply Permutation_app_head.
      rewrite (app_assoc (handsOf ps) d2), (Permutation_app_comm [c1; c2]).
      apply Permutation_app_head. cbn. apply perm_swap.
    + destruct (dealPlayers ps deck) as [[ps'' deck'']|] eqn:Hrec; [|done].
      cbn [mbind option_bind]. intros [= <- <-].
      rewrite !handsOf_cons, <- !app_assoc.
      assert (Player.hand (if Player.isEliminated p then p else Player.set_status S_stand p)
              = Player.hand p) as -> by (by destruct (Player.isEliminated p)).
      apply Permutation_app_head. by apply IH.
Qed.

Lemma roomUpdate_cards newDeck k r r' :
  roomUpdate newDeck k r r' →
  cardsInRoom r' ⊆+ cardsInRoom r ∨ cardsInRoom r' = newDeck.
Proof.
  intros Hu.
  destruct Hu as [t r|r Hgs|r|r|r ps d c1 d1 c2 d2 Hgs Hdeal Hd1 Hd2|r|r|r|r c d Hlow Hdraw
                 |r|id playerName r Hroom|id p n r Hgs Hp Helim Hn|id p c d r Hgs Hp Hst Hdraw
                 |id p r Hgs Hp Hst|id p r Hp];
    unfold cardsInRoom; cbn [Room.players Room.dealer Room.deck Room.set_timers Room.set_round
                              Room.set_players Room.set_dealer Room.set_deck
                              Room.set_gameState Dealer.hand default].
  - by left.
  - by left.
  - right. by rewrite handsOf_forPlayers_nil.
  - by left.
  - left. apply Permutation_submseteq.
    apply dealPlayers_cards in Hdeal.
    apply draw_Some in Hd1 as ->. apply draw_Some in Hd2. injection Hd2 as ->.
    unfold id. simpl default in Hdeal.
    rewrite (Permutation_app_swap_app (handsOf (Room.players r))), <- Hdeal.
    rewrite <- (app_assoc (Dealer.hand _)), (Permutation_app_swap_app (handsOf ps)).
    do 2 apply Permutation_app_head.
    rewrite <- app_assoc, (Permutation_app_comm [c1; c2]).
    apply Permutation_app_head. apply perm_swap.
  - by left.
  - left. rewrite handsOf_forPlayers_same; [done|].
    intros p. unfold forceBet. by destruct (decide _).
  - left. rewrite handsOf_forPlayers_same; [done|].
    intros p. unfold forceStand. by destruct (decide _).
  - left. apply Permutation_submseteq. apply draw_Some in Hdraw as ->. cbn [default].
    apply Permutation_app_head. rewrite <- app_assoc. apply Permutation_app_head.
    apply Permutation_app_comm.
  - left. rewrite handsOf_forPlayers_same; [done|].
    intros p. by destruct (ResultFacts.settle_ruleOutcome (Dealer.score (Room.dealer r)) p)
      as (_ & _ & _ & _ & ? & _).
  - left. apply submseteq_app; [|done]. by apply handsOf_setPlayer_new.
  - left. apply Permutation_submseteq, Permutation_app_tail.
    rewrite (handsOf_setPlayer id p _ [] _ Hp); [by rewrite app_nil_r|].
    by rewrite app_nil_r.
  - left. apply Permutation_submseteq. apply draw_Some in Hdraw as ->. cbn [default].
    rewrite (handsOf_setPlayer id p _ [c] _ Hp).
    + rewrite <- !app_assoc. apply Permutation_app_head.
      rewrite (Permutation_app_comm [c]), <- !app_assoc. done.
    + unfold hitPlayer. by destruct (21 <? _).
  - left. apply Permutation_submseteq, Permutation_app_tail.
    rewrite (handsOf_setPlayer id p _ [] _ Hp); [by rewrite app_nil_r|].
    by rewrite app_nil_r.
  - left. apply submseteq_app; [|done]. apply handsOf_deletePlayer.
Qed.

Lemma NoDup_submseteq_l {X} (l k : list X) : l ⊆+ k → NoDup k → NoDup l.
Proof.
  intros (k' & ->)%submseteq_Permutation Hnd. by apply NoDup_app in Hnd as (? & _).
Qed.

Lemma heapUpdates_cards A kinds newDeck h h' :
  NoDup newDeck →
  heapUpdates A kinds newDeck h h' →
  Forall (λ r, NoDup (cardsInRoom r)) h → Forall (λ r, NoDup (cardsInRoom r)) h'.
Proof.
  intros Hnew.
  induction 1 as [h|h h' a k r r' _ IH Ha Hr Hu Hk|h h' sid name _ IH]; intros Hall.
  - done.
  - apply Forall_insert; [by apply IH|].
    destruct (roomUpdate_cards _ _ _ _ Hu) as [Hsub| ->]; [|done].
    eapply NoDup_submseteq_l; [exact Hsub|].
    by apply (Forall_lookup_1 _ _ _ _ (IH Hall) Hr).
  - apply Forall_app. split; [by apply IH|]. constructor; [|done]. cbn. constructor.
Qed.

Lemma runTimers_cards fuel env t : ∀ w w',
  NoDup (Env.createDeck env) →
  Forall (λ r, NoDup (cardsInRoom r)) (heap w) →
  runTimers fuel env t w = Some w' →
  Forall (λ r, NoDup (cardsInRoom r)) (heap w').
Proof.
  induction fuel as [|fuel IH]; intros w w' Hnew Hw; cbn [runTimers].
  - destruct (nextDue w) as [[h due]|]; [destruct (due <=? t); [done|]|];
      by intros [= <-].
  - destruct (nextDue w) as [[h due]|]; [destruct (due <=? t)|]; try (by intros [= <-]).
    destruct (fireTimer env h _) as [w1|] eqn:Hfire; [|done]. cbn [mbind option_bind].
    apply IH; [done|].
    apply (heapUpdates_cards _ _ _ _ _ Hnew (step_heapUpdates env (Ev_timer h) _ _ Hfire)).
    done.
Qed.

(** X21. When the decks that [createDeck] returns have no card twice, no
    card is ever at two places of a room: the players' hands, the dealer's
    hand and the deck of a room never hold the same card twice. Every event
    keeps this, and so does every run of the server from its start. *)
Theorem cards_distinct env :
  NoDup (Env.createDeck env) →
  (∀ e w w', (∀ a r, heap w !! a = Some r → NoDup (cardsInRoom r)) →
     step env e w = Some w' →
     ∀ a r, heap w' !! a = Some r → NoDup (cardsInRoom r))
  ∧ (∀ fuel trace w', run fuel env trace initial = Some w' →
       ∀ a r, heap w' !! a = Some r → NoDup (cardsInRoom r)).
Proof.
  intros Hnew. split.
  - intros e w w' Hall Hstep a r Hr.
    assert (Forall (λ r, NoDup (cardsInRoom r)) (heap w)) as Hall'
      by (by apply Forall_lookup_2).
    apply (Forall_lookup_1 _ _ _ _
             (heapUpdates_cards _ _ _ _ _ Hnew (step_heapUpdates _ _ _ _ Hstep) Hall') Hr).
  - intros fuel trace.
    assert (∀ w w', Forall (λ r, NoDup (cardsInRoom r)) (heap w) →
              run fuel env trace w = Some w' →
              Forall (λ r, NoDup (cardsInRoom r)) (heap w')) as Hrun.
    { induction trace as [|[t e] trace IH]; intros w w' Hw; cbn [run].
      - by intros [= <-].
      - unfold runEvent. cbn [fst snd].
        destruct (runTimers fuel env t w) as [w1|] eqn:H1; [|done]. cbn [mbind option_bind].
        destruct (step env e w1) as [w2|] eqn:H2; [|done]. cbn [mbind option_bind].
        apply IH.
        apply (heapUpdates_cards _ _ _ _ _ Hnew (step_heapUpdates _ _ _ _ H2)).
        by eapply runTimers_cards. }
    intros w' Hw' a r Hr.
    apply (Forall_lookup_1 _ _ _ _ (Hrun initial w' ltac:(constructor) Hw') Hr).
Qed.

Lemma cards_distinct_witness :
  NoDup (cardsInRoom (Sample.roomOf Sample.w_allStand)).
Proof.
  apply (proj2 (cards_distinct Sample.env1
                  ltac:(apply (bool_decide_unpack _); vm_compute; exact I))
           100%nat Sample.trace_stand Sample.w_allStand ltac:(vm_compute; reflexivity) O).
  vm_compute. reflexivity.
Defined.

End InvariantFacts.

(* ===================================================================== *)
(** ** What an event leaves alone *)
(* ===================================================================== *)

Module FrameFacts.
Import WorldFacts TimerFacts DealFacts UpdateFacts InvariantFacts.

(** Closes the goal that a kind is not in a list in which it is not. *)
Ltac not_in :=
  let H := fresh in
  intros H; repeat (apply elem_of_cons in H as [H|H]; [discriminate H|]);
  by apply elem_of_nil in H.

(** *** Chips *)

Lemma accountKept_players id r r' :
  Room.players r' = Room.players r → accountKept id r r'.
Proof. intros Heq p' Hp'. rewrite Heq in Hp'. by exists p'. Qed.

Lemma accountKept_trans id r1 r2 r3 :
  accountKept id r1 r2 → accountKept id r2 r3 → accountKept id r1 r3.
Proof.
  intros H12 H23 p3 Hp3. destruct (H23 p3 Hp3) as (p2 & Hp2 & ? & ? & ?).
  destruct (H12 p2 Hp2) as (p1 & Hp1 & ? & ? & ?).
  exists p1. split; [done|]. unfold sameAccount. split_and!; congruence.
Qed.

Lemma accountKept_forPlayers id f r r' :
  (∀ p, sameAccount p (f p)) →
  Room.players r' = forPlayers f (Room.players r) → accountKept id r r'.
Proof.
  intros Hf Heq p' Hp'. rewrite Heq, getPlayer_forPlayers in Hp'.
  destruct (getPlayer id (Room.players r)) as [p|]; [|done].
  injection Hp' as <-. by exists p.
Qed.

Lemma accountKept_setPlayer id id0 p q r r' :
  getPlayer id0 (Room.players r) = Some p → sameAccount p q →
  Room.players r' = setPlayer id0 q (Room.players r) → accountKept id r r'.
Proof.
  intros Hp Hq Heq p' Hp'. rewrite Heq, getPlayer_setPlayer in Hp'.
  destruct (decide (id0 = id)) as [<-|Hne].
  - injection Hp' as <-. by exists p.
  - by exists p'.
Qed.

Lemma roomUpdate_account newDeck k r r' id :
  roomUpdate newDeck k r r' → k ≠ K_result → k ≠ K_join id → accountKept id r r'.
Proof.
  intros Hu Hres Hjoin.
  destruct Hu as [t r|r Hgs|r|r|r ps d c1 d1 c2 d2 Hgs Hdeal Hd1 Hd2|r|r|r|r c d Hlow Hdraw
                 |r|id0 playerName r Hroom|id0 p n r Hgs Hp Helim Hn
                 |id0 p c d r Hgs Hp Hst Hdraw|id0 p r Hgs Hp Hst|id0 p r Hp].
  - by apply accountKept_players.
  - by apply accountKept_players.
  - eapply accountKept_forPlayers; [|done]. intros p. by unfold resetPlayer.
  - by apply accountKept_players.
  - intros p' Hp'. cbn in Hp'.
    destruct (ElimFacts.Forall2_getPlayer_rev dealtPlayer id _ _ _
                (dealPlayers_dealt _ _ _ _ Hdeal) Hp') as (p & Hp & Hplay & Hstand & Hsame).
    exists p. split; [done|].
    destruct (Player.isEliminated p) eqn:Helim; [by rewrite (Hsame eq_refl)|].
    destruct (decide (0 < Player.bet p)) as [Hpos|Hpos].
    + destruct (Hplay Hpos eq_refl) as (c1' & c2' & ->). by unfold sameAccount.
    + rewrite (Hstand ltac:(lia) eq_refl). by unfold sameAccount.
  - by apply accountKept_players.
  - eapply accountKept_forPlayers; [|done]. intros p. unfold forceBet.
    by destruct (decide _).
  - eapply accountKept_forPlayers; [|done]. intros p. unfold forceStand.
    by destruct (decide _).
  - by apply accountKept_players.
  - done.
  - intros p' Hp'. cbn in Hp'. rewrite getPlayer_setPlayer in Hp'.
    destruct (decide (id0 = id)) as [->|Hne]; [done|]. by exists p'.
  - eapply accountKept_setPlayer; [exact Hp | | done]. by unfold sameAccount.
  - eapply accountKept_setPlayer; [exact Hp | | done].
    unfold hitPlayer, sameAccount. cbn. by destruct (21 <? _).
  - eapply accountKept_setPlayer; [exact Hp | | done]. by unfold sameAccount.
  - intros p' Hp'. cbn in Hp'. rewrite getPlayer_deletePlayer in Hp'.
    destruct (decide (id0 = id)); [done|]. by exists p'.
Qed.

Lemma heapUpdates_account A kinds newDeck h h' id :
  heapUpdates A kinds newDeck h h' →
  K_result ∉ kinds → K_join id ∉ kinds →
  ∀ a r r', h !! a = Some r → h' !! a = Some r' → accountKept id r r'.
Proof.
  intros Hu Hres Hjoin.
  induction Hu as [h|h h' b k r0 r1 Hu IH Hb Hr0 Hk Hin|h h' sid name Hu IH];
    intros a r r' Hr Hr'.
  - simplify_eq. by apply accountKept_players.
  - destruct (decide (b = a)) as [->|Hne].
    + rewrite list_lookup_insert_eq in Hr' by (by eapply lookup_lt_Some). simplify_eq.
      eapply accountKept_trans; [by eapply IH|].
      eapply roomUpdate_account; [exact Hk | |]; intros ->; done.
    + rewrite list_lookup_insert_ne in Hr' by done. by eapply IH.
  - apply lookup_lt_Some in Hr as Hlt.
    pose proof (proj1 (heapUpdates_untouched _ _ _ _ _ Hu)) as Hlen.
    rewrite lookup_app_l in Hr' by lia. by eapply IH.
Qed.

(** X25. Chips move only when the result is computed. Whatever event is
    handled, other than a firing of the dealer's interval, a player who is
    in a room after the event was in it before with the same name, the
    same chips and the same elimination flag, unless the event is a
    [joinRoom] of that player's own socket, which writes a fresh record. In
    particular placing a bet does not take the bet from the chips. *)
Theorem chips_only_in_result env e w w' a r r' id p' :
  step env e w = Some w' →
  heap w !! a = Some r →
  heap w' !! a = Some r' →
  getPlayer id (Room.players r') = Some p' →
  ¬ firesDealerInterval e w →
  ¬ joinsAs e id →
  ∃ p, getPlayer id (Room.players r) = Some p
    ∧ Player.name p' = Player.name p
    ∧ Player.chips p' = Player.chips p
    ∧ Player.isEliminated p' = Player.isEliminated p.
Proof.
  intros Hstep Hr Hr' Hp' Hnd Hnj.
  apply (heapUpdates_account _ _ _ _ _ id (step_heapUpdates _ _ _ _ Hstep)) with (a := a)
    (r := r) (r' := r'); try done.
  - destruct e as [s roomId playerName|s roomId playerName|s|s roomId amount|s roomId
                  |s roomId|s|h]; cbn [eventKinds]; try not_in.
    destruct (pending w !! h) as [[due c]|] eqn:Hh; [|not_in].
    destruct c; cbn [timerKinds]; try not_in.
    intros _. apply Hnd. cbn. eauto.
  - destruct e as [s roomId playerName|s roomId playerName|s|s roomId amount|s roomId
                  |s roomId|s|h]; cbn [eventKinds]; try not_in.
    + intros [[= Heq]|H]%elem_of_cons; [by apply Hnj | by apply elem_of_nil in H].
    + destruct (pending w !! h) as [[due c]|] eqn:Hh; [|not_in].
      destruct c; cbn [timerKinds]; not_in.
Qed.

Lemma chips_only_in_result_witness :
  ∃ p, getPlayer "A" (Room.players (Sample.roomOf Sample.w_betting)) = Some p
    ∧ Player.name (Player.mk "alice" 1000 100 [] 0 S_betted false (Some R_empty))
      = Player.name p
    ∧ Player.chips (Player.mk "alice" 1000 100 [] 0 S_betted false (Some R_empty))
      = Player.chips p
    ∧ Player.isEliminated (Player.mk "alice" 1000 100 [] 0 S_betted false (Some R_empty))
      = Player.isEliminated p.
Proof.
  apply (chips_only_in_result Sample.env1 (Ev_placeBet Sample.sA "r" "100")
           Sample.w_betting Sample.w_oneBet O (Sample.roomOf Sample.w_betting)
           (Sample.roomOf Sample.w_oneBet) "A").
  - vm_compute. reflexivity.
  - vm_compute. reflexivity.
  - vm_compute. reflexivity.
  - vm_compute. reflexivity.
  - intros [].
  - intros [].
Defined.

(** *** The other players *)

Lemma ownOnly_refl id r : ownOnly id r r.
Proof. by unfold ownOnly. Qed.

Lemma ownOnly_trans id r1 r2 r3 : ownOnly id r1 r2 → ownOnly id r2 r3 → ownOnly id r1 r3.
Proof.
  intros (Hp12 & ? & ? & ? & ?) (Hp23 & ? & ? & ? & ?). unfold ownOnly.
  split_and!; try congruence. intros id' Hne. by rewrite Hp23, Hp12.
Qed.

Lemma roomUpdate_own newDeck k r r' id :
  roomUpdate newDeck k r r' →
  k = K_join id ∨ k = K_hit id ∨ k = K_stand id ∨ k = K_leave id →
  ownOnly id r r'.
Proof.
  intros Hu Hk.
  destruct Hu as [t r|r Hgs|r|r|r ps d c1 d1 c2 d2 Hgs Hdeal Hd1 Hd2|r|r|r|r c d Hlow Hdraw
                 |r|id0 playerName r Hroom|id0 p n r Hgs Hp Helim Hn
                 |id0 p c d r Hgs Hp Hst Hdraw|id0 p r Hgs Hp Hst|id0 p r Hp];
    try (by destruct Hk as [?|[?|[?|?]]]);
    (assert (id0 = id) as -> by (destruct Hk as [?|[?|[?|?]]]; congruence));
    unfold ownOnly; cbn; (split_and!; try done); intros id' Hne.
  - rewrite getPlayer_setPlayer. by rewrite decide_False.
  - rewrite getPlayer_setPlayer. by rewrite decide_False.
  - rewrite getPlayer_setPlayer. by rewrite decide_False.
  - rewrite getPlayer_deletePlayer. by rewrite decide_False.
Qed.

Lemma heapUpdates_own A kinds newDeck h h' id :
  heapUpdates A kinds newDeck h h' →
  (∀ k, k ∈ kinds → k = K_join id ∨ k = K_hit id ∨ k = K_stand id ∨ k = K_leave id) →
  ∀ a r, h !! a = Some r → ∃ r', h' !! a = Some r' ∧ ownOnly id r r'.
Proof.
  intros Hu Hkinds.
  induction Hu as [h|h h' b k r0 r1 Hu IH Hb Hr0 Hk Hin|h h' sid name Hu IH];
    intros a r Hr.
  - exists r. split; [done | apply ownOnly_refl].
  - destruct (IH a r Hr) as (r' & Hr' & Hown). destruct (decide (b = a)) as [->|Hne].
    + exists r1. split; [by rewrite list_lookup_insert_eq by (by eapply lookup_lt_Some)|].
      simplify_eq. eapply ownOnly_trans; [exact Hown|].
      eapply roomUpdate_own; [exact Hk | by apply Hkinds].
    + exists r'. by rewrite list_lookup_insert_ne.
  - destruct (IH a r Hr) as (r' & Hr' & Hown). exists r'.
    split; [by apply lookup_app_l_Some | done].
Qed.

(** X26. A [joinRoom], [hit], [stand] or [disconnect] changes nothing in
    any room but the sender's own record (and the deck, from which a hit
    draws): the records of the other players, the phase, the round, the
    dealer and the stored timer handles of every room object are as they
    were. *)
Theorem own_record_only env e w w' id a r :
  step env e w = Some w' →
  actsOnOwnRecord e id →
  heap w !! a = Some r →
  ∃ r', heap w' !! a = Some r'
    ∧ (∀ id', id' ≠ id →
         getPlayer id' (Room.players r') = getPlayer id' (Room.players r))
    ∧ Room.gameState r' = Room.gameState r
    ∧ Room.round r' = Room.round r
    ∧ Room.dealer r' = Room.dealer r
    ∧ Room.timers r' = Room.timers r.
Proof.
  intros Hstep Hown Hr.
  apply (heapUpdates_own _ _ _ _ _ id (step_heapUpdates _ _ _ _ Hstep)); [|done].
  intros k Hk.
  destruct e as [s roomId playerName|s roomId playerName|s|s roomId amount|s roomId
                |s roomId|s|h]; cbn in Hown; try done; subst id; cbn [eventKinds] in Hk;
    apply list_elem_of_singleton in Hk as ->; tauto.
Qed.

Lemma own_record_only_witness :
  ∃ r', heap (default initial (on_hit Sample.sA "r" Sample.w_action)) !! O = Some r'
    ∧ (∀ id', id' ≠ "A" →
         getPlayer id' (Room.players r')
         = getPlayer id' (Room.players (Sample.roomOf Sample.w_action)))
    ∧ Room.gameState r' = Room.gameState (Sample.roomOf Sample.w_action)
    ∧ Room.round r' = Room.round (Sample.roomOf Sample.w_action)
    ∧ Room.dealer r' = Room.dealer (Sample.roomOf Sample.w_action)
    ∧ Room.timers r' = Room.timers (Sample.roomOf Sample.w_action).
Proof.
  apply (own_record_only Sample.env1 (Ev_hit Sample.sA "r") Sample.w_action
           (default initial (on_hit Sample.sA "r" Sample.w_action)) "A" O
           (Sample.roomOf Sample.w_action)).
  - vm_compute. reflexivity.
  - reflexivity.
  - vm_compute. reflexivity.
Defined.

End FrameFacts.

(* ===================================================================== *)
(** ** The registry of rooms *)
(* ===================================================================== *)

Module RegistryFacts.
Import WorldFacts TimerFacts DealFacts UpdateFacts InvariantFacts.

(** *** What leaves the registry alone *)

Lemma rooms_clearAllTimers roomId w : rooms (clearAllTimers roomId w) = rooms w.
Proof.
  unfold clearAllTimers. destruct (getRoom roomId w) as [[a r]|]; [|done].
  induction (Timers.handles (Room.timers r)) as [|h hs IH]; [done|].
  cbn [foldr]. by rewrite rooms_clearTimer.
Qed.

Lemma rooms_updateGameState roomId w w' :
  updateGameState roomId w = Some w' → rooms w' = rooms w.
Proof. by intros (-> & _)%updateGameState_Some. Qed.

Lemma rooms_checkAndEndActionPhase roomId w :
  rooms (checkAndEndActionPhase roomId w) = rooms w.
Proof.
  unfold checkAndEndActionPhase. repeat case_match; try done.
  cbn. apply rooms_clearTimer.
Qed.

Lemma rooms_dealerTurn roomId w w' :
  dealerTurn roomId w = Some w' → rooms w' = rooms w.
Proof.
  unfold dealerTurn. destruct (getRoom roomId w) as [[a r]|]; [|by intros [= <-]].
  destruct (updateGameState _ _) as [w1|] eqn:E; [|done].
  cbn. intros [= <-]. cbn. by rewrite (rooms_updateGameState _ _ _ E).
Qed.

Lemma rooms_startActionPhase roomId w w' :
  startActionPhase roomId w = Some w' → rooms w' = rooms w.
Proof.
  unfold startActionPhase. destruct (getRoom roomId w) as [[a r]|]; [|by intros [= <-]].
  destruct (updateGameState _ _) as [w1|] eqn:E; [|done].
  cbn. intros [= <-]. cbn. by rewrite (rooms_updateGameState _ _ _ E).
Qed.

Lemma rooms_dealCards roomId w w' :
  dealCards roomId w = Some w' → rooms w' = rooms w.
Proof.
  unfold dealCards. destruct (getRoom roomId w) as [[a r]|]; [|by intros [= <-]].
  destruct (decide _); [|by intros [= <-]].
  destruct (dealPlayers _ _) as [[ps d]|]; [|done]. cbn [mbind option_bind].
  destruct (draw d) as [[c1 d1]|]; [|done]. cbn [mbind option_bind].
  destruct (draw (Some d1)) as [[c2 d2]|]; [|done]. cbn [mbind option_bind].
  intros ->%rooms_startActionPhase. cbn. apply rooms_clearAllTimers.
Qed.

Lemma rooms_startRound newDeck roomId w w' :
  startRound newDeck roomId w = Some w' → rooms w' = rooms w.
Proof.
  unfold startRound. destruct (getRoom roomId w) as [[a r]|]; [|by intros [= <-]].
  cbn. intros ->%rooms_updateGameState. cbn. apply rooms_clearAllTimers.
Qed.

Lemma rooms_determineWinner roomId w w' :
  determineWinner roomId w = Some w' → rooms w' = rooms w.
Proof.
  unfold determineWinner. destruct (getRoom roomId w) as [[a r]|]; [|by intros [= <-]].
  destruct (updateGameState _ _) as [w1|] eqn:E; [|done]. cbn [mbind option_bind].
  apply rooms_updateGameState in E. cbn in E.
  by destruct (MAX_ROUNDS <=? Room.round r); cbn; intros [= <-].
Qed.

Lemma rooms_finalRankingTimeout env roomId w :
  rooms (finalRankingTimeout env roomId w) = rooms w
  ∨ rooms (finalRankingTimeout env roomId w) = delete roomId (rooms w).
Proof.
  unfold finalRankingTimeout. destruct (getRoom roomId w) as [[a r]|]; [|by left].
  right. cbn. f_equal. destruct (Env.socketsInRoom env) as [ss|]; [|done].
  generalize w. induction ss as [|x ss IH]; intros w0; [done|].
  cbn. rewrite IH. unfold sendRanking. by repeat case_match.
Qed.

(** *** The handlers and the timer callbacks *)

Lemma rooms_joinRoom s roomId playerName w w' :
  on_joinRoom s roomId playerName w = Some w' → rooms w' = rooms w.
Proof.
  unfold on_joinRoom. destruct (getRoom roomId w) as [[a r]|]; [|by intros [= <-]].
  destruct (_ <=? _)%nat; [by intros [= <-]|]. by intros ->%rooms_updateGameState.
Qed.

Lemma rooms_requestStartGame env s w w' :
  on_requestStartGame env s w = Some w' → rooms w' = rooms w.
Proof.
  unfold on_requestStartGame, startGame.
  destruct (getRoomIdFromSocket s) as [roomId|]; [|by intros [= <-]].
  destruct (getRoom roomId w) as [[a r]|]; [|by intros [= <-]].
  destruct (_ && _); [|by intros [= <-]]. by intros ->%rooms_startRound.
Qed.

Lemma rooms_placeBet s roomId amount w w' :
  on_placeBet s roomId amount w = Some w' → rooms w' = rooms w.
Proof.
  unfold on_placeBet. destruct (getRoom roomId w) as [[a r]|]; [|by intros [= <-]].
  destruct (getPlayer _ _) as [p|]; [|by intros [= <-]].
  destruct (decide _); [|by intros [= <-]].
  destruct (Player.isEliminated p); [by intros [= <-]|].
  destruct (parseInt amount) as [n|]; [|by intros [= <-]].
  destruct (0 <? n); [|by intros [= <-]].
  destruct (allPlayersBetted _).
  - intros ->%rooms_dealCards. by rewrite !rooms_clearTimer.
  - by intros ->%rooms_updateGameState.
Qed.

Lemma rooms_hit s roomId w w' :
  on_hit s roomId w = Some w' → rooms w' = rooms w.
Proof.
  unfold on_hit. destruct (getRoom roomId w) as [[a r]|]; [|by intros [= <-]].
  destruct (getPlayer _ _) as [p|]; [|by intros [= <-]].
  destruct (_ && _); [|by intros [= <-]].
  destruct (draw _) as [[c d]|]; [|done]. cbn [mbind option_bind].
  destruct (updateGameState _ _) as [w1|] eqn:E; [|done]. cbn [mbind option_bind].
  intros [= <-]. by rewrite rooms_checkAndEndActionPhase, (rooms_updateGameState _ _ _ E).
Qed.

Lemma rooms_stand s roomId w w' :
  on_stand s roomId w = Some w' → rooms w' = rooms w.
Proof.
  unfold on_stand. destruct (getRoom roomId w) as [[a r]|]; [|by intros [= <-]].
  destruct (getPlayer _ _) as [p|]; [|by intros [= <-]].
  destruct (_ && _); [|by intros [= <-]].
  destruct (updateGameState _ _) as [w1|] eqn:E; [|done]. cbn [mbind option_bind].
  intros [= <-]. by rewrite rooms_checkAndEndActionPhase, (rooms_updateGameState _ _ _ E).
Qed.

Lemma rooms_fireTimer env h w w' :
  fireTimer env h w = Some w' →
  rooms w' = rooms w ∨ ∃ roomId, rooms w' = delete roomId (rooms w).
Proof.
  unfold fireTimer. destruct (pending w !! h) as [[due c]|]; [|intros [= <-]; by left].
  destruct c as [roomId n|roomId room|roomId room n|roomId|roomId room|roomId room n|roomId].
  - intros [= <-]. left. by destruct (_ <? 0).
  - intros H; left; revert H. rewrite getRoom_clearTimer.
    destruct (getRoom roomId w) as [[a r]|]; [|by intros [= <-]].
    destruct (decide _); [|by intros [= <-]]. by intros ->%rooms_dealCards.
  - intros H; left; revert H. destruct (_ <? 0); [|by intros [= <-]].
    destruct (updateGameState _ _) as [w1|] eqn:E; [|done]. cbn [mbind option_bind].
    intros [= <-]. cbn. by rewrite (rooms_updateGameState _ _ _ E).
  - intros ->%rooms_dealerTurn. left. apply rooms_clearTimer.
  - intros H; left; revert H. cbn [rearm heap set_pending].
    destruct (heap w !! room) as [r|]; [|by intros [= <-]].
    destruct (_ <? 17).
    + destruct (draw _) as [[c d]|]; [|done]. cbn [mbind option_bind].
      by intros ->%rooms_updateGameState.
    + intros ->%rooms_determineWinner. by rewrite rooms_clearTimer.
  - intros H; left; revert H. destruct (_ <? 0); [|by intros [= <-]].
    cbn [rearm heap set_pending emit].
    destruct (heap w !! room) as [r|]; [|by intros [= <-]].
    intros ->%rooms_startRound. cbn. by rewrite rooms_clearTimer.
  - intros [= <-].
    destruct (rooms_finalRankingTimeout env roomId (clearTimer (Some h) w)) as [Heq|Heq];
      [left | right; exists roomId]; exact Heq.
Qed.

(** What [disconnect] does to the registry and to the room objects: either
    the registry is as it was and no room object loses its last player, or
    one registered id is deleted and the other room objects are as they
    were. *)
Lemma on_disconnect_registry s w w' :
  on_disconnect s w = Some w' →
  (rooms w' = rooms w
   ∧ ∀ a r, heap w !! a = Some r → Room.players r ≠ [] →
       ∃ r', heap w' !! a = Some r' ∧ Room.players r' ≠ [])
  ∨ (∃ roomId a, rooms w !! roomId = Some a
       ∧ rooms w' = delete roomId (rooms w)
       ∧ ∀ b, b ≠ a → heap w' !! b = heap w !! b).
Proof.
  assert (∀ a r, heap w !! a = Some r → Room.players r ≠ [] →
            ∃ r', heap w !! a = Some r' ∧ Room.players r' ≠ []) as Hsame by eauto.
  unfold on_disconnect.
  destruct (getRoomIdFromSocket s) as [roomId|]; [|intros [= <-]; by left].
  destruct (getRoom roomId w) as [[a r]|] eqn:Hr; [|intros [= <-]; by left].
  destruct (getPlayer _ _) as [p|] eqn:Hp; [|intros [= <-]; by left].
  apply getRoom_Some in Hr as [Hreg Hheap].
  destruct (_ =? _)%nat eqn:Hlen.
  - intros [= <-]. right. exists roomId, a. cbn.
    rewrite rooms_clearAllTimers, heap_clearAllTimers. cbn.
    split_and!; [done | done |]. intros b Hne. by apply list_lookup_alter_ne.
  - destruct (updateGameState _ _) as [w1|] eqn:E; [|done]. cbn [mbind option_bind].
    intros [= <-]. left.
    rewrite rooms_checkAndEndActionPhase, heap_checkAndEndActionPhase,
      (rooms_updateGameState _ _ _ E), (heap_updateGameState _ _ _ E). cbn.
    split; [done|]. intros b r0 Hb Hne. destruct (decide (b = a)) as [->|Hba].
    + rewrite (alter_lookup_Some _ _ _ _ Hheap).
      rewrite list_lookup_insert_eq by (by eapply lookup_lt_Some).
      eexists; split; [done|]. cbn. intros Hnil. rewrite Hnil in Hlen. done.
    + exists r0. by rewrite list_lookup_alter_ne.
Qed.

(** *** No update but a leave empties a room *)

Lemma roomUpdate_nonempty newDeck k r r' :
  roomUpdate newDeck k r r' → (∀ id, k ≠ K_leave id) →
  Room.players r ≠ [] → Room.players r' ≠ [].
Proof.
  assert (∀ ps ps' : playerMap, ps'.*1 = ps.*1 → ps ≠ [] → ps' ≠ []) as Hkeys.
  { intros ps ps' Hk Hne ->. by destruct ps. }
  assert (∀ id q (ps : playerMap), setPlayer id q ps ≠ []) as Hset.
  { intros id q ps Hnil. pose proof (setPlayer_keys id q ps) as Hk. rewrite Hnil in Hk.
    destruct (getPlayer id ps); [by destruct ps | by destruct (ps.*1)]. }
  intros Hu Hk Hne.
  destruct Hu as [t r|r Hgs|r|r|r ps d c1 d1 c2 d2 Hgs Hdeal Hd1 Hd2|r|r|r|r c d Hlow Hdraw
                 |r|id0 playerName r Hroom|id0 p n r Hgs Hp Helim Hn
                 |id0 p c d r Hgs Hp Hst Hdraw|id0 p r Hgs Hp Hst|id0 p r Hp];
    cbn; try done; try apply Hset;
    try (by eapply Hkeys; [apply forPlayers_keys | done]).
  - eapply Hkeys; [|exact Hne]. eapply dealt_keys, dealPlayers_dealt, Hdeal.
  - by destruct (Hk id0).
Qed.

Lemma heapUpdates_nonempty A kinds newDeck h h' :
  heapUpdates A kinds newDeck h h' →
  (∀ id, K_leave id ∉ kinds) →
  ∀ a r', h' !! a = Some r' →
    (∀ r, h !! a = Some r → Room.players r ≠ []) → Room.players r' ≠ [].
Proof.
  intros Hu Hkinds.
  induction Hu as [h|h h' b k r0 r1 Hu IH Hb Hr0 Hk Hin|h h' sid name Hu IH];
    intros a r' Hr' Hold.
  - by apply Hold.
  - destruct (decide (b = a)) as [->|Hne].
    + rewrite list_lookup_insert_eq in Hr' by (by eapply lookup_lt_Some). simplify_eq.
      eapply roomUpdate_nonempty; [exact Hk | | by eapply IH].
      intros id ->. by apply (Hkinds id).
    + rewrite list_lookup_insert_ne in Hr' by done. by eapply IH.
  - apply lookup_app_Some in Hr' as [Hr'|[_ Hr']]; [by eapply IH|].
    apply list_lookup_singleton_Some in Hr' as [_ <-]. done.
Qed.

Lemma step_nonempty env e w w' :
  step env e w = Some w' →
  (∀ s, e ≠ Ev_disconnect s) →
  ∀ a r, heap w !! a = Some r → Room.players r ≠ [] →
    ∃ r', heap w' !! a = Some r' ∧ Room.players r' ≠ [].
Proof.
  intros Hstep He a r Hr Hne.
  pose proof (step_heapUpdates _ _ _ _ Hstep) as Hu.
  destruct (heapUpdates_untouched _ _ _ _ _ Hu) as [Hlen _].
  destruct (heap w' !! a) as [r'|] eqn:Hr'.
  - exists r'. split; [done|].
    eapply (heapUpdates_nonempty _ _ _ _ _ Hu); [|exact Hr'|by intros ? ?; simplify_eq].
    intros id. destruct e as [s roomId playerName|s roomId playerName|s|s roomId amount
                             |s roomId|s roomId|s|h]; cbn [eventKinds];
      try FrameFacts.not_in; [by destruct (He s)|].
    destruct (pending w !! h) as [[due c]|]; [|FrameFacts.not_in].
    destruct c; cbn [timerKinds]; FrameFacts.not_in.
  - apply lookup_ge_None in Hr'. apply lookup_lt_Some in Hr. lia.
Qed.

(** *** The invariant *)

Lemma registryInv_step env e w w' :
  registryInv w → step env e w = Some w' → registryInv w'.
Proof.
  intros [Hex Hinj] Hstep.
  assert (∀ roomId a, rooms w !! roomId = Some a → (a < length (heap w))%nat) as Hlt.
  { intros roomId a (r & Hr & _)%Hex. by eapply lookup_lt_Some. }
  assert (∀ roomId0 roomId a, delete roomId0 (rooms w) !! roomId = Some a →
            rooms w !! roomId = Some a) as Hdel.
  { intros roomId0 roomId a. by intros [_ ?]%lookup_delete_Some. }
  assert ((rooms w' = rooms w ∨ ∃ roomId, rooms w' = delete roomId (rooms w)) →
          (∀ a r, heap w !! a = Some r → Room.players r ≠ [] →
             ∃ r', heap w' !! a = Some r' ∧ Room.players r' ≠ []) →
          registryInv w') as Hkeep.
  { intros Hrooms Hheap. split.
    - intros roomId a Ha.
      assert (rooms w !! roomId = Some a) as Ha'.
      { destruct Hrooms as [Heq|[roomId0 Heq]]; rewrite Heq in Ha; eauto. }
      destruct (Hex _ _ Ha') as (r & Hr & Hne). eauto.
    - intros id1 id2 a H1 H2. apply (Hinj id1 id2 a);
        destruct Hrooms as [Heq|[roomId0 Heq]]; rewrite Heq in H1, H2; eauto. }
  destruct e as [s roomId playerName|s roomId playerName|s|s roomId amount
                |s roomId|s roomId|s|h]; cbn [step] in Hstep.
  - destruct (getRoom roomId w) as [[a r]|] eqn:Hroom.
    + apply Hkeep; [left|].
      * unfold on_createRoom in Hstep. rewrite Hroom in Hstep. by simplify_eq.
      * by apply (step_nonempty env (Ev_createRoom s roomId playerName)).
    + destruct (RoomFacts.on_createRoom_free s roomId playerName w Hroom)
        as (w1 & Hw1 & _ & Hrooms & Hheap & _).
      cbn [step] in *. rewrite Hstep in Hw1. simplify_eq.
      split.
      * intros roomId' a. rewrite Hrooms, Hheap.
        intros [[<- <-]|[Hne Ha]]%lookup_insert_Some.
        -- exists (newRoom (Socket.id s) playerName).
           split; [|done]. by rewrite lookup_app_r, Nat.sub_diag.
        -- destruct (Hex _ _ Ha) as (r & Hr & Hnil). exists r.
           split; [by apply lookup_app_l_Some | done].
      * intros id1 id2 a. rewrite Hrooms.
        intros [[<- <-]|[Hne1 H1]]%lookup_insert_Some
               [[<- Ha]|[Hne2 H2]]%lookup_insert_Some; try done.
        -- apply Hlt in H2. lia.
        -- apply Hlt in H1. lia.
        -- by apply (Hinj id1 id2 a).
  - apply Hkeep; [left; by eapply rooms_joinRoom|].
    by apply (step_nonempty env (Ev_joinRoom s roomId playerName)).
  - apply Hkeep; [left; by eapply rooms_requestStartGame|].
    by apply (step_nonempty env (Ev_requestStartGame s)).
  - apply Hkeep; [left; by eapply rooms_placeBet|].
    by apply (step_nonempty env (Ev_placeBet s roomId amount)).
  - apply Hkeep; [left; by eapply rooms_hit|].
    by apply (step_nonempty env (Ev_hit s roomId)).
  - apply Hkeep; [left; by eapply rooms_stand|].
    by apply (step_nonempty env (Ev_stand s roomId)).
  - destruct (on_disconnect_registry _ _ _ Hstep)
      as [[Hrooms Hheap]|(roomId & a & Ha & Hrooms & Hheap)].
    + apply Hkeep; [by left | done].
    + split.
      * intros roomId' b. rewrite Hrooms. intros [Hne Hb]%lookup_delete_Some.
        destruct (Hex _ _ Hb) as (r & Hr & Hnil). exists r. split; [|done].
        rewrite Hheap; [done|]. intros ->. by destruct Hne, (Hinj _ _ _ Ha Hb).
      * intros id1 id2 b. rewrite Hrooms.
        intros [_ H1]%lookup_delete_Some [_ H2]%lookup_delete_Some.
        by apply (Hinj id1 id2 b).
  - apply Hkeep; [by eapply rooms_fireTimer|].
    by apply (step_nonempty env (Ev_timer h)).
Qed.

(** X27. The registry of rooms is sound in every state that the server
    gets to, and every event keeps it so: every registered room id refers
    to a room object that exists and has at least one player (a room is
    unregistered in the turn in which its last player disconnects, and no
    other update removes a player), and no two ids refer to the same room
    object (every [createRoom] makes a new object). *)
Theorem registry_sound :
  (∀ env e w w', registryInv w → step env e w = Some w' → registryInv w')
  ∧ (∀ w, reachable w → registryInv w).
Proof.
  split; [apply registryInv_step|].
  induction 1 as [|env e w w' _ IH Hstep|t w _ IH].
  - split; [intros roomId a | intros id1 id2 a]; cbn; by rewrite lookup_empty.
  - by eapply registryInv_step.
  - exact IH.
Qed.

Lemma registry_sound_witness :
  registryInv Sample.w_result
  ∧ registryInv (Sample.afterUntil Sample.trace_leave 10500).
Proof.
  split.
  - apply (proj2 registry_sound Sample.w_result
             (ElimFacts.reachable_afterUntil Sample.trace_stand 7500 Sample.w_result
                ltac:(vm_compute; reflexivity))).
  - apply (proj2 registry_sound (Sample.afterUntil Sample.trace_leave 10500)
             (ElimFacts.reachable_afterUntil Sample.trace_leave 10500 _
                ltac:(vm_compute; reflexivity))).
Defined.

End RegistryFacts.

